(** * media-scraper: the scrape pipeline, embedded and verified

    A shallow embedding of the backend of the media scraper: the extraction
    router ([ScraperManager.scrape]), the Redis cache service, the job
    service, the queue worker ([processScrapeJob]), the queue manager's
    progress tracker, the submission route, the HTML extractor's URL filter
    and the Basic-Auth middleware.

    Conventions.
    - A JavaScript string is a [string]: the sequence of the bytes of its
      UTF-8 encoding, which is what [Buffer.from(s)] yields.
    - Code that may throw returns a [result]; code that mutates a service
      threads the state of that service explicitly.
    - [console.log], [job.progress] and the garbage-collection hints touch
      none of the modelled state and are left out. *)

From Stdlib Require Import NArith Ascii String List Bool Lia.
From stdpp Require Import base option list gmap strings fin_maps pretty sorting relations.

Local Open Scope string_scope.
Local Open Scope nat_scope.

(** ** Fallible computations *)

Inductive result (A : Type) : Type :=
| Ok (a : A)
| Throw (msg : string).
Arguments Ok {A} a.
Arguments Throw {A} msg.

(** A computation over a service state [S] that may throw; the state
    reached before the throw is kept, as in the JavaScript original. *)
Definition M (S A : Type) : Type := S -> result A * S.

Definition ret {S A} (a : A) : M S A := fun s => (Ok a, s).
Definition throw {S A} (msg : string) : M S A := fun s => (Throw msg, s).
Definition bind {S A B} (m : M S A) (k : A -> M S B) : M S B :=
  fun s => match m s with
           | (Ok a, s') => k a s'
           | (Throw e, s') => (Throw e, s')
           end.
Definition try_catch {S A} (m : M S A) (handler : string -> M S A) : M S A :=
  fun s => match m s with
           | (Ok a, s') => (Ok a, s')
           | (Throw e, s') => handler e s'
           end.

Declare Scope js_scope.
Delimit Scope js_scope with js.
Notation "'let!' x ':=' m 'in' k" := (bind m (fun x => k))
  (at level 10, x name, m at level 100, k at level 200) : js_scope.
Notation "'do!' m 'in' k" := (bind m (fun _ => k))
  (at level 10, m at level 100, k at level 200) : js_scope.

(** ** Scraper types ([scrapers/types.ts]) *)

Inductive MediaType := image | video.
Inductive ScraperUsed := cheerio | puppeteer.

#[global] Instance MediaType_eq_dec : EqDecision MediaType.
Proof. solve_decision. Defined.
#[global] Instance ScraperUsed_eq_dec : EqDecision ScraperUsed.
Proof. solve_decision. Defined.

Record ScrapedMedia := {
  mediaUrl : string;
  type : MediaType;
  title : option string
}.

Record ScrapeResult := {
  url : string;
  success : bool;
  media : list ScrapedMedia;
  error : option string;
  scraperUsed : ScraperUsed
}.

(** ** The extraction router ([scrapers/scraper.manager.ts]) *)

Module ScraperManager.
Section Router.
(** [CheerioScraper.scrape] catches every error and returns a result;
    [PuppeteerScraper.scrape] is called under a [try], so it is
    modelled as possibly throwing. *)
Variable cheerioScraper : string -> ScrapeResult.
Variable puppeteerScraper : string -> result ScrapeResult.

(** The scrapers invoked by one call of the router, in order. *)
Definition Calls := list ScraperUsed.

Definition scrape (u : string) : ScrapeResult * Calls :=
  let cheerioResult := cheerioScraper u in
  if success cheerioResult && (3 <=? length (media cheerioResult))
  then (cheerioResult, [cheerio])
  else
    match puppeteerScraper u with
    | Ok puppeteerResult =>
        if success puppeteerResult
           && (length (media cheerioResult) <? length (media puppeteerResult))
        then (puppeteerResult, [cheerio; puppeteer])
        else (cheerioResult, [cheerio; puppeteer])
    | Throw _ => (cheerioResult, [cheerio; puppeteer])
    end.

(** The routing rule in the words of the specification: what is returned
    and whether the renderer was invoked, given the extractor's result
    [c] and the renderer's outcome [r]. *)
Inductive RouterRule (c : ScrapeResult) (r : result ScrapeResult)
  : ScrapeResult -> bool -> Prop :=
| rule_static :
    success c = true -> 3 <= length (media c) ->
    RouterRule c r c false
| rule_renderer_better p :
    ~ (success c = true /\ 3 <= length (media c)) ->
    r = Ok p -> success p = true -> length (media c) < length (media p) ->
    RouterRule c r p true
| rule_renderer_not_better p :
    ~ (success c = true /\ 3 <= length (media c)) ->
    r = Ok p -> ~ (success p = true /\ length (media c) < length (media p)) ->
    RouterRule c r c true
| rule_renderer_throws e :
    ~ (success c = true /\ 3 <= length (media c)) ->
    r = Throw e ->
    RouterRule c r c true.

Definition renderer_invoked (calls : Calls) : bool :=
  bool_decide (puppeteer ∈ calls).
End Router.
End ScraperManager.

(** ** JavaScript string operations used by the code *)

Module Js.
(** [s.startsWith(p)] *)
Definition startsWith (s p : string) : bool := String.prefix p s.

(** [s.includes(needle)] *)
Fixpoint includes (s needle : string) : bool :=
  String.prefix needle s
  || match s with
     | EmptyString => false
     | String _ s' => includes s' needle
     end.

(** [s.slice(0, n)] *)
Definition slice0 (n : nat) (s : string) : string := String.substring 0 n s.

(** [s.toLowerCase()], on the ASCII letters. *)
Definition lower_char (c : ascii) : ascii :=
  let n := nat_of_ascii c in
  if (65 <=? n) && (n <=? 90) then ascii_of_nat (n + 32) else c.
Fixpoint toLowerCase (s : string) : string :=
  match s with
  | EmptyString => EmptyString
  | String c s' => String (lower_char c) (toLowerCase s')
  end.

(** [s.split(sep)] for a one-character separator: the segments between
    the separators, at least one. *)
Fixpoint split_go (sep : ascii) (cur : string) (s : string) : list string :=
  match s with
  | EmptyString => [cur]
  | String c s' =>
      if Ascii.eqb c sep then cur :: split_go sep EmptyString s'
      else split_go sep (cur ++ String c EmptyString) s'
  end.
Definition split (sep : ascii) (s : string) : list string :=
  split_go sep EmptyString s.

(** Truthiness of an optional string: [undefined] and [""] are falsy. *)
Definition truthy (o : option string) : bool :=
  match o with
  | Some s => negb (String.eqb s "")
  | None => false
  end.

(** [a || b] on optional strings. *)
Definition or_else (a b : option string) : option string :=
  if truthy a then a else b.

(** [s.trim()], for the ASCII white space (space, tab, line feed, vertical
    tab, form feed, carriage return). *)
Definition is_space (c : ascii) : bool :=
  let n := nat_of_ascii c in (n =? 32) || ((9 <=? n) && (n <=? 13)).
Fixpoint trimStart (s : string) : string :=
  match s with
  | EmptyString => EmptyString
  | String c s' => if is_space c then trimStart s' else s
  end.
Definition trim (s : string) : string :=
  String.rev (trimStart (String.rev (trimStart s))).
End Js.

(** ** [Buffer.from(s).toString("base64")] *)

Module Base64.
Definition alphabet : string :=
  "ABCDEFGHIJKLMNOPQRSTUVWXYZabcdefghijklmnopqrstuvwxyz0123456789+/".
(** The URL-safe alphabet of RFC 4648, section 5 (Node's ["base64url"]). *)
Definition alphabet_url : string :=
  "ABCDEFGHIJKLMNOPQRSTUVWXYZabcdefghijklmnopqrstuvwxyz0123456789-_".

Definition bytes (s : string) : list N :=
  map N_of_ascii (list_ascii_of_string s).

Definition digit (alpha : string) (n : N) : ascii :=
  match String.get (N.to_nat (N.land n 63)) alpha with
  | Some c => c
  | None => "="%char
  end.

Definition quad (alpha : string) (n : N) (k : nat) (padding : string) : string :=
  string_of_list_ascii
    (take k [digit alpha (N.shiftr n 18); digit alpha (N.shiftr n 12);
             digit alpha (N.shiftr n 6); digit alpha n])
  ++ padding.

Fixpoint encode_with (alpha : string) (pad : bool) (bs : list N) : string :=
  match bs with
  | [] => ""
  | [a] =>
      quad alpha (N.shiftl a 16) 2 (if pad then "==" else "")
  | [a; b] =>
      quad alpha (N.lor (N.shiftl a 16) (N.shiftl b 8)) 3
           (if pad then "=" else "")
  | a :: b :: c :: rest =>
      quad alpha (N.lor (N.lor (N.shiftl a 16) (N.shiftl b 8)) c) 4 ""
      ++ encode_with alpha pad rest
  end.

(** Node's ["base64"]: the standard alphabet, padded. *)
Definition base64 (s : string) : string := encode_with alphabet true (bytes s).
(** RFC 4648 base64url, with or without the optional padding (Node's
    ["base64url"] writes none). *)
Definition base64url (pad : bool) (s : string) : string :=
  encode_with alphabet_url pad (bytes s).

(** [Buffer.from(s, 'base64')]: a character outside the alphabet is
    skipped, [-] and [_] are read as [+] and [/], and decoding stops at
    the first [=]. *)
Fixpoint index_of (c : ascii) (alpha : string) : option N :=
  match alpha with
  | EmptyString => None
  | String a alpha' =>
      if Ascii.eqb a c then Some 0%N
      else N.succ <$> index_of c alpha'
  end.

Definition value_of (c : ascii) : option N :=
  if Ascii.eqb c "-" then Some 62%N
  else if Ascii.eqb c "_" then Some 63%N
  else index_of c alphabet.

Fixpoint sextets (s : string) : list N :=
  match s with
  | EmptyString => []
  | String c s' =>
      if Ascii.eqb c "=" then []
      else match value_of c with
           | Some v => v :: sextets s'
           | None => sextets s'
           end
  end.

Fixpoint octets (l : list N) : list N :=
  let join a b c d :=
    N.lor (N.lor (N.shiftl a 18) (N.shiftl b 12)) (N.lor (N.shiftl c 6) d) in
  let byte n k := N.land (N.shiftr n k) 255 in
  match l with
  | a :: b :: c :: d :: rest =>
      let n := join a b c d in
      byte n 16%N :: byte n 8%N :: byte n 0%N :: octets rest
  | [a; b; c] => let n := join a b c 0%N in [byte n 16%N; byte n 8%N]
  | [a; b] => let n := join a b 0%N 0%N in [byte n 16%N]
  | _ => []
  end.

(** [buf.toString('utf-8')]: the well-formed sequences are kept and every
    maximal ill-formed part becomes U+FFFD. *)
Definition within (lo hi b : N) : bool := ((lo <=? b) && (b <=? hi))%N.
Definition replacement : list N := [239; 191; 189]%N.

Fixpoint utf8 (bs : list N) : list N :=
  match bs with
  | [] => []
  | b :: rest =>
      if (b <? 128)%N then b :: utf8 rest
      else if within 194 223 b then
        match rest with
        | c1 :: rest1 =>
            if within 128 191 c1 then b :: c1 :: utf8 rest1
            else (replacement ++ utf8 rest)%list
        | [] => replacement
        end
      else if within 224 239 b then
        match rest with
        | c1 :: rest1 =>
            if within (if (b =? 224)%N then 160 else 128)
                      (if (b =? 237)%N then 159 else 191) c1 then
              match rest1 with
              | c2 :: rest2 =>
                  if within 128 191 c2 then b :: c1 :: c2 :: utf8 rest2
                  else (replacement ++ utf8 rest1)%list
              | [] => replacement
              end
            else (replacement ++ utf8 rest)%list
        | [] => replacement
        end
      else if within 240 244 b then
        match rest with
        | c1 :: rest1 =>
            if within (if (b =? 240)%N then 144 else 128)
                      (if (b =? 244)%N then 143 else 191) c1 then
              match rest1 with
              | c2 :: rest2 =>
                  if within 128 191 c2 then
                    match rest2 with
                    | c3 :: rest3 =>
                        if within 128 191 c3
                        then b :: c1 :: c2 :: c3 :: utf8 rest3
                        else (replacement ++ utf8 rest2)%list
                    | [] => replacement
                    end
                  else (replacement ++ utf8 rest1)%list
              | [] => replacement
              end
            else (replacement ++ utf8 rest)%list
        | [] => replacement
        end
      else (replacement ++ utf8 rest)%list
  end.

Definition decode (s : string) : string :=
  string_of_list_ascii (map ascii_of_N (utf8 (octets (sextets s)))).
End Base64.

(** ** The cache service ([utils/cache.ts]) *)

(** Redis glob patterns, for the patterns the code uses: [*] matches any
    run of characters, every other character matches itself. *)
Fixpoint glob (pattern key : string) : bool :=
  match pattern with
  | EmptyString => String.eqb key ""
  | String p pattern' =>
      if Ascii.eqb p "*" then
        (fix star (k : string) : bool :=
           glob pattern' k
           || match k with
              | EmptyString => false
              | String _ k' => star k'
              end) key
      else
        match key with
        | EmptyString => false
        | String c key' => Ascii.eqb p c && glob pattern' key'
        end
  end.

Module Cache.
Section Service.
(** The type of the cached values, [T] in [get<T>] and [getOrSet<T>]. *)
Context {T : Type}.

(** The text stored under a key: the JSON text of a value, the text
    [null], the empty text, or a text [JSON.parse] rejects. *)
Inductive StoredText :=
| JsonOf (v : T)
| JsonNull
| EmptyText
| Malformed (text : string).

Definition JSON_stringify (v : T) : StoredText := JsonOf v.
Definition JSON_parse (t : StoredText) : result (option T) :=
  match t with
  | JsonOf v => Ok (Some v)
  | JsonNull => Ok None
  | EmptyText => Throw "SyntaxError: Unexpected end of JSON input"
  | Malformed _ => Throw "SyntaxError: Unexpected token"
  end.
Definition text_truthy (t : StoredText) : bool :=
  match t with EmptyText => false | _ => true end.

(** The Redis client: the stored entries with their TTL in seconds, and
    whether the server currently rejects commands (socket closed, server
    gone), in which case every command throws. *)
Record RedisClient := {
  data : gmap string (StoredText * nat);
  rejecting : bool
}.

Definition client_get (key : string) : M RedisClient (option StoredText) :=
  fun c => if rejecting c then (Throw "redis: command rejected", c)
           else (Ok (fst <$> data c !! key), c).
Definition client_setEx (key : string) (ttl : nat) (text : StoredText)
  : M RedisClient unit :=
  fun c => if rejecting c then (Throw "redis: command rejected", c)
           else (Ok tt, {| data := <[key := (text, ttl)]> (data c);
                           rejecting := rejecting c |}).
Definition client_del (keys : list string) : M RedisClient unit :=
  fun c => if rejecting c then (Throw "redis: command rejected", c)
           else (Ok tt, {| data := foldr delete (data c) keys;
                           rejecting := rejecting c |}).
Definition client_keys (pattern : string) : M RedisClient (list string) :=
  fun c => if rejecting c then (Throw "redis: command rejected", c)
           else (Ok (filter (fun k => glob pattern k = true)
                            (map fst (map_to_list (data c)))), c).

Record CacheService := {
  client : option RedisClient;
  isConnected : bool
}.

(** Run a client command on [this.client!]. *)
Definition on_client {A} (cmd : M RedisClient A) : M CacheService A :=
  fun cs => match client cs with
            | Some c =>
                let '(r, c') := cmd c in
                (r, {| client := Some c'; isConnected := isConnected cs |})
            | None => (Throw "TypeError: client is null", cs)
            end.

Definition isAvailable (cs : CacheService) : bool :=
  isConnected cs && bool_decide (is_Some (client cs)).

Definition get (key : string) : M CacheService (option T) :=
  fun cs =>
    if negb (isAvailable cs) then (Ok None, cs)
    else
      try_catch
        (let! value := on_client (client_get key) in
         match value with
         | Some text =>
             if text_truthy text
             then fun cs' => (JSON_parse text, cs')
             else ret None
         | None => ret None
         end)%js
        (fun _ => ret None) cs.

Definition set (key : string) (value : T) (ttlSeconds : nat)
  : M CacheService bool :=
  fun cs =>
    if negb (isAvailable cs) then (Ok false, cs)
    else
      try_catch
        (do! on_client (client_setEx key ttlSeconds (JSON_stringify value)) in
         ret true)%js
        (fun _ => ret false) cs.

Definition delete (key : string) : M CacheService bool :=
  fun cs =>
    if negb (isAvailable cs) then (Ok false, cs)
    else
      try_catch
        (do! on_client (client_del [key]) in ret true)%js
        (fun _ => ret false) cs.

Definition deletePattern (pattern : string) : M CacheService bool :=
  fun cs =>
    if negb (isAvailable cs) then (Ok false, cs)
    else
      try_catch
        (let! keys := on_client (client_keys pattern) in
         do! (if 0 <? length keys then on_client (client_del keys)
              else ret tt) in
         ret true)%js
        (fun _ => ret false) cs.

(** [getOrSet]: [fetchFn] acts on a state [W] of its own (the database,
    for the callers in this repository). The write is not awaited and its
    failure is swallowed by [.catch(() => {})]. *)
Definition getOrSet {W} (key : string) (fetchFn : M W T) (ttlSeconds : nat)
  : M (CacheService * W) T :=
  fun '(cs, w) =>
    match get key cs with
    | (Throw e, cs') => (Throw e, (cs', w))
    | (Ok (Some cached), cs') => (Ok cached, (cs', w))
    | (Ok None, cs') =>
        match fetchFn w with
        | (Throw e, w') => (Throw e, (cs', w'))
        | (Ok value, w') =>
            let cs'' := snd (set key value ttlSeconds cs') in
            (Ok value, (cs'', w'))
        end
    end.

Definition invalidateMediaCaches : M CacheService unit :=
  (do! deletePattern "media:*" in
   do! delete "stats:media" in
   ret tt)%js.
End Service.
Arguments StoredText : clear implicits.
Arguments RedisClient : clear implicits.
Arguments CacheService : clear implicits.

(** [CacheKeys] and [CacheTTL]. *)
Definition urlCache (u : string) : string :=
  "url:" ++ Js.slice0 100 (Base64.base64 u).
Definition ttl_urlCache : nat := 3600.
End Cache.

(** ** The relational store ([prisma/migrations], [services/*.service.ts]) *)

(** A [Date], in milliseconds; [new Date()] reads the clock, which the
    callers below receive as [now]. *)
Definition Date := nat.

Inductive JobStatus := pending | processing | completed | failed.

#[global] Instance JobStatus_eq_dec : EqDecision JobStatus.
Proof. solve_decision. Defined.

Definition terminal (s : JobStatus) : bool :=
  match s with completed | failed => true | _ => false end.

Module ScrapeJob.
Record t := {
  id : nat;
  userId : option nat;
  urls : list string;
  status : JobStatus;
  createdAt : Date;
  completedAt : option Date
}.
End ScrapeJob.

Module Media.
Record t := {
  id : nat;
  jobId : nat;
  sourceUrl : string;
  mediaUrl : string;
  type : MediaType;
  title : option string;
  createdAt : Date
}.
End Media.

Module User.
Record t := {
  id : nat;
  username : string;
  passwordHash : string;
  createdAt : Date
}.
End User.

(** The tables. [users] is keyed by the unique [username]. [statusUpdates]
    is the history of the executed
    [update scrape_jobs set status, completed_at where id] statements,
    oldest first; nothing reads it. *)
Record Database := {
  scrapeJobs : gmap nat ScrapeJob.t;
  nextJobId : nat;
  mediaRows : list Media.t;
  nextMediaId : nat;
  users : gmap string User.t;
  statusUpdates : list (nat * JobStatus * option Date)
}.

Module JobService.
Definition create (now : Date) (userId : option nat) (urls : list string)
  : M Database ScrapeJob.t :=
  fun d =>
    let job := {| ScrapeJob.id := nextJobId d; ScrapeJob.userId := userId;
                  ScrapeJob.urls := urls; ScrapeJob.status := pending;
                  ScrapeJob.createdAt := now;
                  ScrapeJob.completedAt := None |} in
    (Ok job,
     {| scrapeJobs := <[nextJobId d := job]> (scrapeJobs d);
        nextJobId := S (nextJobId d);
        mediaRows := mediaRows d; nextMediaId := nextMediaId d;
        users := users d; statusUpdates := statusUpdates d |}).

Definition findById (id : nat) : M Database (option ScrapeJob.t) :=
  fun d => (Ok (scrapeJobs d !! id), d).

(** [prisma.scrapeJob.update]: an [undefined] [completedAt] leaves the
    column as it is; a missing row makes the update throw. *)
Definition updateStatus (id : nat) (status : JobStatus)
    (completedAt : option Date) : M Database ScrapeJob.t :=
  fun d =>
    match scrapeJobs d !! id with
    | None => (Throw "Record to update not found", d)
    | Some j =>
        let j' := {| ScrapeJob.id := ScrapeJob.id j;
                     ScrapeJob.userId := ScrapeJob.userId j;
                     ScrapeJob.urls := ScrapeJob.urls j;
                     ScrapeJob.status := status;
                     ScrapeJob.createdAt := ScrapeJob.createdAt j;
                     ScrapeJob.completedAt :=
                       match completedAt with
                       | Some at_ => Some at_
                       | None => ScrapeJob.completedAt j
                       end |} in
        (Ok j',
         {| scrapeJobs := <[id := j']> (scrapeJobs d);
            nextJobId := nextJobId d;
            mediaRows := mediaRows d; nextMediaId := nextMediaId d;
            users := users d;
            statusUpdates :=
              (statusUpdates d ++ [(id, status, completedAt)])%list |})
    end.
End JobService.

Module MediaService.
(** The rows built by [createMany]; [title: item.title || null]. *)
Fixpoint rows (now : Date) (jobId : nat) (sourceUrl : string) (nextId : nat)
    (items : list ScrapedMedia) : list Media.t :=
  match items with
  | [] => []
  | item :: items' =>
      {| Media.id := nextId; Media.jobId := jobId;
         Media.sourceUrl := sourceUrl; Media.mediaUrl := mediaUrl item;
         Media.type := type item;
         Media.title := if Js.truthy (title item) then title item else None;
         Media.createdAt := now |}
      :: rows now jobId sourceUrl (S nextId) items'
  end.

(** [prisma.media.createMany] with [skipDuplicates]: a row is skipped
    when it conflicts with a unique index. The migration creates none on
    [media] besides the generated primary key, so every row is inserted;
    the foreign key on [job_id] makes the insert throw when the job is
    missing. Returns the number of rows created. *)
Definition createMany (now : Date) (jobId : nat) (sourceUrl : string)
    (mediaItems : list ScrapedMedia) : M Database nat :=
  fun d =>
    match scrapeJobs d !! jobId with
    | None => (Throw "Foreign key constraint failed", d)
    | Some _ =>
        (Ok (length mediaItems),
         {| scrapeJobs := scrapeJobs d; nextJobId := nextJobId d;
            mediaRows :=
              (mediaRows d
               ++ rows now jobId sourceUrl (nextMediaId d) mediaItems)%list;
            nextMediaId := nextMediaId d + length mediaItems;
            users := users d; statusUpdates := statusUpdates d |})
    end.
End MediaService.

(** ** The process-wide singletons *)

(** [ScrapeJobData], the payload of a queue item. *)
Record ScrapeJobData := {
  item_jobId : nat;
  item_url : string;
  item_priority : nat
}.

(** An entry of [jobCompletionTracker]. *)
Module Tracker.
Record t := { total : nat; completed : nat; failed : nat }.
End Tracker.

Record App := {
  db : Database;
  cache : Cache.CacheService (list ScrapedMedia);
  jobCompletionTracker : gmap nat Tracker.t;
  (** the waiting items of the Bull queue; [None] before [initialize] *)
  queue : option (list ScrapeJobData)
}.

Definition liftDb {A} (m : M Database A) : M App A :=
  fun app =>
    let '(r, d) := m (db app) in
    (r, {| db := d; cache := cache app;
           jobCompletionTracker := jobCompletionTracker app;
           queue := queue app |}).

Definition liftCache {A} (m : M (Cache.CacheService (list ScrapedMedia)) A)
  : M App A :=
  fun app =>
    let '(r, c) := m (cache app) in
    (r, {| db := db app; cache := c;
           jobCompletionTracker := jobCompletionTracker app;
           queue := queue app |}).

Definition modifyTracker
    (f : gmap nat Tracker.t -> gmap nat Tracker.t) : M App unit :=
  fun app =>
    (Ok tt, {| db := db app; cache := cache app;
               jobCompletionTracker := f (jobCompletionTracker app);
               queue := queue app |}).

(** ** The queue worker ([queue/scrape.queue.ts]) *)

Module ScrapeQueue.
(** [attempts: 2] in [defaultJobOptions]. *)
Definition attempts : nat := 2.

(** [config.scraper.concurrency], the first argument of [queue.process]:
    [SCRAPER_CONCURRENCY], 3 when the environment does not set it. *)
Definition concurrency : nat := 3.

(** Whether the worker finds a usable cache entry for the page: the
    condition [cachedResult && cachedResult.length > 0]. *)
Definition cacheHit (pageUrl : string) (app : App) : bool :=
  match fst (Cache.get (Cache.urlCache pageUrl) (cache app)) with
  | Ok (Some (_ :: _)) => true
  | _ => false
  end.

(** [processScrapeJob]; [scraperManager_scrape] is the router's answer
    for this run. *)
Definition processScrapeJob (scraperManager_scrape : string -> ScrapeResult)
    (now : Date) (jobId : nat) (pageUrl : string) : M App unit :=
  try_catch
    (do! liftDb (JobService.updateStatus jobId processing None) in
     let cacheKey := Cache.urlCache pageUrl in
     let! cachedResult := liftCache (Cache.get cacheKey) in
     match cachedResult with
     | Some (m :: ms) =>
         do! liftDb (MediaService.createMany now jobId pageUrl (m :: ms)) in
         ret tt
     | _ =>
         let result := scraperManager_scrape pageUrl in
         if negb (success result) then
           throw (if Js.truthy (error result)
                  then default "" (error result)
                  else "Scraping failed")
         else
           do! (if 0 <? length (media result) then
                  do! liftDb (MediaService.createMany now jobId pageUrl
                                (media result)) in
                  do! liftCache (Cache.set cacheKey (media result)
                                   Cache.ttl_urlCache) in
                  liftCache Cache.invalidateMediaCaches
                else ret tt) in
           ret tt
     end)%js
    (fun e => throw e).
End ScrapeQueue.

(** ** The queue manager ([queue/queue.manager.ts]) *)

Module QueueManager.
(** [addUrlsToQueue]: one item per URL, all with the same priority. *)
Definition addUrlsToQueue (now : Date) (jobId : nat) (urls : list string)
  : M App unit :=
  fun app =>
    match queue app with
    | None => (Throw "Queue not initialized", app)
    | Some items =>
        (Ok tt,
         {| db := db app; cache := cache app;
            jobCompletionTracker := jobCompletionTracker app;
            queue :=
              Some (items
                    ++ map (fun u => {| item_jobId := jobId; item_url := u;
                                        item_priority := now |}) urls)%list |})
    end.

(** The handler of the queue's [active] event. *)
Definition on_active (jobId : nat) : M App unit :=
  fun app =>
    match jobCompletionTracker app !! jobId with
    | Some _ => (Ok tt, app)
    | None =>
        (let! dbJob := liftDb (JobService.findById jobId) in
         match dbJob with
         | Some j =>
             modifyTracker
               (insert jobId {| Tracker.total := length (ScrapeJob.urls j);
                                Tracker.completed := 0;
                                Tracker.failed := 0 |})
         | None => ret tt
         end)%js app
    end.

(** The handler of the queue's [completed] event. *)
Definition on_completed (now : Date) (jobId : nat) : M App unit :=
  fun app =>
    match jobCompletionTracker app !! jobId with
    | Some tracker =>
        let tracker := {| Tracker.total := Tracker.total tracker;
                          Tracker.completed := S (Tracker.completed tracker);
                          Tracker.failed := Tracker.failed tracker |} in
        (do! modifyTracker (insert jobId tracker) in
         if Tracker.total tracker
              <=? Tracker.completed tracker + Tracker.failed tracker then
           do! liftDb (JobService.updateStatus jobId completed
                         (Some now)) in
           modifyTracker (delete jobId)
         else ret tt)%js app
    | None => (Ok tt, app)
    end.

(** The handler of the queue's [failed] event. Bull emits it after every
    failed attempt of an item, the ones that will be retried included. *)
Definition on_failed (now : Date) (jobId : nat) : M App unit :=
  fun app =>
    match jobCompletionTracker app !! jobId with
    | Some tracker =>
        let tracker := {| Tracker.total := Tracker.total tracker;
                          Tracker.completed := Tracker.completed tracker;
                          Tracker.failed := S (Tracker.failed tracker) |} in
        (do! modifyTracker (insert jobId tracker) in
         if Tracker.total tracker
              <=? Tracker.completed tracker + Tracker.failed tracker then
           let status := if Tracker.failed tracker =? Tracker.total tracker
                         then failed else completed in
           do! liftDb (JobService.updateStatus jobId status (Some now)) in
           modifyTracker (delete jobId)
         else ret tt)%js app
    | None => (Ok tt, app)
    end.

(** The two outcome events of an item, and the handler registered for
    each with [queue.on]. *)
Inductive Outcome := item_completed | item_failed.

Definition on_outcome (o : Outcome) : Date -> nat -> M App unit :=
  match o with
  | item_completed => on_completed
  | item_failed => on_failed
  end.

(** The tracker entry after the handler's [++]. *)
Definition counted (o : Outcome) (t : Tracker.t) : Tracker.t :=
  match o with
  | item_completed =>
      {| Tracker.total := Tracker.total t;
         Tracker.completed := S (Tracker.completed t);
         Tracker.failed := Tracker.failed t |}
  | item_failed =>
      {| Tracker.total := Tracker.total t;
         Tracker.completed := Tracker.completed t;
         Tracker.failed := S (Tracker.failed t) |}
  end.
End QueueManager.

(** ** Bull's processing of queue items *)

Module Bull.
(** One attempt of an item when nothing else runs in between: Bull emits
    [active] and the handler finishes, the processor runs, then Bull emits
    [completed] when the processor returned and [failed] when it threw,
    and that handler finishes. An error thrown by an event handler is not
    observed by the queue. The handlers and the processor give up control
    at each [await]; [EventLoop] below has them step by step. *)
Definition attempt (scraperManager_scrape : string -> ScrapeResult)
    (now : Date) (jobId : nat) (pageUrl : string) (app : App) : App :=
  let app1 := snd (QueueManager.on_active jobId app) in
  let '(outcome, app2) :=
    ScrapeQueue.processScrapeJob scraperManager_scrape now jobId pageUrl app1 in
  match outcome with
  | Ok _ => snd (QueueManager.on_completed now jobId app2)
  | Throw _ => snd (QueueManager.on_failed now jobId app2)
  end.

(** An attempt of a run of the worker: its item and the router's
    behaviour at that time. *)
Record Attempt := {
  at_time : Date;
  at_jobId : nat;
  at_url : string;
  at_router : string -> ScrapeResult
}.

(** The run in which the attempts are made one at a time, each started
    when the handlers of the one before have finished. It is one of the
    runs of the worker, for every setting of its concurrency; the runs in
    which attempts overlap are those of [EventLoop.step]. *)
Definition run (attempts : list Attempt) (app : App) : App :=
  foldl (fun a x => attempt (at_router x) (at_time x) (at_jobId x) (at_url x) a)
        app attempts.

(** Whether the processor returns normally in an attempt made in [app],
    and the outcomes of the attempts of a run, in order. *)
Definition processor_ok (x : Attempt) (app : App) : bool :=
  match fst (ScrapeQueue.processScrapeJob (at_router x) (at_time x)
               (at_jobId x) (at_url x)
               (snd (QueueManager.on_active (at_jobId x) app))) with
  | Ok _ => true
  | Throw _ => false
  end.
Fixpoint outcomes (attempts : list Attempt) (app : App) : list bool :=
  match attempts with
  | [] => []
  | x :: rest =>
      processor_ok x app
      :: outcomes rest
           (attempt (at_router x) (at_time x) (at_jobId x) (at_url x) app)
  end.
End Bull.

(** ** The worker on the event loop

    [queue.process(config.scraper.concurrency, processScrapeJob)] runs
    several attempts at once, and the handlers of [queue.on] are [async]
    functions: each runs up to its next [await], then other handlers and
    processors may run before it resumes. *)

Module EventLoop.
(** An [async] function of the repository as the event loop sees it: what
    it does between two awaits is one step on the shared state; [Await op
    k] is the step [op] followed, later, by [k]. *)
Inductive Async (A : Type) : Type :=
| Return (r : result A)
| Await {B : Type} (op : M App B) (k : result B -> Async A).
Arguments Return {A} r.
Arguments Await {A B} op k.

(** All the steps of a function with nothing in between. *)
Fixpoint run_all {A} (a : Async A) : M App A :=
  match a with
  | Return r => fun app => (r, app)
  | Await op k => fun app => let '(r, app') := op app in run_all (k r) app'
  end.

Definition await {B} (op : M App B) : Async B := Await op Return.

Fixpoint abind {A B} (a : Async A) (f : A -> Async B) : Async B :=
  match a with
  | Return (Ok x) => f x
  | Return (Throw e) => Return (Throw e)
  | Await op k => Await op (fun r => abind (k r) f)
  end.

Fixpoint acatch {A} (a : Async A) (h : string -> Async A) : Async A :=
  match a with
  | Return (Ok x) => Return (Ok x)
  | Return (Throw e) => h e
  | Await op k => Await op (fun r => acatch (k r) h)
  end.

Declare Scope async_scope.
Delimit Scope async_scope with async.
Notation "'let!' x ':=' m 'in' k" := (abind m (fun x => k))
  (at level 10, x name, m at level 100, k at level 200) : async_scope.
Notation "'do!' m 'in' k" := (abind m (fun _ => k))
  (at level 10, m at level 100, k at level 200) : async_scope.

(** [deletePattern]: the command [KEYS], then the command [DEL]. *)
Definition deletePattern (pattern : string) : Async bool :=
  Await (fun app => (Ok (Cache.isAvailable (cache app)), app))
    (fun available =>
       match available with
       | Ok true =>
           acatch
             (let! keys := await (liftCache
                                    (Cache.on_client
                                       (Cache.client_keys pattern))) in
              do! (if 0 <? length keys
                   then await (liftCache
                                 (Cache.on_client (Cache.client_del keys)))
                   else Return (Ok tt)) in
              Return (Ok true))%async
             (fun _ => Return (Ok false))
       | _ => Return (Ok false)
       end).

Definition invalidateMediaCaches : Async unit :=
  (do! deletePattern "media:*" in
   do! await (liftCache (Cache.delete "stats:media")) in
   Return (Ok tt))%async.

(** [processScrapeJob], one step for each call that it awaits. *)
Definition processScrapeJob (scraperManager_scrape : string -> ScrapeResult)
    (now : Date) (jobId : nat) (pageUrl : string) : Async unit :=
  acatch
    (do! await (liftDb (JobService.updateStatus jobId processing None)) in
     let cacheKey := Cache.urlCache pageUrl in
     let! cachedResult := await (liftCache (Cache.get cacheKey)) in
     match cachedResult with
     | Some (m :: ms) =>
         do! await (liftDb (MediaService.createMany now jobId pageUrl
                              (m :: ms))) in
         Return (Ok tt)
     | _ =>
         let! result := await (ret (scraperManager_scrape pageUrl)) in
         if negb (success result) then
           Return (Throw (if Js.truthy (error result)
                          then default "" (error result)
                          else "Scraping failed"))
         else
           do! (if 0 <? length (media result) then
                  do! await (liftDb (MediaService.createMany now jobId pageUrl
                                       (media result))) in
                  do! await (liftCache (Cache.set cacheKey (media result)
                                          Cache.ttl_urlCache)) in
                  invalidateMediaCaches
                else Return (Ok tt)) in
           Return (Ok tt)
     end)%async
    (fun e => Return (Throw e)).

(** The handler of [active]: the test [has], then [findById], then
    [set]. *)
Definition on_active (jobId : nat) : Async unit :=
  Await (fun app => (Ok (bool_decide
                           (is_Some (jobCompletionTracker app !! jobId))),
                     app))
    (fun has =>
       match has with
       | Ok false =>
           (let! dbJob := await (liftDb (JobService.findById jobId)) in
            match dbJob with
            | Some j =>
                await (modifyTracker
                         (insert jobId
                            {| Tracker.total := length (ScrapeJob.urls j);
                               Tracker.completed := 0;
                               Tracker.failed := 0 |}))
            | None => Return (Ok tt)
            end)%async
       | _ => Return (Ok tt)
       end).

(** The status a handler writes when its count has reached the total:
    [completed] in the handler of [completed], and
    [tracker.failed === tracker.total ? "failed" : "completed"] in the
    handler of [failed]. *)
Definition status_written (o : QueueManager.Outcome) (tracker : Tracker.t)
  : JobStatus :=
  match o with
  | QueueManager.item_completed => completed
  | QueueManager.item_failed =>
      if Tracker.failed tracker =? Tracker.total tracker
      then failed else completed
  end.

(** The handlers of [completed] and [failed]: [get], the increment and
    the test in one step; then, on the last outcome, [updateStatus] and,
    when it has returned, [delete]. *)
Definition on_outcome (o : QueueManager.Outcome) (now : Date) (jobId : nat)
  : Async unit :=
  Await (fun app =>
           match jobCompletionTracker app !! jobId with
           | Some tracker =>
               (Ok (Some (QueueManager.counted o tracker)),
                snd (modifyTracker
                       (insert jobId (QueueManager.counted o tracker)) app))
           | None => (Ok None, app)
           end)
    (fun counted =>
       match counted with
       | Ok (Some tracker) =>
           if Tracker.total tracker
                <=? Tracker.completed tracker + Tracker.failed tracker then
             let status := status_written o tracker in
             (do! await (liftDb (JobService.updateStatus jobId status
                                   (Some now))) in
              await (modifyTracker (delete jobId)))%async
           else Return (Ok tt)
       | _ => Return (Ok tt)
       end).

(** What is in flight: event handlers, and processors with the attempt
    they work on. *)
Inductive Thread :=
| handler (a : Async unit)
| worker (x : Bull.Attempt) (a : Async unit).

Definition is_worker (t : Thread) : bool :=
  match t with worker _ _ => true | handler _ => false end.

Definition outcome_of (r : result unit) : QueueManager.Outcome :=
  match r with
  | Ok _ => QueueManager.item_completed
  | Throw _ => QueueManager.item_failed
  end.

(** The shared state, the attempts Bull has still to start, in order, and
    what is in flight. *)
Record Config := {
  state : App;
  waiting : list Bull.Attempt;
  threads : list Thread
}.

(** One step of the worker: Bull starts the next attempt while fewer than
    [concurrency] processors run, emitting [active]; a handler or a
    processor makes its next step; a handler ends; a processor ends and
    Bull emits [completed] or [failed]. *)
Inductive step (concurrency : nat) : Config -> Config -> Prop :=
| step_start app x rest ts :
    length (filter (fun t => is_worker t = true) ts) < concurrency ->
    step concurrency
      {| state := app; waiting := x :: rest; threads := ts |}
      {| state := app; waiting := rest;
         threads :=
           ts ++ [handler (on_active (Bull.at_jobId x));
                  worker x (processScrapeJob (Bull.at_router x)
                              (Bull.at_time x) (Bull.at_jobId x)
                              (Bull.at_url x))] |}
| step_handler app w ts1 ts2 B (op : M App B) k :
    step concurrency
      {| state := app; waiting := w;
         threads := ts1 ++ handler (Await op k) :: ts2 |}
      {| state := snd (op app); waiting := w;
         threads := ts1 ++ handler (k (fst (op app))) :: ts2 |}
| step_handler_end app w ts1 ts2 r :
    step concurrency
      {| state := app; waiting := w;
         threads := ts1 ++ handler (Return r) :: ts2 |}
      {| state := app; waiting := w; threads := ts1 ++ ts2 |}
| step_worker app w ts1 ts2 x B (op : M App B) k :
    step concurrency
      {| state := app; waiting := w;
         threads := ts1 ++ worker x (Await op k) :: ts2 |}
      {| state := snd (op app); waiting := w;
         threads := ts1 ++ worker x (k (fst (op app))) :: ts2 |}
| step_worker_end app w ts1 ts2 x r :
    step concurrency
      {| state := app; waiting := w;
         threads := ts1 ++ worker x (Return r) :: ts2 |}
      {| state := app; waiting := w;
         threads :=
           ts1 ++ handler (on_outcome (outcome_of r) (Bull.at_time x)
                             (Bull.at_jobId x)) :: ts2 |}.

(** A run of the worker on [attempts] from [app] to [app']: every attempt
    has been started and nothing is in flight any more. *)
Definition reaches (concurrency : nat) (attempts : list Bull.Attempt)
    (app app' : App) : Prop :=
  rtc (step concurrency)
    {| state := app; waiting := attempts; threads := [] |}
    {| state := app'; waiting := []; threads := [] |}.

(** What an [active] handler that found no entry does when it resumes:
    [findById], then [set] of a fresh entry, whatever has been counted in
    the meantime. *)
Definition on_active_resumed (jobId : nat) : Async unit :=
  (let! dbJob := await (liftDb (JobService.findById jobId)) in
   match dbJob with
   | Some j =>
       await (modifyTracker
                (insert jobId
                   {| Tracker.total := length (ScrapeJob.urls j);
                      Tracker.completed := 0;
                      Tracker.failed := 0 |}))
   | None => Return (Ok tt)
   end)%async.
End EventLoop.

(** ** The submission route ([routes/scrape.routes.ts], [POST /api/scrape]) *)

Module ScrapeRoutes.
(** A JavaScript [Set] of strings keeps its elements in insertion order;
    [add] of an element already present changes nothing. *)
Definition Set_add (s : list string) (x : string) : list string :=
  if bool_decide (x ∈ s) then s else (s ++ [x])%list.
(** [[...new Set(urls)]] *)
Definition spread_Set (urls : list string) : list string :=
  foldl Set_add [] urls.

Record Response := {
  http_status : nat;
  job_id : nat;
  status : JobStatus;
  total_urls : nat;
  duplicates_removed : nat;
  created_at : Date
}.

(** The handler of [POST /api/scrape], after [basicAuth] (which sets
    [user]) and [validate(schemas.scrapeRequest)]. The promise of
    [addUrlsToQueue] is not awaited. *)
Definition post_scrape (now : Date) (user : option (nat * string))
    (urls : list string) : M App Response :=
  let uniqueUrls := spread_Set urls in
  let duplicatesRemoved := length urls - length uniqueUrls in
  let userId := match user with
                | Some (uid, _) => if uid =? 0 then None else Some uid
                | None => None
                end in
  (let! job := liftDb (JobService.create now userId uniqueUrls) in
   do! try_catch
         (QueueManager.addUrlsToQueue now (ScrapeJob.id job) uniqueUrls)
         (fun _ => ret tt) in
   ret {| http_status := 201;
          job_id := ScrapeJob.id job;
          status := ScrapeJob.status job;
          total_urls := length uniqueUrls;
          duplicates_removed := duplicatesRemoved;
          created_at := ScrapeJob.createdAt job |})%js.

(** [schemas.scrapeRequest], the bounds on the number of URLs. *)
Definition count_ok (urls : list string) : bool :=
  (1 <=? length urls) && (length urls <=? 100).

(** De-duplication in the words of the specification: keep the first
    occurrence of every URL, in order. *)
Fixpoint keep_first (urls : list string) : list string :=
  match urls with
  | [] => []
  | u :: rest => u :: filter (fun v => v ≠ u) (keep_first rest)
  end.
End ScrapeRoutes.

(** ** The HTML extractor's URL handling ([scrapers/cheerio.scraper.ts]) *)

Module CheerioScraper.
(** The fields of a WHATWG [URL] object the extractor reads. *)
Record URL := {
  protocol : string;
  host : string;
  hostname : string;
  pathname : string;
  href : string
}.

Definition blockedDomains : list string :=
  ["google-analytics.com"; "doubleclick.net"; "facebook.com/tr"].

Section Extractor.
(** [new URL(input)] and [new URL(input, base)] of Node's [url] module. *)
Variable URL_new : string -> option string -> result URL.

Definition makeAbsoluteUrl (relativeUrl baseUrl : string) : option string :=
  if Js.startsWith relativeUrl "http://" || Js.startsWith relativeUrl "https://"
  then Some relativeUrl
  else if Js.startsWith relativeUrl "//" then
    match URL_new baseUrl None with
    | Ok baseUrlObj => Some (protocol baseUrlObj ++ relativeUrl)
    | Throw _ => None
    end
  else
    match URL_new relativeUrl (Some baseUrl) with
    | Ok u => Some (href u)
    | Throw _ => None
    end.

Definition isValidMediaUrl (u : string) : bool :=
  match URL_new u None with
  | Ok urlObj =>
      if String.eqb (protocol urlObj) "data:" then false
      else if existsb (fun domain => Js.includes (hostname urlObj) domain)
                      blockedDomains then false
      else
        let pathname := Js.toLowerCase (pathname urlObj) in
        if Js.includes pathname "1x1" || Js.includes pathname "pixel"
        then false
        else true
  | Throw _ => false
  end.

(** What the extractor does with an attribute value [src] found on the
    page [pageUrl]: resolve, then filter. *)
Definition candidate (src pageUrl : string) : option string :=
  match makeAbsoluteUrl src pageUrl with
  | Some absoluteUrl =>
      if isValidMediaUrl absoluteUrl then Some absoluteUrl else None
  | None => None
  end.
End Extractor.
End CheerioScraper.

(** Node's [URL] for the examples below, after the WHATWG URL standard:
    the scheme, the authority of a special scheme ([http], [https], [ws],
    [wss], [ftp]) with its host in lower case, its default port dropped
    and an empty or ill-formed host refused, the opaque host of another
    scheme, dot segments resolved, opaque paths, and relative references
    against a base. Not covered: percent-encoding and -decoding,
    non-ASCII and numeric (IPv4, IPv6) hosts, and [file:] URLs. *)
Module Whatwg.
Import CheerioScraper.

Definition is_alpha (c : ascii) : bool :=
  let n := nat_of_ascii (Js.lower_char c) in (97 <=? n) && (n <=? 122).
Definition is_digit (c : ascii) : bool :=
  let n := nat_of_ascii c in (48 <=? n) && (n <=? 57).
Definition is_scheme_char (c : ascii) : bool :=
  is_alpha c || is_digit c
  || Ascii.eqb c "+" || Ascii.eqb c "-" || Ascii.eqb c ".".

Fixpoint scan_scheme (acc s : string) : option (string * string) :=
  match s with
  | EmptyString => None
  | String c s' =>
      if Ascii.eqb c ":" then
        if String.eqb acc "" then None else Some (acc, s')
      else if (if String.eqb acc "" then is_alpha c else is_scheme_char c)
      then scan_scheme (acc ++ String c EmptyString) s'
      else None
  end.

(** The longest prefix without a character of [stops], and the rest. *)
Fixpoint break (stops : list ascii) (s : string) : string * string :=
  match s with
  | EmptyString => (EmptyString, EmptyString)
  | String c s' =>
      if existsb (Ascii.eqb c) stops then (EmptyString, s)
      else let '(a, b) := break stops s' in (String c a, b)
  end.

Definition after_last (sep : ascii) (s : string) : string :=
  List.last (Js.split sep s) "".

(** The input without leading and trailing C0 controls and spaces, and
    without tabs and newlines. *)
Definition is_c0_or_space (c : ascii) : bool := nat_of_ascii c <=? 32.
Definition is_tab_or_newline (c : ascii) : bool :=
  let n := nat_of_ascii c in (n =? 9) || (n =? 10) || (n =? 13).
Fixpoint drop_while (f : ascii -> bool) (s : string) : string :=
  match s with
  | EmptyString => EmptyString
  | String c s' => if f c then drop_while f s' else s
  end.
Fixpoint remove (f : ascii -> bool) (s : string) : string :=
  match s with
  | EmptyString => EmptyString
  | String c s' => if f c then remove f s' else String c (remove f s')
  end.
Definition strip (s : string) : string :=
  remove is_tab_or_newline
    (String.rev (drop_while is_c0_or_space
                   (String.rev (drop_while is_c0_or_space s)))).

Definition default_port (scheme : string) : option N :=
  if String.eqb scheme "http" || String.eqb scheme "ws" then Some 80%N
  else if String.eqb scheme "https" || String.eqb scheme "wss" then Some 443%N
  else if String.eqb scheme "ftp" then Some 21%N
  else None.
Definition is_special (scheme : string) : bool :=
  match default_port scheme with Some _ => true | None => false end.

(** In a special URL a backslash is read as a slash, up to the query. *)
Fixpoint slashes (s : string) : string :=
  match s with
  | EmptyString => EmptyString
  | String c s' =>
      if Ascii.eqb c "?" || Ascii.eqb c "#" then s
      else String (if Ascii.eqb c "\" then "/"%char else c) (slashes s')
  end.

Definition forbidden_host_char (special : bool) (c : ascii) : bool :=
  let n := nat_of_ascii c in
  (n <=? 32) || (n =? 127)
  || existsb (Ascii.eqb c)
       (list_ascii_of_string "#/:<>?@[\]^|")
  || (special && (Ascii.eqb c (ascii_of_nat 34)
                  || existsb (Ascii.eqb c) (list_ascii_of_string "`{}"))).

Definition digits_value (s : string) : N :=
  fold_left (fun acc c => (10 * acc + (N_of_ascii c - 48))%N)
            (list_ascii_of_string s) 0%N.

(** The parts of a URL record. *)
Record Parts := {
  scheme : string;
  authority : option (string * string * option N);
  path : string;
  opaque : bool;
  query : string;
  fragment : string
}.

(** The authority [userinfo@host:port]: the user information with its
    [@], the host and the port when it is not the default one. *)
Definition parse_authority (sch text : string)
  : option (string * string * option N) :=
  let special := is_special sch in
  let hostport := after_last "@" text in
  let userinfo :=
    String.substring 0 (String.length text - String.length hostport) text in
  let '(name, port) := break [":"%char] hostport in
  let name := if special then Js.toLowerCase name else name in
  let digits := String.substring 1 (String.length port) port in
  if (special && String.eqb name "")
     || existsb (forbidden_host_char special) (list_ascii_of_string name)
     || negb (forallb is_digit (list_ascii_of_string digits))
     || (5 <? String.length (drop_while (Ascii.eqb "0") digits))
     || (65535 <? digits_value digits)%N
  then None
  else
    let number :=
      if String.eqb digits "" then None
      else if bool_decide (default_port sch = Some (digits_value digits))
           then None
           else Some (digits_value digits) in
    Some (userinfo, name, number).

Definition is_single_dot (seg : string) : bool :=
  let seg := Js.toLowerCase seg in String.eqb seg "." || String.eqb seg "%2e".
Definition is_double_dot (seg : string) : bool :=
  let seg := Js.toLowerCase seg in
  String.eqb seg ".." || String.eqb seg ".%2e" || String.eqb seg "%2e."
  || String.eqb seg "%2e%2e".

(** The segments of a path with [.] and [..] resolved; [acc] holds the
    segments kept so far, last first. *)
Fixpoint resolve (acc segs : list string) : list string :=
  match segs with
  | [] => rev acc
  | seg :: rest =>
      let acc' := if is_double_dot seg then tail acc
                  else if is_single_dot seg then acc
                  else seg :: acc in
      match rest with
      | [] => if is_double_dot seg || is_single_dot seg
              then rev ("" :: acc') else rev acc'
      | _ => resolve acc' rest
      end
  end.

(** A path that starts with a slash, with its dot segments resolved. *)
Definition normalize (p : string) : string :=
  "/" ++ String.concat "/"
           (resolve [] (Js.split "/" (String.substring 1 (String.length p) p))).

Definition split_tail (tail : string) : string * string * string :=
  let '(p, rest) := break ["?"; "#"]%char tail in
  let '(q, f) := break ["#"%char] rest in
  (p, q, f).

Definition parse_parts (input : string) : option Parts :=
  match scan_scheme "" input with
  | None => None
  | Some (sch, rest) =>
      let sch := Js.toLowerCase sch in
      if is_special sch then
        let rest := slashes rest in
        let '(auth, tail) :=
          break ["/"; "?"; "#"]%char (drop_while (Ascii.eqb "/") rest) in
        let '(p, q, f) := split_tail tail in
        match parse_authority sch auth with
        | None => None
        | Some a =>
            Some {| scheme := sch; authority := Some a;
                    path := normalize (if String.eqb p "" then "/" else p);
                    opaque := false; query := q; fragment := f |}
        end
      else if Js.startsWith rest "//" then
        let '(auth, tail) :=
          break ["/"; "?"; "#"]%char
                (String.substring 2 (String.length rest) rest) in
        let '(p, q, f) := split_tail tail in
        match parse_authority sch auth with
        | None => None
        | Some a =>
            Some {| scheme := sch; authority := Some a;
                    path := if String.eqb p "" then "" else normalize p;
                    opaque := false; query := q; fragment := f |}
        end
      else
        let '(p, q, f) := split_tail rest in
        if Js.startsWith p "/" then
          Some {| scheme := sch; authority := None; path := normalize p;
                  opaque := false; query := q; fragment := f |}
        else
          Some {| scheme := sch; authority := None; path := p;
                  opaque := true; query := q; fragment := f |}
  end.

Definition host_of (u : Parts) : string * string :=
  match authority u with
  | Some (_, name, Some port) => (name ++ ":" ++ pretty port, name)
  | Some (_, name, None) => (name, name)
  | None => ("", "")
  end.

Definition prefix_of (u : Parts) : string :=
  scheme u ++ ":"
  ++ match authority u with
     | Some (userinfo, _, _) => "//" ++ userinfo ++ fst (host_of u)
     | None => ""
     end.

Definition to_URL (u : Parts) : URL :=
  {| protocol := scheme u ++ ":";
     host := fst (host_of u);
     hostname := snd (host_of u);
     pathname := path u;
     href := prefix_of u ++ path u ++ query u ++ fragment u |}.

Definition parse (input : string) : result URL :=
  match parse_parts (strip input) with
  | Some u => Ok (to_URL u)
  | None => Throw "TypeError: Invalid URL"
  end.

(** The directory of a path: everything up to the last [/]. *)
Fixpoint dirname (path : string) : string :=
  match path with
  | EmptyString => EmptyString
  | String c path' =>
      if Js.includes path' "/" then String c (dirname path')
      else if Ascii.eqb c "/" then "/" else EmptyString
  end.

(** [new URL(input)] and [new URL(input, base)]: an input without a
    scheme is a reference relative to the base. *)
Definition URL_new (input : string) (base : option string) : result URL :=
  let input := strip input in
  match parse_parts input, base with
  | Some u, _ => Ok (to_URL u)
  | None, None => Throw "TypeError: Invalid URL"
  | None, Some b =>
      match parse_parts (strip b) with
      | None => Throw "TypeError: Invalid base URL"
      | Some bu =>
          let input := if is_special (scheme bu) then slashes input
                       else input in
          if opaque bu && negb (Js.startsWith input "#") then
            Throw "TypeError: Invalid URL"
          else if String.eqb input "" then
            parse (prefix_of bu ++ path bu ++ query bu)
          else if Js.startsWith input "//" then
            parse (scheme bu ++ ":" ++ input)
          else if Js.startsWith input "/" then
            parse (prefix_of bu ++ input)
          else if Js.startsWith input "?" then
            parse (prefix_of bu ++ path bu ++ input)
          else if Js.startsWith input "#" then
            parse (prefix_of bu ++ path bu ++ query bu ++ input)
          else
            parse (prefix_of bu ++ dirname (path bu) ++ input)
      end
  end.
End Whatwg.

(** ** Users and the Basic-Auth middleware
       ([services/user.service.ts], [middleware/auth.middleware.ts]) *)

Module UserService.
Section Bcrypt.
(** [bcrypt.compare(password, hash)] *)
Variable bcrypt_compare : string -> string -> bool.

Definition findByUsername (username : string) (d : Database)
  : option User.t := users d !! username.

Definition verifyPassword (username password : string) (d : Database)
  : bool :=
  match findByUsername username d with
  | None => false
  | Some user => bcrypt_compare password (User.passwordHash user)
  end.

Definition authenticate (username password : string) (d : Database)
  : option User.t :=
  if verifyPassword username password d
  then findByUsername username d
  else None.
End Bcrypt.
End UserService.

Module AuthMiddleware.
(** What the middleware does with the request: pass it on with
    [req.user] set, or answer it. *)
Inductive Outcome :=
| Next (userId : nat) (username : string)
| Respond (status : nat) (message : string).

Section BasicAuth.
(** [Buffer.from(s, 'base64').toString('utf-8')] *)
Variable Buffer_from_base64 : string -> string.
Variable bcrypt_compare : string -> string -> bool.

(** The two names bound by [const [username, password] =
    credentials.split(':')]; [None] is [undefined]. *)
Definition credentials_of (credentials : string)
  : option string * option string :=
  let parts := Js.split ":" credentials in
  (parts !! 0, parts !! 1).

Definition basicAuth (authorization : option string) (d : Database)
  : Outcome :=
  match authorization with
  | None => Respond 401 "Missing or invalid Authorization header"
  | Some authHeader =>
      if negb (Js.startsWith authHeader "Basic ") then
        Respond 401 "Missing or invalid Authorization header"
      else
        let base64Credentials := default "" (Js.split " " authHeader !! 1) in
        let credentials := Buffer_from_base64 base64Credentials in
        let '(username, password) := credentials_of credentials in
        if negb (Js.truthy username) || negb (Js.truthy password) then
          Respond 401 "Invalid credentials format"
        else
          match UserService.authenticate bcrypt_compare
                  (default "" username) (default "" password) d with
          | None => Respond 401 "Invalid username or password"
          | Some user => Next (User.id user) (User.username user)
          end
  end.

(** [optionalAuth]: the request always goes on; [req.user] is set when
    the header carries credentials that authenticate. *)
Definition optionalAuth (authorization : option string) (d : Database)
  : option (nat * string) :=
  match authorization with
  | None => None
  | Some authHeader =>
      if negb (Js.startsWith authHeader "Basic ") then None
      else
        let base64Credentials := default "" (Js.split " " authHeader !! 1) in
        let credentials := Buffer_from_base64 base64Credentials in
        let '(username, password) := credentials_of credentials in
        if Js.truthy username && Js.truthy password then
          match UserService.authenticate bcrypt_compare
                  (default "" username) (default "" password) d with
          | Some user => Some (User.id user, User.username user)
          | None => None
          end
        else None
  end.
End BasicAuth.
End AuthMiddleware.

(** ** The authentication routes ([routes/auth.routes.ts]) *)

Module AuthRoutes.
Inductive Reply :=
| Success (id : nat) (username : string) (createdAt : Date)
| Unauthorized (error : string).

Section Routes.
Variable Buffer_from_base64 : string -> string.
Variable bcrypt_compare : string -> string -> bool.

(** The handler of [POST /api/auth/login], after
    [validate(schemas.loginRequest)]. *)
Definition login (username password : string) (d : Database) : Reply :=
  match UserService.authenticate bcrypt_compare username password d with
  | None => Unauthorized "Invalid username or password"
  | Some user =>
      Success (User.id user) (User.username user) (User.createdAt user)
  end.

(** The handler of [GET /api/auth/me]; the route has no [basicAuth]
    middleware in front of it. *)
Definition me (authorization : option string) (d : Database) : Reply :=
  match authorization with
  | None => Unauthorized "Authentication required"
  | Some authHeader =>
      if negb (Js.startsWith authHeader "Basic ") then
        Unauthorized "Authentication required"
      else
        let base64Credentials := default "" (Js.split " " authHeader !! 1) in
        let credentials := Buffer_from_base64 base64Credentials in
        let username := default "" (Js.split ":" credentials !! 0) in
        match UserService.findByUsername username d with
        | None => Unauthorized "User not found"
        | Some user =>
            Success (User.id user) (User.username user) (User.createdAt user)
        end
  end.
End Routes.
End AuthRoutes.

(** ** The web client's request interceptor ([frontend/src/lib/api.ts]) *)

Module ApiClient.
(** The code units of a string when they are all at most U+00FF. In the
    UTF-8 text of a string these are the bytes below 128 and the pairs
    [C2 xx] and [C3 xx]; every other sequence encodes a code unit above
    U+00FF. *)
Fixpoint latin1 (s : string) : option (list N) :=
  match s with
  | EmptyString => Some []
  | String c s' =>
      let n := N_of_ascii c in
      if (n <? 128)%N then cons n <$> latin1 s'
      else
        match s' with
        | EmptyString => None
        | String c2 s'' =>
            let m := N_of_ascii c2 in
            if ((n =? 194) || (n =? 195))%N && (128 <=? m)%N && (m <? 192)%N
            then cons (if (n =? 194)%N then m else (m + 64)%N) <$> latin1 s''
            else None
        end
  end.

(** [btoa]: the base64 text of the code units taken as bytes; it throws
    when a code unit is above U+00FF. *)
Definition btoa (s : string) : result string :=
  match latin1 s with
  | Some codeUnits => Ok (Base64.encode_with Base64.alphabet true codeUnits)
  | None => Throw "InvalidCharacterError"
  end.

(** The request interceptor: the [Authorization] header it adds, none
    when a credential is missing or empty; when [btoa] throws, the
    interceptor throws and the request is not sent. *)
Definition authorization (username password : option string)
  : result (option string) :=
  if Js.truthy username && Js.truthy password then
    match btoa (default "" username ++ ":" ++ default "" password) with
    | Ok credentials => Ok (Some ("Basic " ++ credentials))
    | Throw e => Throw e
    end
  else Ok None.

(** Whether a string holds ASCII characters only. *)
Definition is_ascii (s : string) : bool :=
  forallb (fun b => (b <? 128)%N) (Base64.bytes s).
End ApiClient.

(** What a cache read yields, case by case: the stored value when the
    service is connected, the server answers and the entry holds the JSON
    text of a value; [null] otherwise. *)
Definition read_value {T} (key : string) (cs : Cache.CacheService T)
  : option T :=
  match Cache.client cs with
  | Some c =>
      if Cache.isConnected cs && negb (Cache.rejecting c) then
        match Cache.data c !! key with
        | Some (Cache.JsonOf v, _) => Some v
        | _ => None
        end
      else None
  | None => None
  end.

(** The bound on a tracker entry, and on all of them. *)
Definition within_total (t : Tracker.t) : Prop :=
  Tracker.completed t + Tracker.failed t <= Tracker.total t.
Definition trackers_within_total (app : App) : Prop :=
  forall jobId t, jobCompletionTracker app !! jobId = Some t -> within_total t.

Definition tracked_jobs_exist (app : App) : Prop :=
  forall jobId t, jobCompletionTracker app !! jobId = Some t ->
                  is_Some (scrapeJobs (db app) !! jobId).
Definition tracker_invariant (app : App) : Prop :=
  trackers_within_total app /\ tracked_jobs_exist app.

(** A database operation that deletes no job, and a computation that
    leaves the tracker map alone and deletes no job. *)
Definition keeps_jobs {A} (m : M Database A) : Prop :=
  forall d id, is_Some (scrapeJobs d !! id) ->
               is_Some (scrapeJobs (snd (m d)) !! id).
Definition steady {A} (m : M App A) : Prop :=
  forall app,
    jobCompletionTracker (snd (m app)) = jobCompletionTracker app
    /\ forall id, is_Some (scrapeJobs (db app) !! id) ->
                  is_Some (scrapeJobs (db (snd (m app))) !! id).

(** A computation that changes neither the job table, nor the history of
    status updates, nor the tracker map, whatever it returns. *)
Definition quiet {A} (m : M App A) : Prop :=
  forall app,
    scrapeJobs (db (snd (m app))) = scrapeJobs (db app)
    /\ statusUpdates (db (snd (m app))) = statusUpdates (db app)
    /\ jobCompletionTracker (snd (m app)) = jobCompletionTracker app.

(** The state of a job of [n] URLs after [c] completed and [f] failed
    outcome events, before the last one: the job row exists and the
    tracker holds the counts (or no entry yet, before the first event). *)
Definition progress (n c f : nat) (jobId : nat) (app : App) : Prop :=
  (exists j, scrapeJobs (db app) !! jobId = Some j
             /\ length (ScrapeJob.urls j) = n)
  /\ (jobCompletionTracker app !! jobId
      = Some {| Tracker.total := n; Tracker.completed := c;
                Tracker.failed := f |}
      \/ (c = 0 /\ f = 0 /\ jobCompletionTracker app !! jobId = None)).

(** The number of failed attempts among the outcomes of a run. *)
Definition count_failed (outcomes : list bool) : nat :=
  length (filter (fun ok => ok = false) outcomes).

(** ** Observations on a run *)

(** The job row, as [GET /api/jobs/:id] shows it. *)
Definition jobStatus (jobId : nat) (app : App) : option JobStatus :=
  ScrapeJob.status <$> scrapeJobs (db app) !! jobId.
Definition jobCompletedAt (jobId : nat) (app : App) : option (option Date) :=
  ScrapeJob.completedAt <$> scrapeJobs (db app) !! jobId.

(** The invariant I1 on a job row: [completed_at] is set exactly when the
    status is terminal. *)
Definition completedAt_iff_terminal (j : ScrapeJob.t) : bool :=
  Bool.eqb (bool_decide (is_Some (ScrapeJob.completedAt j)))
           (terminal (ScrapeJob.status j)).

(** What a media row says about where the item was found. *)
Definition found (r : Media.t) : nat * string * string * MediaType :=
  (Media.jobId r, Media.sourceUrl r, Media.mediaUrl r, Media.type r).

(** The terminal-status writes made for a job, oldest first. *)
Definition terminalWrites (jobId : nat) (app : App)
  : list (nat * JobStatus * option Date) :=
  filter (fun w => w.1.1 = jobId /\ terminal w.1.2 = true)
         (statusUpdates (db app)).

(** ** Scenarios *)

Module Scenario.
Definition emptyDb : Database :=
  {| scrapeJobs := ∅; nextJobId := 1; mediaRows := []; nextMediaId := 1;
     users := ∅; statusUpdates := [] |}.

(** The cache service without Redis, and with an empty Redis. *)
Definition offline : Cache.CacheService (list ScrapedMedia) :=
  {| Cache.client := None; Cache.isConnected := false |}.
Definition online : Cache.CacheService (list ScrapedMedia) :=
  {| Cache.client := Some {| Cache.data := ∅; Cache.rejecting := false |};
     Cache.isConnected := true |}.

(** The application after start-up. *)
Definition boot (c : Cache.CacheService (list ScrapedMedia)) : App :=
  {| db := emptyDb; cache := c; jobCompletionTracker := ∅;
     queue := Some [] |}.

(** Router behaviours: the page yields one image; the page cannot be
    fetched; the page has no media. *)
Definition picture : ScrapedMedia :=
  {| mediaUrl := "https://example.com/a.jpg"; type := image;
     title := None |}.
Definition working (u : string) : ScrapeResult :=
  {| url := u; success := true; media := [picture]; error := None;
     scraperUsed := cheerio |}.
Definition unreachable (u : string) : ScrapeResult :=
  {| url := u; success := false; media := [];
     error := Some "timeout of 30000ms exceeded"; scraperUsed := cheerio |}.
Definition blank (u : string) : ScrapeResult :=
  {| url := u; success := true; media := []; error := None;
     scraperUsed := cheerio |}.

Definition pageA : string := "https://a.example/".
Definition pageB : string := "https://b.example/".

(** [POST /api/scrape] at time 1000; the new job has id 1. *)
Definition submitted_with (c : Cache.CacheService (list ScrapedMedia))
    (urls : list string) : App :=
  snd (ScrapeRoutes.post_scrape 1000 None urls (boot c)).
Definition submitted : list string -> App := submitted_with offline.

(** A job of one URL whose first attempt fails and whose retry, after
    the 2 s backoff, succeeds. *)
Definition retried_once : list Bull.Attempt :=
  [ {| Bull.at_time := 1100; Bull.at_jobId := 1; Bull.at_url := pageA;
       Bull.at_router := unreachable |};
    {| Bull.at_time := 3100; Bull.at_jobId := 1; Bull.at_url := pageA;
       Bull.at_router := working |} ].

(** A job of two URLs: the first attempt of [pageA] fails, [pageB]
    succeeds, then [pageA] is retried and succeeds. *)
Definition first_two : list Bull.Attempt :=
  [ {| Bull.at_time := 1100; Bull.at_jobId := 1; Bull.at_url := pageA;
       Bull.at_router := unreachable |};
    {| Bull.at_time := 1200; Bull.at_jobId := 1; Bull.at_url := pageB;
       Bull.at_router := working |} ].
Definition retry_of_A : Bull.Attempt :=
  {| Bull.at_time := 3100; Bull.at_jobId := 1; Bull.at_url := pageA;
     Bull.at_router := working |}.

(** A job of two URLs, both scraped with success. *)
Definition both_work : list Bull.Attempt :=
  [ {| Bull.at_time := 1100; Bull.at_jobId := 1; Bull.at_url := pageA;
       Bull.at_router := working |};
    {| Bull.at_time := 1200; Bull.at_jobId := 1; Bull.at_url := pageB;
       Bull.at_router := working |} ].

(** A stand-in for bcrypt in the examples: the hash of a password is the
    password behind a marker, and [compare] re-hashes. *)
Definition toy_hash (password : string) : string := String "#" password.
Definition toy_compare (password hash : string) : bool :=
  String.eqb (toy_hash password) hash.

(** A user whose password contains a colon. *)
Definition alice : User.t :=
  {| User.id := 1; User.username := "alice";
     User.passwordHash := toy_hash "se:cret"; User.createdAt := 0 |}.
Definition withAlice : Database :=
  {| scrapeJobs := ∅; nextJobId := 1; mediaRows := []; nextMediaId := 1;
     users := {[ "alice" := alice ]}; statusUpdates := [] |}.

(** Two product pages of one shop, whose URLs differ after byte 75. *)
Definition catalogue : string :=
  "https://shop.example.com/catalogue/spring-collection/items/view?product=000".
Definition product17 : string := catalogue ++ "17&colour=red".
Definition product42 : string := catalogue ++ "42".

(** A job of three URLs: the first attempts of [pageA] and [pageB] fail
    and the retry of [pageA], after the backoff, fails again; [pageC],
    which takes longest, is attempted afterwards and succeeds. *)
Definition pageC : string := "https://c.example/".
Definition three_failures : list Bull.Attempt :=
  [ {| Bull.at_time := 1100; Bull.at_jobId := 1; Bull.at_url := pageA;
       Bull.at_router := unreachable |};
    {| Bull.at_time := 1200; Bull.at_jobId := 1; Bull.at_url := pageB;
       Bull.at_router := unreachable |};
    {| Bull.at_time := 3100; Bull.at_jobId := 1; Bull.at_url := pageA;
       Bull.at_router := unreachable |} ].
Definition attempt_of_C : Bull.Attempt :=
  {| Bull.at_time := 3200; Bull.at_jobId := 1; Bull.at_url := pageC;
     Bull.at_router := working |}.

(** A connected cache that holds a page of the media list and the media
    statistics. *)
Definition stocked : Cache.CacheService (list ScrapedMedia) :=
  {| Cache.client :=
       Some {| Cache.data :=
                 {[ "media:list:1:20:all:" := (Cache.JsonOf [picture], 120);
                    "stats:media" := (Cache.JsonOf [], 300) ]};
               Cache.rejecting := false |};
     Cache.isConnected := true |}.

(** A stand-in for bcryptjs, which is not part of the source, with the one
    property of bcrypt that matters below: only the first 72 bytes of the
    password enter the hash. *)
Definition bcrypt72_hash (password : string) : string :=
  toy_hash (Js.slice0 72 password).
Definition bcrypt72_compare (password hash : string) : bool :=
  String.eqb (bcrypt72_hash password) hash.

(** A user whose password has its first colon after byte 72. *)
Definition carol_password : string :=
  "correct-horse-battery-staple-correct-horse-battery-staple-correct-horse-" ++ ":2024".
Definition carol : User.t :=
  {| User.id := 3; User.username := "carol";
     User.passwordHash := bcrypt72_hash carol_password;
     User.createdAt := 7 |}.
Definition withCarol : Database :=
  {| scrapeJobs := ∅; nextJobId := 1; mediaRows := []; nextMediaId := 1;
     users := {[ "carol" := carol ]}; statusUpdates := [] |}.
End Scenario.

(** ** The other cache keys ([CacheKeys] in [utils/cache.ts]) *)

(** Numbers are the validated, non-negative integers the routes pass;
    a template literal prints them in decimal. *)
Module CacheKeys.
Definition mediaStats : string := "stats:media".
Definition mediaList (page limit : nat) (type search : option string)
  : string :=
  "media:list:" ++ pretty page ++ ":" ++ pretty limit ++ ":"
  ++ default "" (Js.or_else type (Some "all")) ++ ":"
  ++ default "" (Js.or_else search (Some "")).
Definition mediaById (id : nat) : string := "media:" ++ pretty id.
Definition jobById (id : nat) : string := "job:" ++ pretty id.
Definition jobList (page limit : nat) : string :=
  "jobs:list:" ++ pretty page ++ ":" ++ pretty limit.
Definition queueStats : string := "queue:stats".
End CacheKeys.

(** The keys [invalidateMediaCaches] deletes. *)
Definition media_key (k : string) : bool :=
  glob "media:*" k || String.eqb k "stats:media".

(** ** Further scenarios *)

Module Users.
(** A user with an ordinary password, beside [Scenario.alice]. *)
Definition bob : User.t :=
  {| User.id := 2; User.username := "bob";
     User.passwordHash := Scenario.toy_hash "s3cret"; User.createdAt := 5 |}.
Definition db : Database :=
  {| scrapeJobs := ∅; nextJobId := 1; mediaRows := []; nextMediaId := 1;
     users := {[ "alice" := Scenario.alice; "bob" := bob ]};
     statusUpdates := [] |}.
End Users.

(** ** The extractor's pass over a page ([scrapers/cheerio.scraper.ts]) *)

(** The part of a parsed document that the extractor reads: the elements
    selected by [$('img')], [$('video')] (with their [source] children)
    and [$('meta')], in document order, each with the attributes read by
    [attr], [undefined] being [None]. *)
Module Cheerio.
Record Img := {
  img_src : option string;
  img_data_src : option string;
  img_srcset : option string;
  img_alt : option string;
  img_title : option string
}.
Record Video := {
  video_src : option string;
  video_title : option string;
  video_sources : list (option string)
}.
Record Meta := {
  meta_property : option string;
  meta_content : option string
}.
Record Document := {
  imgs : list Img;
  videos : list Video;
  metas : list Meta
}.
End Cheerio.

Module CheerioScrape.
Import Cheerio.

(** [removeDuplicates]: a filter that keeps an item when its [mediaUrl]
    has not been seen, and then adds it to the set [seen]. *)
Fixpoint removeDuplicates_from (seen : gset string) (media : list ScrapedMedia)
  : list ScrapedMedia :=
  match media with
  | [] => []
  | item :: rest =>
      if bool_decide (mediaUrl item ∈ seen) then removeDuplicates_from seen rest
      else item :: removeDuplicates_from ({[mediaUrl item]} ∪ seen) rest
  end.
Definition removeDuplicates (media : list ScrapedMedia) : list ScrapedMedia :=
  removeDuplicates_from ∅ media.

Section Scrape.
Variable URL_new : string -> option string -> result CheerioScraper.URL.
(** [axios.get] followed by [cheerio.load]: the parsed page, or the
    message of the error thrown. *)
Variable axios_get : string -> result Document.

(** [parseSrcset] *)
Definition parseSrcset (srcset baseUrl : string) : list string :=
  flat_map
    (fun entry =>
       let url := default "" (Js.split " " (Js.trim entry) !! 0) in
       if Js.truthy (Some url) then
         match CheerioScraper.makeAbsoluteUrl URL_new url baseUrl with
         | Some absoluteUrl =>
             if Js.truthy (Some absoluteUrl) then [absoluteUrl] else []
         | None => []
         end
       else [])
    (Js.split "," srcset).

(** The items pushed for an attribute value [src]: one, when the value is
    truthy, resolves and passes the filter. *)
Definition from_attr (src : option string) (pageUrl : string)
    (ty : MediaType) (title : option string) : list ScrapedMedia :=
  if Js.truthy src then
    match CheerioScraper.makeAbsoluteUrl URL_new (default "" src) pageUrl with
    | Some absoluteUrl =>
        if Js.truthy (Some absoluteUrl)
           && CheerioScraper.isValidMediaUrl URL_new absoluteUrl
        then [{| mediaUrl := absoluteUrl; type := ty; title := title |}]
        else []
    | None => []
    end
  else [].

Definition from_img (pageUrl : string) (element : Img) : list ScrapedMedia :=
  let title := Js.or_else (img_alt element) (img_title element) in
  (from_attr (Js.or_else (img_src element) (img_data_src element))
     pageUrl image title
   ++ if Js.truthy (img_srcset element) then
        flat_map
          (fun mediaUrl =>
             if CheerioScraper.isValidMediaUrl URL_new mediaUrl
             then [{| mediaUrl := mediaUrl; type := image; title := title |}]
             else [])
          (parseSrcset (default "" (img_srcset element)) pageUrl)
      else [])%list.

Definition from_video (pageUrl : string) (element : Video)
  : list ScrapedMedia :=
  (from_attr (video_src element) pageUrl video (video_title element)
   ++ flat_map
        (fun src => from_attr src pageUrl video (video_title element))
        (video_sources element))%list.

(** The selector [meta[property^="og:"]]. *)
Definition is_og (element : Meta) : bool :=
  match meta_property element with
  | Some property => Js.startsWith property "og:"
  | None => false
  end.

Definition from_meta (pageUrl : string) (element : Meta)
  : list ScrapedMedia :=
  if Js.truthy (meta_content element) then
    if bool_decide (meta_property element = Some "og:image") then
      from_attr (meta_content element) pageUrl image (Some "Open Graph Image")
    else if bool_decide (meta_property element = Some "og:video") then
      from_attr (meta_content element) pageUrl video (Some "Open Graph Video")
    else []
  else [].

(** The items in the order in which they are pushed. *)
Definition collect (pageUrl : string) (document : Document)
  : list ScrapedMedia :=
  (flat_map (from_img pageUrl) (imgs document)
   ++ flat_map (from_video pageUrl) (videos document)
   ++ flat_map (from_meta pageUrl) (filter (fun m => is_og m = true)
                                      (metas document)))%list.

(** [scrape] *)
Definition scrape (pageUrl : string) : ScrapeResult :=
  match axios_get pageUrl with
  | Ok document =>
      {| url := pageUrl; success := true;
         media := removeDuplicates (collect pageUrl document);
         error := None; scraperUsed := cheerio |}
  | Throw message =>
      {| url := pageUrl; success := false; media := [];
         error := Some message; scraperUsed := cheerio |}
  end.
End Scrape.
End CheerioScrape.

(** ** The renderer's post-processing ([scrapers/puppeteer.scraper.ts]) *)

Module PuppeteerScraper.
Section Filter.
Variable URL_new : string -> option string -> result CheerioScraper.URL.

Definition blockedDomains : list string :=
  ["google-analytics.com"; "doubleclick.net"; "facebook.com/tr"].

Definition isValidMediaUrl (u : string) : bool :=
  match URL_new u None with
  | Ok urlObj =>
      if String.eqb (CheerioScraper.protocol urlObj) "data:" then false
      else if existsb (fun domain =>
                         Js.includes (CheerioScraper.hostname urlObj) domain)
                      blockedDomains then false
      else
        let pathname := Js.toLowerCase (CheerioScraper.pathname urlObj) in
        if Js.includes pathname "1x1" || Js.includes pathname "pixel"
        then false
        else true
  | Throw _ => false
  end.

(** [filterAndDeduplicate]: one pass that drops an item when its URL is
    invalid or has been seen. *)
Fixpoint filterAndDeduplicate_from (seen : gset string)
    (media : list ScrapedMedia) : list ScrapedMedia :=
  match media with
  | [] => []
  | item :: rest =>
      if negb (isValidMediaUrl (mediaUrl item)) then
        filterAndDeduplicate_from seen rest
      else if bool_decide (mediaUrl item ∈ seen) then
        filterAndDeduplicate_from seen rest
      else item :: filterAndDeduplicate_from ({[mediaUrl item]} ∪ seen) rest
  end.
Definition filterAndDeduplicate (media : list ScrapedMedia)
  : list ScrapedMedia :=
  filterAndDeduplicate_from ∅ media.
End Filter.
End PuppeteerScraper.

(** ** The CPU monitor ([queue/queue.manager.ts], [startCpuMonitoring]) *)

Module CpuMonitor.
(** The queue's own paused flag and the manager's [isPausedByCpu]. *)
Record t := {
  paused : bool;
  isPausedByCpu : bool
}.
Inductive QueueCall := queue_pause | queue_resume.

(** One tick of the interval once the queue is initialised, with the
    value [getCpuLoad] returned (a rounded percentage): the calls made on
    the queue and the state afterwards. [queue.pause] and [queue.resume]
    are taken to succeed. *)
Definition tick (cpuLoad : Z) (s : t) : list QueueCall * t :=
  if (70 <? cpuLoad)%Z && negb (isPausedByCpu s) then
    ([queue_pause], {| paused := true; isPausedByCpu := true |})
  else if (cpuLoad <? 40)%Z && isPausedByCpu s then
    ([queue_resume], {| paused := false; isPausedByCpu := false |})
  else ([], s).

(** The ticks for a series of readings: all the calls, and the state. *)
Fixpoint ticks (loads : list Z) (s : t) : list QueueCall * t :=
  match loads with
  | [] => ([], s)
  | cpuLoad :: rest =>
      let '(calls, s1) := tick cpuLoad s in
      let '(calls', s2) := ticks rest s1 in
      ((calls ++ calls')%list, s2)
  end.

(** The readings outside the band from 40 to 70. *)
Definition decisive (cpuLoad : Z) : bool :=
  (70 <? cpuLoad)%Z || (cpuLoad <? 40)%Z.

(** Calls that alternate, starting with [resume] when [flag] is set and
    with [pause] otherwise. *)
Fixpoint alternating (flag : bool) (calls : list QueueCall) : Prop :=
  match calls with
  | [] => True
  | call :: rest =>
      call = (if flag then queue_resume else queue_pause)
      /\ alternating (negb flag) rest
  end.
End CpuMonitor.

(** ** The list of jobs ([services/job.service.ts], [findAll]) *)

Module JobList.
Record Pagination := {
  total : nat;
  page : nat;
  limit : nat;
  totalPages : nat
}.

Section FindAll.
(** [findMany] with [orderBy: { createdAt: 'desc' }] and neither [skip]
    nor [take]: the rows in the order in which the database returns
    them. *)
Variable ordered : Database -> list ScrapeJob.t.

(** [Math.ceil(total / limit)] for a positive [limit]. *)
Definition ceil_div (total limit : nat) : nat :=
  (total + limit - 1) / limit.

(** [findAll], for the [page] and [limit] that the [jobQuery] schema lets
    through (both positive). *)
Definition findAll (page limit : nat) (d : Database)
  : list ScrapeJob.t * Pagination :=
  let skip := (page - 1) * limit in
  let jobs := take limit (drop skip (ordered d)) in
  let total := length (ordered d) in
  (jobs, {| total := total; page := page; limit := limit;
            totalPages := ceil_div total limit |}).
End FindAll.

(** An order the database may return: newest first, by merge sort. *)
Definition newest_first (d : Database) : list ScrapeJob.t :=
  merge_sort (fun a b => ScrapeJob.createdAt b <= ScrapeJob.createdAt a)
    (H := fun a b => decide (ScrapeJob.createdAt b <= ScrapeJob.createdAt a))
    (map snd (map_to_list (scrapeJobs d))).

(** Three submissions, at times 1000, 2000 and 3000. *)
Definition three_jobs : Database :=
  db (snd (ScrapeRoutes.post_scrape 3000 None [Scenario.pageB]
       (snd (ScrapeRoutes.post_scrape 2000 None
               [Scenario.pageA; Scenario.pageB]
          (snd (ScrapeRoutes.post_scrape 1000 None [Scenario.pageA]
                  (Scenario.boot Scenario.offline))))))).
End JobList.

(** ** Theorems *)

(** *** The extraction router *)

(** The routing rule determines the answer: it is a function of the
    extractor's result and the renderer's outcome. *)
Lemma RouterRule_functional c r x b x' b' :
  ScraperManager.RouterRule c r x b ->
  ScraperManager.RouterRule c r x' b' ->
  x = x' /\ b = b'.
Proof.
  intros H H'.
  destruct H as [Hs Hl|p Hn Hr Hps Hlt|p Hn Hr Hnp|e Hn Hr];
    destruct H' as [Hs' Hl'|p' Hn' Hr' Hps' Hlt'|p' Hn' Hr' Hnp'|e' Hn' Hr'];
    try done; try (by destruct Hn); try (by destruct Hn');
    try (rewrite Hr in Hr'; injection Hr' as <-);
    try (by destruct Hnp); try (by destruct Hnp'); try done;
    congruence.
Qed.

(** C2. The router returns the static extractor's result when it succeeded
    with at least 3 media items, without invoking the renderer; otherwise
    it invokes the renderer and returns the renderer's result exactly when
    the renderer succeeded with strictly more items than the extractor; in
    every other case, a throwing renderer included, it returns the
    extractor's result. *)
Theorem scrape_follows_router_rule
    (cheerioScraper : string -> ScrapeResult)
    (puppeteerScraper : string -> result ScrapeResult) (u : string) :
  let out := ScraperManager.scrape cheerioScraper puppeteerScraper u in
  ScraperManager.RouterRule (cheerioScraper u) (puppeteerScraper u)
    (fst out) (ScraperManager.renderer_invoked (snd out)).
Proof.
  cbv zeta. unfold ScraperManager.scrape.
  destruct (success (cheerioScraper u)) eqn:Hs; cbn [andb].
  - destruct (3 <=? length (media (cheerioScraper u))) eqn:Hl.
    + apply Nat.leb_le in Hl. cbn. by constructor.
    + apply Nat.leb_gt in Hl.
      assert (Hnot : ~ (true = true /\ 3 <= length (media (cheerioScraper u))))
        by (intros [_ ?]; lia).
      destruct (puppeteerScraper u) as [p|e] eqn:Hp.
      * destruct (success p) eqn:Hps; cbn [andb].
        -- destruct (_ <? _) eqn:Hlt; cbn.
           ++ apply Nat.ltb_lt in Hlt. eapply ScraperManager.rule_renderer_better; eauto.
              by rewrite Hs.
           ++ apply Nat.ltb_ge in Hlt.
              eapply ScraperManager.rule_renderer_not_better; eauto.
              ** by rewrite Hs.
              ** intros [_ ?]; lia.
        -- cbn. eapply ScraperManager.rule_renderer_not_better; eauto.
           ++ by rewrite Hs.
           ++ rewrite Hps. by intros [? _].
      * cbn. eapply ScraperManager.rule_renderer_throws; eauto. by rewrite Hs.
  - assert (Hnot : ~ (success (cheerioScraper u) = true
                      /\ 3 <= length (media (cheerioScraper u))))
      by (rewrite Hs; by intros [? _]).
    destruct (puppeteerScraper u) as [p|e] eqn:Hp.
    + destruct (success p) eqn:Hps; cbn [andb].
      * destruct (_ <? _) eqn:Hlt; cbn.
        -- apply Nat.ltb_lt in Hlt. eapply ScraperManager.rule_renderer_better; eauto.
        -- apply Nat.ltb_ge in Hlt.
           eapply ScraperManager.rule_renderer_not_better; eauto.
           intros [_ ?]; lia.
      * cbn. eapply ScraperManager.rule_renderer_not_better; eauto.
        rewrite Hps. by intros [? _].
    + cbn. eapply ScraperManager.rule_renderer_throws; eauto.
Qed.

(** What an outcome handler does when its increment brings
    [completed + failed] to [total]: it writes [failed] when the counter
    [failed] equals [total] and [completed] otherwise, with [completed_at]
    set to the current time, and deletes the tracker entry. The counters
    count outcome events, the failed attempts that Bull retries included. *)
Theorem last_outcome_writes_terminal_status
    (o : QueueManager.Outcome) (now : Date) (jobId : nat) (app : App)
    (t : Tracker.t) (j : ScrapeJob.t) :
  jobCompletionTracker app !! jobId = Some t ->
  scrapeJobs (db app) !! jobId = Some j ->
  Tracker.completed (QueueManager.counted o t)
  + Tracker.failed (QueueManager.counted o t) = Tracker.total t ->
  let t' := QueueManager.counted o t in
  let out := QueueManager.on_outcome o now jobId app in
  let written := if bool_decide (Tracker.failed t' = Tracker.total t')
                 then failed else completed in
  fst out = Ok tt
  /\ (exists j', scrapeJobs (db (snd out)) !! jobId = Some j'
                 /\ ScrapeJob.status j' = written
                 /\ ScrapeJob.completedAt j' = Some now
                 /\ ScrapeJob.urls j' = ScrapeJob.urls j)
  /\ (ScrapeJob.status <$> scrapeJobs (db (snd out)) !! jobId = Some failed
      <-> Tracker.failed t' = Tracker.total t')
  /\ statusUpdates (db (snd out))
     = (statusUpdates (db app) ++ [(jobId, written, Some now)])%list
  /\ jobCompletionTracker (snd out) !! jobId = None.
Proof.
  intros Ht Hj Hsum. cbv zeta.
  assert (Hdone : (Tracker.total (QueueManager.counted o t)
                   <=? Tracker.completed (QueueManager.counted o t)
                       + Tracker.failed (QueueManager.counted o t)) = true).
  { apply Nat.leb_le. destruct o; cbn in *; lia. }
  destruct o; cbn [QueueManager.on_outcome].
  - unfold QueueManager.on_completed. rewrite Ht.
    cbn [QueueManager.counted] in *. cbn [Tracker.total Tracker.completed Tracker.failed] in *.
    unfold bind, modifyTracker, liftDb, JobService.updateStatus.
    cbn [db jobCompletionTracker cache queue fst snd].
    rewrite Hdone. cbn [db jobCompletionTracker cache queue fst snd].
    rewrite Hj. cbn [db jobCompletionTracker cache queue fst snd scrapeJobs statusUpdates].
    rewrite bool_decide_eq_false_2 by lia.
    rewrite lookup_insert_eq, lookup_delete_eq. cbn.
    split_and!; eauto.
    split; [discriminate | lia].
  - unfold QueueManager.on_failed. rewrite Ht.
    cbn [QueueManager.counted] in *. cbn [Tracker.total Tracker.completed Tracker.failed] in *.
    unfold bind, modifyTracker, liftDb, JobService.updateStatus.
    cbn [db jobCompletionTracker cache queue fst snd].
    rewrite Hdone. cbn [db jobCompletionTracker cache queue fst snd].
    rewrite Hj. cbn [db jobCompletionTracker cache queue fst snd scrapeJobs statusUpdates].
    rewrite lookup_insert_eq, lookup_delete_eq.
    destruct (Nat.eqb_spec (S (Tracker.failed t)) (Tracker.total t)) as [He|He].
    + rewrite bool_decide_eq_true_2 by done. cbn.
      split_and!; eauto. split; done.
    + rewrite bool_decide_eq_false_2 by done. cbn.
      split_and!; eauto.
      split; [discriminate | done].
Qed.

Lemma last_outcome_writes_terminal_status_witness :
  let app := snd (QueueManager.on_active 1 (Scenario.submitted [Scenario.pageA])) in
  let out := QueueManager.on_outcome QueueManager.item_failed 1100 1 app in
  fst out = Ok tt
  /\ jobStatus 1 (snd out) = Some failed
  /\ jobCompletedAt 1 (snd out) = Some (Some 1100)
  /\ jobCompletionTracker (snd out) !! 1 = None.
Proof.
  cbv zeta.
  destruct (last_outcome_writes_terminal_status QueueManager.item_failed 1100 1
              (snd (QueueManager.on_active 1 (Scenario.submitted [Scenario.pageA])))
              {| Tracker.total := 1; Tracker.completed := 0; Tracker.failed := 0 |}
              {| ScrapeJob.id := 1; ScrapeJob.userId := None;
                 ScrapeJob.urls := [Scenario.pageA]; ScrapeJob.status := pending;
                 ScrapeJob.createdAt := 1000; ScrapeJob.completedAt := None |})
    as (Hok & (j' & Hj' & Hst & Hat & _) & _ & _ & Hgone).
  - vm_compute. reflexivity.
  - vm_compute. reflexivity.
  - vm_compute. reflexivity.
  - unfold jobStatus, jobCompletedAt. rewrite Hj'. cbn. rewrite Hst, Hat.
    split_and!; done.
Defined.

(** C1 (violated by the code). [failed] is written for a job although not
    every URL failed: the [failed] handler counts every failed attempt, the
    ones Bull retries included, so for a job of three URLs the failed first
    attempts of two of them and one failed retry bring [failed] to [total].
    The job is marked [failed] at 3100 while the third URL has not been
    attempted; that URL then succeeds and its media is stored for the job
    marked [failed]. *)
Theorem retried_failures_mark_an_unfinished_job_failed :
  let app := Scenario.submitted
               [Scenario.pageA; Scenario.pageB; Scenario.pageC] in
  let marked := Bull.run Scenario.three_failures app in
  let after :=
    Bull.run (Scenario.three_failures ++ [Scenario.attempt_of_C]) app in
  map Bull.at_url Scenario.three_failures
  = [Scenario.pageA; Scenario.pageB; Scenario.pageA]
  /\ jobCompletionTracker (Bull.run (take 2 Scenario.three_failures) app) !! 1
     = Some {| Tracker.total := 3; Tracker.completed := 0;
               Tracker.failed := 2 |}
  /\ jobStatus 1 marked = Some failed
  /\ jobCompletedAt 1 marked = Some (Some 3100)
  /\ terminalWrites 1 marked = [(1, failed, Some 3100)]
  /\ jobCompletionTracker marked !! 1 = None
  /\ Bull.outcomes (Scenario.three_failures ++ [Scenario.attempt_of_C]) app
     = [false; false; false; true]
  /\ map Media.sourceUrl (mediaRows (db after)) = [Scenario.pageC]
  /\ terminalWrites 1 after = [(1, failed, Some 3100)].
Proof. vm_compute. split_and!; reflexivity. Qed.

(** C3 (violated by the code). A job whose item fails once and is retried
    re-enters [processing] after it was marked terminal, keeping its
    [completed_at]: the job of two URLs is [completed] at 1200, and after
    the retry of the failed item it is [processing] with [completed_at]
    still 1200, which breaks both the invariant and the monotonic order of
    the status. *)
Theorem retry_reenters_processing_after_terminal :
  let app := Scenario.submitted [Scenario.pageA; Scenario.pageB] in
  let marked := Bull.run Scenario.first_two app in
  let after := Bull.run (Scenario.first_two ++ [Scenario.retry_of_A]) app in
  jobStatus 1 app = Some pending
  /\ jobStatus 1 marked = Some completed
  /\ jobCompletedAt 1 marked = Some (Some 1200)
  /\ jobStatus 1 after = Some processing
  /\ jobCompletedAt 1 after = Some (Some 1200)
  /\ (completedAt_iff_terminal <$> scrapeJobs (db after) !! 1) = Some false
  /\ statusUpdates (db after)
     = [(1, processing, None); (1, processing, None);
        (1, completed, Some 1200); (1, processing, None)].
Proof. vm_compute. split_and!; reflexivity. Qed.

(** C4 (violated by the code). The terminal status of a job is written
    twice when its only item fails once and succeeds on the retry: the
    [failed] handler counts the failed first attempt as an outcome, writes
    [failed] and deletes the tracker entry; the retry re-creates the entry
    and its [completed] event writes [completed]. *)
Theorem retry_writes_terminal_status_twice :
  let app := Scenario.submitted [Scenario.pageA] in
  let after_first := Bull.run (take 1 Scenario.retried_once) app in
  let after := Bull.run Scenario.retried_once app in
  terminalWrites 1 after_first = [(1, failed, Some 1100)]
  /\ jobCompletionTracker after_first !! 1 = None
  /\ terminalWrites 1 after
     = [(1, failed, Some 1100); (1, completed, Some 3100)]
  /\ jobCompletionTracker after !! 1 = None.
Proof. vm_compute. split_and!; reflexivity. Qed.

(** *** De-duplication of a submission *)

Section Dedup.
Import ScrapeRoutes.

Lemma foldl_Set_add (acc urls : list string) :
  foldl Set_add acc urls
  = (acc ++ filter (fun v => v ∉ acc) (keep_first urls))%list.
Proof.
  revert acc. induction urls as [|u urls IH]; intros acc; cbn [foldl keep_first].
  - by rewrite filter_nil, app_nil_r.
  - rewrite IH. unfold Set_add. case_bool_decide as Hu.
    + rewrite filter_cons_False by (intros Hn; by apply Hn).
      rewrite list_filter_filter_l; [done|]. intros v Hv ->. by apply Hv.
    + rewrite filter_cons_True by done.
      rewrite <- app_assoc. cbn [app]. do 2 f_equal.
      rewrite list_filter_filter. apply list_filter_iff. intros v.
      rewrite elem_of_app, list_elem_of_singleton. tauto.
Qed.

Lemma spread_Set_keep_first (urls : list string) :
  spread_Set urls = keep_first urls.
Proof.
  unfold spread_Set. rewrite foldl_Set_add. cbn [app].
  induction (keep_first urls) as [|v l IH]; [done|].
  rewrite filter_cons_True by apply not_elem_of_nil. by rewrite IH.
Qed.

Lemma keep_first_elem_of (urls : list string) (v : string) :
  v ∈ keep_first urls <-> v ∈ urls.
Proof.
  induction urls as [|u urls IH]; cbn [keep_first]; [done|].
  rewrite !elem_of_cons, list_elem_of_filter, IH.
  destruct (decide (v = u)); tauto.
Qed.

Lemma keep_first_NoDup (urls : list string) : NoDup (keep_first urls).
Proof.
  induction urls as [|u urls IH]; cbn [keep_first]; [constructor|].
  apply NoDup_cons. split.
  - rewrite list_elem_of_filter. intros [Hne _]. by apply Hne.
  - by apply NoDup_filter.
Qed.

Lemma keep_first_sublist (urls : list string) :
  sublist (keep_first urls) urls.
Proof.
  induction urls as [|u urls IH]; cbn [keep_first]; [constructor|].
  apply sublist_skip. etrans; [apply sublist_filter | exact IH].
Qed.
End Dedup.

(** C5. [POST /api/scrape] de-duplicates the submitted URLs in order,
    keeping the first occurrence of each (the result has no duplicates, is
    a sublist of the submission and contains the same URLs); the
    de-duplicated list is stored on the new job, [total_urls] is the number of distinct URLs and
    [duplicates_removed] is the submitted length minus that number. *)
Theorem post_scrape_dedupes_submission
    (now : Date) (user : option (nat * string)) (urls : list string)
    (app : App) :
  ScrapeRoutes.count_ok urls = true ->
  let out := ScrapeRoutes.post_scrape now user urls app in
  let unique := ScrapeRoutes.keep_first urls in
  NoDup unique
  /\ sublist unique urls
  /\ (forall u, u ∈ unique <-> u ∈ urls)
  /\ exists resp,
       fst out = Ok resp
       /\ ScrapeRoutes.http_status resp = 201
       /\ ScrapeRoutes.total_urls resp = length unique
       /\ ScrapeRoutes.duplicates_removed resp = length urls - length unique
       /\ ScrapeJob.urls <$> scrapeJobs (db (snd out)) !! ScrapeRoutes.job_id resp
          = Some unique.
Proof.
  intros _. cbv zeta.
  split; [apply keep_first_NoDup|].
  split; [apply keep_first_sublist|].
  split; [intros u; apply keep_first_elem_of|].
  unfold ScrapeRoutes.post_scrape. rewrite spread_Set_keep_first.
  unfold bind, liftDb, try_catch, ret, JobService.create,
    QueueManager.addUrlsToQueue.
  cbn [db cache queue jobCompletionTracker fst snd ScrapeJob.id].
  destruct (queue app); cbn [fst snd db scrapeJobs];
    (eexists; split_and!; [reflexivity..|]);
    cbn [ScrapeRoutes.job_id]; by rewrite lookup_insert_eq.
Qed.

Lemma post_scrape_dedupes_submission_witness :
  exists resp,
    fst (ScrapeRoutes.post_scrape 1000 None ["u"; "u"; "v"]
           (Scenario.boot Scenario.offline)) = Ok resp
    /\ ScrapeRoutes.total_urls resp = 2
    /\ ScrapeRoutes.duplicates_removed resp = 1
    /\ ScrapeJob.urls <$> scrapeJobs
         (db (snd (ScrapeRoutes.post_scrape 1000 None ["u"; "u"; "v"]
                     (Scenario.boot Scenario.offline))))
         !! ScrapeRoutes.job_id resp = Some ["u"; "v"].
Proof.
  destruct (post_scrape_dedupes_submission 1000 None ["u"; "u"; "v"]
              (Scenario.boot Scenario.offline) eq_refl)
    as (_ & _ & _ & resp & Hr & _ & Ht & Hd & Hu).
  exists resp. split_and!; [exact Hr | exact Ht | exact Hd | exact Hu].
Defined.

(** *** The extractor's URL filter *)

(** C6 (violated by the code). A candidate with the scheme [ftp:] or
    [javascript:] is resolved to itself and accepted by the extractor's
    filter, which tests the scheme against [data:] only; the renderer
    collects only candidates that start with [http]. *)
Lemma filter_accepts_ftp_and_javascript :
  CheerioScraper.makeAbsoluteUrl Whatwg.URL_new
    "ftp://example.com/a.jpg" "https://example.com/"
  = Some "ftp://example.com/a.jpg"
  /\ Whatwg.URL_new "ftp://example.com/a.jpg" None
     = Ok {| CheerioScraper.protocol := "ftp:";
             CheerioScraper.host := "example.com";
             CheerioScraper.hostname := "example.com";
             CheerioScraper.pathname := "/a.jpg";
             CheerioScraper.href := "ftp://example.com/a.jpg" |}
  /\ CheerioScraper.isValidMediaUrl Whatwg.URL_new "ftp://example.com/a.jpg"
     = true
  /\ CheerioScraper.candidate Whatwg.URL_new
       "javascript:alert(1)" "https://example.com/"
     = Some "javascript:alert(1)".
Proof. vm_compute. split_and!; reflexivity. Qed.

(** The tracking entry [facebook.com/tr] is compared with the host name,
    which holds no slash: the address of the Facebook pixel passes the
    filter. *)
Lemma filter_accepts_the_facebook_pixel :
  Whatwg.URL_new "https://www.facebook.com/tr?id=1&ev=PageView" None
  = Ok {| CheerioScraper.protocol := "https:";
          CheerioScraper.host := "www.facebook.com";
          CheerioScraper.hostname := "www.facebook.com";
          CheerioScraper.pathname := "/tr";
          CheerioScraper.href :=
            "https://www.facebook.com/tr?id=1&ev=PageView" |}
  /\ CheerioScraper.isValidMediaUrl Whatwg.URL_new
       "https://www.facebook.com/tr?id=1&ev=PageView" = true.
Proof. vm_compute. split; reflexivity. Qed.

(** The tests the filter makes, in full: it accepts a resolved URL exactly
    when it parses, its scheme is not [data:], its host name contains none
    of the entries of [blockedDomains], and its lower-cased path contains
    neither [1x1] nor [pixel]. *)
Theorem isValidMediaUrl_accepts_exactly
    (URL_new : string -> option string -> result CheerioScraper.URL)
    (u : string) :
  CheerioScraper.isValidMediaUrl URL_new u = true
  <-> exists urlObj,
        URL_new u None = Ok urlObj
        /\ CheerioScraper.protocol urlObj <> "data:"
        /\ (forall domain, domain ∈ CheerioScraper.blockedDomains ->
              Js.includes (CheerioScraper.hostname urlObj) domain = false)
        /\ Js.includes (Js.toLowerCase (CheerioScraper.pathname urlObj)) "1x1"
           = false
        /\ Js.includes (Js.toLowerCase (CheerioScraper.pathname urlObj)) "pixel"
           = false.
Proof.
  unfold CheerioScraper.isValidMediaUrl.
  destruct (URL_new u None) as [urlObj|e]; [|split; [done | by intros (? & [=] & _)]].
  destruct (String.eqb_spec (CheerioScraper.protocol urlObj) "data:") as [Hp|Hp].
  { split; [done|]. intros (o & [= <-] & Hn & _). by destruct Hn. }
  destruct (existsb _ CheerioScraper.blockedDomains) eqn:Hb.
  { split; [done|]. intros (o & [= <-] & _ & Hd & _).
    apply existsb_exists in Hb as (domain & Hin & Hinc).
    apply list_elem_of_In in Hin. rewrite (Hd domain Hin) in Hinc. done. }
  assert (Hdom : forall domain, domain ∈ CheerioScraper.blockedDomains ->
            Js.includes (CheerioScraper.hostname urlObj) domain = false).
  { intros domain Hin. apply list_elem_of_In in Hin.
    destruct (Js.includes (CheerioScraper.hostname urlObj) domain) eqn:Hi; [|done].
    assert (existsb (fun d => Js.includes (CheerioScraper.hostname urlObj) d)
              CheerioScraper.blockedDomains = true) as Hex
      by (apply existsb_exists; eauto).
    rewrite Hex in Hb. done. }
  cbv zeta.
  destruct (Js.includes _ "1x1") eqn:H1; cbn [orb].
  { split; [done|]. intros (o & [= <-] & _ & _ & H1' & _). congruence. }
  destruct (Js.includes _ "pixel") eqn:H2.
  { split; [done|]. intros (o & [= <-] & _ & _ & _ & H2'). congruence. }
  split; [|done]. intros _. exists urlObj. split_and!; done.
Qed.

(** *** The cache service *)

Section CacheFacts.
Context {T : Type}.
Implicit Types (cs : Cache.CacheService T) (c : Cache.RedisClient T).

Lemma get_returns (key : string) cs :
  Cache.get key cs = (Ok (read_value key cs), cs).
Proof.
  unfold Cache.get, Cache.isAvailable, read_value.
  destruct cs as [[c|] conn]; destruct conn; cbn; try reflexivity.
  unfold try_catch, bind, Cache.on_client, Cache.client_get, ret. cbn.
  destruct c as [d rej]; cbn. destruct rej; cbn; [reflexivity|].
  destruct (d !! key) as [[text ttl]|]; cbn; [|reflexivity].
  destruct text; reflexivity.
Qed.

Lemma set_returns (key : string) (value : T) (ttl : nat) cs :
  exists written, fst (Cache.set key value ttl cs) = Ok written.
Proof.
  unfold Cache.set. destruct (Cache.isAvailable cs); cbn; [|by eexists].
  unfold try_catch, bind, Cache.on_client, Cache.client_setEx, ret.
  destruct (Cache.client cs) as [c|]; cbn; [|by eexists].
  destruct (Cache.rejecting c); cbn; by eexists.
Qed.
End CacheFacts.

(** C8. A cache read never raises: [get] always returns, leaves the service
    as it was, and returns [null] whenever the store is unavailable, the
    underlying read throws, or the stored text does not parse. On a [null]
    read, [getOrSet] calls the supplied function, stores its value and
    returns that value unchanged (an error of the function itself is
    passed on); on a hit the function is not called. The value is stored
    under the key with the given TTL when the client is connected and the
    server answers, so that the next read returns it; the write is not
    observed, and when the store is unusable it changes nothing. *)
Theorem cache_reads_never_raise {T W : Type}
    (key : string) (cs : Cache.CacheService T) (fetchFn : M W T)
    (ttl : nat) (w : W) :
  (exists v, Cache.get key cs = (Ok v, cs))
  /\ (Cache.isAvailable cs = false -> fst (Cache.get key cs) = Ok None)
  /\ (forall c e, Cache.client cs = Some c ->
        fst (Cache.client_get key c) = Throw e ->
        fst (Cache.get key cs) = Ok None)
  /\ (forall c text n e, Cache.client cs = Some c ->
        Cache.client_get key c = (Ok (Some text), n) ->
        Cache.JSON_parse text = Throw e ->
        fst (Cache.get key cs) = Ok None)
  /\ (fst (Cache.get key cs) = Ok None ->
        Cache.getOrSet key fetchFn ttl (cs, w)
        = match fetchFn w with
          | (Ok value, w') =>
              (Ok value, (snd (Cache.set key value ttl cs), w'))
          | (Throw e, w') => (Throw e, (cs, w'))
          end)
  /\ (forall v, fst (Cache.get key cs) = Ok (Some v) ->
        Cache.getOrSet key fetchFn ttl (cs, w) = (Ok v, (cs, w)))
  /\ (forall value, exists written,
        fst (Cache.set key value ttl cs) = Ok written)
  /\ (forall c value w',
        Cache.client cs = Some c -> Cache.isConnected cs = true ->
        Cache.rejecting c = false ->
        fst (Cache.get key cs) = Ok None ->
        fetchFn w = (Ok value, w') ->
        let stored :=
          {| Cache.client :=
               Some {| Cache.data :=
                         <[key := (Cache.JsonOf value, ttl)]> (Cache.data c);
                       Cache.rejecting := false |};
             Cache.isConnected := true |} in
        Cache.getOrSet key fetchFn ttl (cs, w) = (Ok value, (stored, w'))
        /\ Cache.get key stored = (Ok (Some value), stored)
        /\ forall other, other <> key ->
             fst (Cache.get other stored) = fst (Cache.get other cs))
  /\ (forall value w',
        Cache.isAvailable cs = false
        \/ (exists c, Cache.client cs = Some c /\ Cache.rejecting c = true) ->
        fetchFn w = (Ok value, w') ->
        Cache.getOrSet key fetchFn ttl (cs, w) = (Ok value, (cs, w'))).
Proof.
  split_and!.
  - eexists. apply get_returns.
  - intros Hoff. rewrite get_returns. cbn. f_equal.
    unfold read_value, Cache.isAvailable in *.
    destruct (Cache.client cs); [|done].
    destruct (Cache.isConnected cs); [|done].
    rewrite bool_decide_eq_true_2 in Hoff by eauto. done.
  - intros c e Hc He. rewrite get_returns. cbn. f_equal.
    unfold read_value. rewrite Hc.
    unfold Cache.client_get in He. destruct (Cache.rejecting c); [|done].
    by rewrite andb_false_r.
  - intros c text n e Hc Hget Hparse. rewrite get_returns. cbn. f_equal.
    unfold read_value. rewrite Hc.
    unfold Cache.client_get in Hget.
    destruct (Cache.rejecting c); [done|].
    destruct (Cache.isConnected cs); [|done]. cbn.
    injection Hget as Hget _.
    destruct (Cache.data c !! key) as [[text' ttl']|]; [|done].
    cbn in Hget. injection Hget as ->. by destruct text.
  - intros Hnone. unfold Cache.getOrSet. rewrite get_returns in *.
    cbn in Hnone. injection Hnone as ->.
    by destruct (fetchFn w) as [[value|e] w'].
  - intros v Hsome. unfold Cache.getOrSet. rewrite get_returns in *.
    cbn in Hsome. injection Hsome as ->. done.
  - intros value. apply set_returns.
  - intros c value w' Hc Hconn Hrej Hnone Hfetch. cbv zeta.
    destruct cs as [cl conn], c as [d rej]. cbn in Hc, Hconn, Hrej.
    subst cl conn rej.
    assert (Hset : Cache.set key value ttl
                     {| Cache.client := Some {| Cache.data := d;
                                                Cache.rejecting := false |};
                        Cache.isConnected := true |}
                   = (Ok true,
                      {| Cache.client :=
                           Some {| Cache.data :=
                                     <[key := (Cache.JsonOf value, ttl)]> d;
                                   Cache.rejecting := false |};
                         Cache.isConnected := true |})).
    { unfold Cache.set, Cache.isAvailable.
      cbn [Cache.client Cache.isConnected andb].
      rewrite bool_decide_eq_true_2 by eauto. reflexivity. }
    split_and!.
    + unfold Cache.getOrSet. rewrite get_returns in *.
      cbn [fst] in Hnone. injection Hnone as ->.
      by rewrite Hfetch, Hset.
    + rewrite get_returns. f_equal. f_equal. unfold read_value.
      cbn [Cache.client Cache.isConnected Cache.rejecting Cache.data
           andb negb].
      by rewrite lookup_insert_eq.
    + intros other Hne. rewrite !get_returns. cbn [fst]. f_equal.
      unfold read_value.
      cbn [Cache.client Cache.isConnected Cache.rejecting Cache.data
           andb negb].
      by rewrite lookup_insert_ne.
  - intros value w' Hcase Hfetch.
    assert (Hnone : read_value key cs = None).
    { unfold read_value. destruct Hcase as [Hoff|(c & Hc & Hrej)].
      - unfold Cache.isAvailable in Hoff.
        destruct (Cache.client cs); [|done].
        destruct (Cache.isConnected cs); [|done].
        rewrite bool_decide_eq_true_2 in Hoff by eauto. done.
      - rewrite Hc, Hrej. by rewrite andb_false_r. }
    assert (Hset : snd (Cache.set key value ttl cs) = cs).
    { unfold Cache.set. destruct Hcase as [Hoff|(c & Hc & Hrej)].
      - by rewrite Hoff.
      - destruct (Cache.isAvailable cs); [|done]. cbn [negb].
        unfold try_catch, bind, ret, Cache.on_client, Cache.client_setEx.
        rewrite Hc, Hrej. cbn.
        destruct cs as [cl conn], c as [d rej]. cbn in *. by subst. }
    unfold Cache.getOrSet. rewrite get_returns, Hnone, Hfetch. by rewrite Hset.
Qed.

Lemma cache_reads_never_raise_witness :
  let fetchFn : M unit (list ScrapedMedia) :=
    fun w => (Ok [Scenario.picture], w) in
  let out := Cache.getOrSet "media:list:1:20:all:" fetchFn 120
               (Scenario.online, tt) in
  fst out = Ok [Scenario.picture]
  /\ Cache.get "media:list:1:20:all:" (fst (snd out))
     = (Ok (Some [Scenario.picture]), fst (snd out))
  /\ fst (Cache.get "media:list:1:20:all:" Scenario.offline) = Ok None.
Proof.
  cbv zeta.
  pose proof (cache_reads_never_raise "media:list:1:20:all:" Scenario.online
                (fun w : unit => (Ok [Scenario.picture], w)) 120 tt) as H.
  destruct H as (_ & _ & _ & _ & _ & _ & _ & Hstore & _).
  destruct (Hstore {| Cache.data := ∅; Cache.rejecting := false |}
              [Scenario.picture] tt eq_refl eq_refl eq_refl eq_refl eq_refl)
    as (Hrun & Hread & _).
  rewrite Hrun. cbn [fst snd]. split_and!; [reflexivity | exact Hread |].
  by vm_compute.
Defined.

(** *** The worker *)

(** The first two steps of the handler on an existing job: the status
    write, then the cache read, which changes nothing. *)
Lemma processScrapeJob_unfold router now jobId pageUrl app j :
  scrapeJobs (db app) !! jobId = Some j ->
  ScrapeQueue.cacheHit pageUrl app = false ->
  success (router pageUrl) = true ->
  ScrapeQueue.processScrapeJob router now jobId pageUrl app
  = (if 0 <? length (media (router pageUrl)) then
       do! liftDb (MediaService.createMany now jobId pageUrl
                     (media (router pageUrl))) in
       do! liftCache (Cache.set (Cache.urlCache pageUrl)
                        (media (router pageUrl)) Cache.ttl_urlCache) in
       liftCache Cache.invalidateMediaCaches
     else ret tt)%js
      {| db := snd (JobService.updateStatus jobId processing None (db app));
         cache := cache app;
         jobCompletionTracker := jobCompletionTracker app;
         queue := queue app |}.
Proof.
  intros Hj Hmiss Hs.
  unfold ScrapeQueue.cacheHit in Hmiss. rewrite get_returns in Hmiss.
  cbn [fst] in Hmiss.
  unfold ScrapeQueue.processScrapeJob, try_catch.
  unfold bind at 1. unfold liftDb at 1. unfold JobService.updateStatus.
  rewrite Hj. cbn [fst snd].
  unfold bind at 1. unfold liftCache at 1. cbn [cache db jobCompletionTracker queue].
  rewrite get_returns.
  assert (Hbody : forall (m : M App unit) a,
            (let '(r, s') := bind m (fun _ => ret tt) a in
             match r with Ok x => (Ok x, s') | Throw e => throw e s' end)
            = m a).
  { intros m a. unfold bind, ret, throw.
    destruct (m a) as [[[]|e] s']; reflexivity. }
  destruct (read_value (Cache.urlCache pageUrl) (cache app)) as [[|m ms]|];
    try discriminate; rewrite Hs; cbn [negb];
    match goal with |- context [bind ?m _ ?a] => exact (Hbody m a) end.
Qed.

(** C9 (as stated, does not hold). The relational state is not left as it
    was: the handler opens with the update of the job to [processing],
    before the cache and the router are consulted, so a [pending] job whose
    page yields success without media is [processing] afterwards. *)
Lemma empty_success_changes_the_job_row :
  let app := Scenario.submitted_with Scenario.stocked [Scenario.pageA] in
  let out := ScrapeQueue.processScrapeJob Scenario.blank 1100 1
               Scenario.pageA app in
  success (Scenario.blank Scenario.pageA) = true
  /\ media (Scenario.blank Scenario.pageA) = []
  /\ fst out = Ok tt
  /\ jobStatus 1 app = Some pending
  /\ jobStatus 1 (snd out) = Some processing
  /\ statusUpdates (db app) = []
  /\ statusUpdates (db (snd out)) = [(1, processing, None)]
  /\ db (snd out) <> db app.
Proof.
  cbv zeta. split_and!; try (vm_compute; reflexivity).
  intros Heq. apply (f_equal statusUpdates) in Heq. vm_compute in Heq.
  discriminate.
Qed.

(** C9, amended. When the router answers with success and no media for a
    job that is not in a terminal status, the handler completes the item,
    inserts no Media row, and leaves the cache as it was (no entry
    written, nothing invalidated). Its one relational write is the status
    update to [processing] that opens the handler: the job is [processing]
    afterwards with its other columns as before, and on a job that is
    already [processing] the job table is unchanged as well. *)
Theorem empty_success_writes_no_media_and_no_cache
    (router : string -> ScrapeResult) (now : Date) (jobId : nat)
    (pageUrl : string) (app : App) (j : ScrapeJob.t) :
  scrapeJobs (db app) !! jobId = Some j ->
  terminal (ScrapeJob.status j) = false ->
  ScrapeQueue.cacheHit pageUrl app = false ->
  success (router pageUrl) = true ->
  media (router pageUrl) = [] ->
  let out := ScrapeQueue.processScrapeJob router now jobId pageUrl app in
  fst out = Ok tt
  /\ mediaRows (db (snd out)) = mediaRows (db app)
  /\ nextMediaId (db (snd out)) = nextMediaId (db app)
  /\ cache (snd out) = cache app
  /\ scrapeJobs (db (snd out))
     = <[jobId := {| ScrapeJob.id := ScrapeJob.id j;
                     ScrapeJob.userId := ScrapeJob.userId j;
                     ScrapeJob.urls := ScrapeJob.urls j;
                     ScrapeJob.status := processing;
                     ScrapeJob.createdAt := ScrapeJob.createdAt j;
                     ScrapeJob.completedAt := ScrapeJob.completedAt j |}]>
         (scrapeJobs (db app))
  /\ statusUpdates (db (snd out))
     = (statusUpdates (db app) ++ [(jobId, processing, None)])%list
  /\ users (db (snd out)) = users (db app)
  /\ nextJobId (db (snd out)) = nextJobId (db app)
  /\ (forall other, other <> jobId ->
        scrapeJobs (db (snd out)) !! other = scrapeJobs (db app) !! other)
  /\ (ScrapeJob.status j = processing ->
        scrapeJobs (db (snd out)) = scrapeJobs (db app))
  /\ jobCompletionTracker (snd out) = jobCompletionTracker app
  /\ queue (snd out) = queue app.
Proof.
  intros Hj _ Hmiss Hs Hm. cbv zeta.
  rewrite (processScrapeJob_unfold _ _ _ _ _ j) by done.
  rewrite Hm. cbn [length Nat.ltb Nat.leb ret fst snd db cache
                   jobCompletionTracker queue].
  unfold JobService.updateStatus. rewrite Hj.
  cbn [snd mediaRows nextMediaId scrapeJobs statusUpdates users nextJobId].
  split_and!; try reflexivity.
  - intros other Hne. by rewrite lookup_insert_ne.
  - intros Hst. apply insert_id. rewrite Hj. f_equal.
    destruct j; cbn in *. by subst.
Qed.

Lemma empty_success_writes_no_media_and_no_cache_witness :
  let app := Scenario.submitted_with Scenario.stocked [Scenario.pageA] in
  let out := ScrapeQueue.processScrapeJob Scenario.blank 1100 1 Scenario.pageA app in
  fst out = Ok tt
  /\ mediaRows (db (snd out)) = []
  /\ cache (snd out) = Scenario.stocked
  /\ fst (Cache.get "stats:media" (cache (snd out))) = Ok (Some [])
  /\ fst (Cache.get (Cache.urlCache Scenario.pageA) (cache (snd out)))
     = Ok None
  /\ jobStatus 1 (snd out) = Some processing.
Proof.
  cbv zeta.
  pose proof (empty_success_writes_no_media_and_no_cache Scenario.blank 1100 1
                Scenario.pageA
                (Scenario.submitted_with Scenario.stocked [Scenario.pageA])
                {| ScrapeJob.id := 1; ScrapeJob.userId := None;
                   ScrapeJob.urls := [Scenario.pageA];
                   ScrapeJob.status := pending;
                   ScrapeJob.createdAt := 1000;
                   ScrapeJob.completedAt := None |}) as H.
  specialize (H ltac:(by vm_compute) eq_refl ltac:(by vm_compute)
                eq_refl eq_refl).
  cbv zeta in H. destruct H as (Hok & Hrows & _ & Hcache & Hjobs & _).
  split_and!; [exact Hok | exact Hrows | exact Hcache | | |].
  - rewrite Hcache. by vm_compute.
  - rewrite Hcache. by vm_compute.
  - unfold jobStatus. rewrite Hjobs, lookup_insert_eq. reflexivity.
Defined.

(** Invalidating the media caches keeps every key that neither matches
    [media:*] nor is [stats:media]. *)
Lemma invalidateMediaCaches_keeps {T} (cs : Cache.CacheService T)
    (c : Cache.RedisClient T) (k : string) :
  Cache.client cs = Some c ->
  glob "media:*" k = false ->
  k <> "stats:media" ->
  fst (Cache.invalidateMediaCaches cs) = Ok tt
  /\ exists c', Cache.client (snd (Cache.invalidateMediaCaches cs)) = Some c'
                /\ Cache.data c' !! k = Cache.data c !! k.
Proof.
  intros Hc Hglob Hne.
  destruct cs as [cl conn]. cbn in Hc. subst cl.
  destruct c as [d rej].
  unfold Cache.invalidateMediaCaches, Cache.deletePattern, Cache.delete,
    Cache.isAvailable, bind, try_catch, ret, Cache.on_client,
    Cache.client_keys, Cache.client_del.
  cbn [Cache.client Cache.isConnected Cache.rejecting Cache.data].
  set (keys := filter (fun k => glob "media:*" k = true) (map fst (map_to_list d))).
  assert (Hk : k ∉ keys).
  { unfold keys. rewrite list_elem_of_filter. intros [Hg _]. congruence. }
  clearbody keys.
  destruct conn; cbn [andb negb fst snd]; [|eauto].
  rewrite bool_decide_eq_true_2 by eauto. cbn [negb].
  destruct rej; cbn [fst snd Cache.client Cache.isConnected Cache.rejecting
                     Cache.data andb negb].
  { rewrite bool_decide_eq_true_2 by eauto. cbn. eauto. }
  destruct (0 <? length keys);
    cbn [fst snd Cache.client Cache.isConnected Cache.rejecting Cache.data
         andb negb];
    rewrite ?bool_decide_eq_true_2 by eauto;
    cbn [fst snd Cache.client Cache.isConnected Cache.rejecting Cache.data
         andb negb foldr].
  - split; [done|]. eexists; split; [done|]. cbn [Cache.data].
    rewrite lookup_delete_ne by done.
    by apply lookup_foldr_delete_not_elem_of.
  - split; [done|]. eexists; split; [done|]. cbn [Cache.data].
    by rewrite lookup_delete_ne.
Qed.

Lemma urlCache_is_no_media_key (u : string) :
  glob "media:*" (Cache.urlCache u) = false
  /\ Cache.urlCache u <> "stats:media".
Proof. split; [reflexivity | discriminate]. Qed.

(** C7 (as stated, does not hold). For a URL with a query string the key
    differs from [url:] followed by the base64url encoding, padded or not:
    the code encodes with the standard base64 alphabet, whose [/] is [_]
    in base64url. *)
Lemma urlCache_is_not_base64url :
  Cache.urlCache "https://example.com/?a=1"
  = "url:aHR0cHM6Ly9leGFtcGxlLmNvbS8/YT0x"
  /\ "url:" ++ Js.slice0 100 (Base64.base64url false "https://example.com/?a=1")
     = "url:aHR0cHM6Ly9leGFtcGxlLmNvbS8_YT0x"
  /\ "url:" ++ Js.slice0 100 (Base64.base64url true "https://example.com/?a=1")
     = "url:aHR0cHM6Ly9leGFtcGxlLmNvbS8_YT0x"
  /\ String.eqb (Cache.urlCache "https://example.com/?a=1")
       ("url:" ++ Js.slice0 100
                    (Base64.base64url false "https://example.com/?a=1"))
     = false.
Proof. vm_compute. split_and!; reflexivity. Qed.

(** C7, amended. The cache key of a URL is [url:] followed by the first 100
    characters of the standard, padded base64 encoding of the URL (at most
    104 characters in all); a successful extraction with at least one media
    item is written under that key with a TTL of 3600 seconds when the
    cache is available, and the entry survives the invalidation that
    follows. *)
Theorem url_cache_key_and_write
    (router : string -> ScrapeResult) (now : Date) (jobId : nat)
    (pageUrl : string) (app : App) (j : ScrapeJob.t)
    (c : Cache.RedisClient (list ScrapedMedia)) :
  scrapeJobs (db app) !! jobId = Some j ->
  Cache.client (cache app) = Some c ->
  Cache.isConnected (cache app) = true ->
  Cache.rejecting c = false ->
  ScrapeQueue.cacheHit pageUrl app = false ->
  success (router pageUrl) = true ->
  media (router pageUrl) <> [] ->
  let out := ScrapeQueue.processScrapeJob router now jobId pageUrl app in
  Cache.urlCache pageUrl = "url:" ++ Js.slice0 100 (Base64.base64 pageUrl)
  /\ String.length (Cache.urlCache pageUrl) <= 104
  /\ fst out = Ok tt
  /\ exists c',
       Cache.client (cache (snd out)) = Some c'
       /\ Cache.data c' !! Cache.urlCache pageUrl
          = Some (Cache.JsonOf (media (router pageUrl)), 3600).
Proof.
  intros Hj Hc Hconn Hrej Hmiss Hs Hm. cbv zeta.
  split; [reflexivity|].
  split.
  { unfold Cache.urlCache, Js.slice0. cbv [String.append]. cbn [String.length].
    generalize (Base64.base64 pageUrl). intros b.
    assert (forall n s, String.length (substring 0 n s) <= n) as Hlen.
    { induction n as [|n IH]; intros [|a s']; cbn; try lia.
      specialize (IH s'). lia. }
    specialize (Hlen 100 b). lia. }
  rewrite (processScrapeJob_unfold _ _ _ _ _ j) by done.
  destruct (media (router pageUrl)) as [|m ms] eqn:Hmedia; [done|].
  cbn [length Nat.ltb Nat.leb].
  destruct (cache app) as [cl conn] eqn:Hcache. cbn in Hc, Hconn. subst cl conn.
  destruct c as [d rej]. cbn in Hrej. subst rej.
  destruct (urlCache_is_no_media_key pageUrl) as [Hg Hne].
  destruct (invalidateMediaCaches_keeps
              {| Cache.client :=
                   Some {| Cache.data :=
                             <[Cache.urlCache pageUrl :=
                                 (Cache.JSON_stringify (m :: ms),
                                  Cache.ttl_urlCache)]> d;
                           Cache.rejecting := false |};
                 Cache.isConnected := true |}
              _ (Cache.urlCache pageUrl) eq_refl Hg Hne)
    as (Hok & c' & Hc' & Hdata).
  unfold bind, liftDb, liftCache, MediaService.createMany,
    JobService.updateStatus.
  rewrite Hj. cbn [snd scrapeJobs db]. rewrite lookup_insert_eq.
  cbn [fst snd db cache jobCompletionTracker queue].
  unfold Cache.set, Cache.isAvailable, try_catch, bind, Cache.on_client,
    Cache.client_setEx, ret.
  cbn [Cache.client Cache.isConnected Cache.rejecting Cache.data fst snd
       andb negb].
  rewrite bool_decide_eq_true_2 by eauto.
  cbn [negb fst snd db cache jobCompletionTracker queue
       Cache.client Cache.isConnected Cache.rejecting Cache.data].
  match goal with
  | |- context [Cache.invalidateMediaCaches ?cs] =>
      destruct (Cache.invalidateMediaCaches cs) as [r cs'] eqn:Hinv
  end.
  cbn [fst snd cache] in *. subst r.
  split; [reflexivity|].
  exists c'. split; [exact Hc'|].
  rewrite Hdata. cbn [Cache.data]. by rewrite lookup_insert_eq.
Qed.

Lemma url_cache_key_and_write_witness :
  let app := Scenario.submitted_with Scenario.online [Scenario.pageA] in
  let out := ScrapeQueue.processScrapeJob Scenario.working 1100 1 Scenario.pageA app in
  Cache.urlCache Scenario.pageA = "url:aHR0cHM6Ly9hLmV4YW1wbGUv"
  /\ fst out = Ok tt
  /\ exists c',
       Cache.client (cache (snd out)) = Some c'
       /\ Cache.data c' !! "url:aHR0cHM6Ly9hLmV4YW1wbGUv"
          = Some (Cache.JsonOf [Scenario.picture], 3600).
Proof.
  cbv zeta.
  destruct (url_cache_key_and_write Scenario.working 1100 1 Scenario.pageA
              (Scenario.submitted_with Scenario.online [Scenario.pageA])
              {| ScrapeJob.id := 1; ScrapeJob.userId := None;
                 ScrapeJob.urls := [Scenario.pageA]; ScrapeJob.status := pending;
                 ScrapeJob.createdAt := 1000; ScrapeJob.completedAt := None |}
              {| Cache.data := ∅; Cache.rejecting := false |})
    as (Hkey & _ & Hok & c' & Hc' & Hdata).
  - vm_compute. reflexivity.
  - reflexivity.
  - reflexivity.
  - reflexivity.
  - vm_compute. reflexivity.
  - reflexivity.
  - discriminate.
  - split; [vm_compute; reflexivity|].
    split; [exact Hok|].
    exists c'. split; [exact Hc'|]. exact Hdata.
Defined.

(** *** Basic authentication *)

Section SplitFacts.
Variable sep : ascii.
Abbreviation has_sep s := (Js.includes s (String sep EmptyString)).

Lemma has_sep_cons (a : ascii) (s : string) :
  has_sep (String a s) = Ascii.eqb sep a || has_sep s.
Proof.
  cbn [Js.includes String.prefix]. f_equal.
  destruct (ascii_dec sep a) as [->|Hne].
  - rewrite Ascii.eqb_refl. by destruct s.
  - by apply Ascii.eqb_neq in Hne as ->.
Qed.

Lemma has_sep_app (s1 s2 : string) :
  has_sep (s1 ++ s2) = has_sep s1 || has_sep s2.
Proof.
  induction s1 as [|a s1 IH].
  - reflexivity.
  - change (String a s1 ++ s2) with (String a (s1 ++ s2)).
    rewrite !has_sep_cons, IH. by rewrite orb_assoc.
Qed.

Lemma split_go_segments (cur s : string) :
  has_sep cur = false ->
  Forall (fun seg => has_sep seg = false) (Js.split_go sep cur s).
Proof.
  revert cur. induction s as [|a s IH]; intros cur Hcur; cbn [Js.split_go].
  - by constructor.
  - destruct (Ascii.eqb a sep) eqn:Ha.
    + constructor; [done|]. by apply IH.
    + apply IH. rewrite has_sep_app, Hcur, has_sep_cons.
      rewrite Ascii.eqb_sym, Ha. reflexivity.
Qed.

(** No segment of [s.split(sep)] contains the separator. *)
Lemma split_segments (s seg : string) :
  seg ∈ Js.split sep s -> has_sep seg = false.
Proof.
  intros Hin. pose proof (split_go_segments EmptyString s eq_refl) as Hall.
  rewrite Forall_forall in Hall. by apply Hall.
Qed.

Lemma split_go_app_sep (cur a rest : string) :
  has_sep a = false ->
  Js.split_go sep cur (a ++ String sep rest)
  = (cur ++ a) :: Js.split_go sep EmptyString rest.
Proof.
  revert cur. induction a as [|x a IH]; intros cur Ha.
  - change (EmptyString ++ String sep rest) with (String sep rest).
    cbn [Js.split_go]. rewrite Ascii.eqb_refl.
    replace (cur ++ EmptyString) with cur; [done|].
    clear. induction cur as [|y cur IHc]; [done|].
    change (String y cur ++ EmptyString) with (String y (cur ++ EmptyString)).
    by rewrite <- IHc.
  - rewrite has_sep_cons in Ha. apply orb_false_iff in Ha as [Hx Ha].
    change (String x a ++ String sep rest) with (String x (a ++ String sep rest)).
    cbn [Js.split_go]. rewrite Ascii.eqb_sym, Hx. rewrite IH by done.
    f_equal. clear. induction cur as [|y cur IHc]; [done|].
    change (String y cur ++ String x EmptyString)
      with (String y (cur ++ String x EmptyString)).
    change ((String y (cur ++ String x EmptyString)) ++ a)
      with (String y ((cur ++ String x EmptyString) ++ a)).
    change (String y cur ++ String x a) with (String y (cur ++ String x a)).
    by rewrite IHc.
Qed.
End SplitFacts.

(** C10 (as stated, does not hold). A user whose password contains a colon
    is not always refused: the middleware checks the part of the password
    before its first colon, and bcrypt reads at most the first 72 bytes of
    a password, so when the first colon comes after byte 72 that part
    verifies against the hash of the whole password and the request is
    passed on. *)
Lemma colon_after_byte_72_is_accepted :
  Js.includes Scenario.carol_password ":" = true
  /\ String.length (default "" (Js.split ":" Scenario.carol_password !! 0))
     = 72
  /\ User.passwordHash Scenario.carol
     = Scenario.bcrypt72_hash Scenario.carol_password
  /\ AuthMiddleware.basicAuth Base64.decode Scenario.bcrypt72_compare
       (Some ("Basic "
              ++ Base64.base64 ("carol:" ++ Scenario.carol_password)))
       Scenario.withCarol
     = AuthMiddleware.Next 3 "carol".
Proof. vm_compute. split_and!; reflexivity. Qed.

(** C10, amended. The middleware splits the decoded credentials at every
    colon and keeps the first two segments, so the password it checks
    never contains a colon: for the correct credentials of a user whose
    password is [first:rest] it checks [first]. The request is answered
    401 exactly when [first] is empty or does not verify against the
    stored hash, and is passed on with that user otherwise. *)
Theorem colon_password_is_checked_up_to_its_first_colon
    (Buffer_from_base64 : string -> string)
    (bcrypt_compare : string -> string -> bool)
    (d : Database) (user : User.t) (first rest authHeader : string) :
  let username := User.username user in
  let password := first ++ ":" ++ rest in
  let check :=
    negb (String.eqb first "")
    && bcrypt_compare first (User.passwordHash user) in
  users d !! username = Some user ->
  username <> "" ->
  Js.includes username ":" = false ->
  Js.includes first ":" = false ->
  Js.startsWith authHeader "Basic " = true ->
  Buffer_from_base64 (default "" (Js.split " " authHeader !! 1))
  = username ++ ":" ++ password ->
  (forall header p,
     snd (AuthMiddleware.credentials_of
            (Buffer_from_base64 (default "" (Js.split " " header !! 1))))
     = Some p ->
     Js.includes p ":" = false /\ p <> password)
  /\ AuthMiddleware.credentials_of (username ++ ":" ++ password)
     = (Some username, Some first)
  /\ (check = false ->
      exists message,
        AuthMiddleware.basicAuth Buffer_from_base64 bcrypt_compare
          (Some authHeader) d
        = AuthMiddleware.Respond 401 message)
  /\ (check = true ->
      AuthMiddleware.basicAuth Buffer_from_base64 bcrypt_compare
        (Some authHeader) d
      = AuthMiddleware.Next (User.id user) username).
Proof.
  intros username password check Huser Hu Hcu Hcf Hstart Hdec.
  assert (Hcolon : Js.includes password ":" = true).
  { unfold password.
    change (first ++ ":" ++ rest) with (first ++ String ":" rest).
    rewrite (has_sep_app ":"), (has_sep_cons ":"), Ascii.eqb_refl.
    apply orb_true_r. }
  assert (Hcred : AuthMiddleware.credentials_of (username ++ ":" ++ password)
                  = (Some username, Some first)).
  { unfold AuthMiddleware.credentials_of, Js.split, password.
    change (username ++ ":" ++ first ++ ":" ++ rest)
      with (username ++ String ":" (first ++ String ":" rest)).
    rewrite (split_go_app_sep ":" EmptyString username) by done.
    rewrite (split_go_app_sep ":" EmptyString first) by done.
    reflexivity. }
  assert (Hrun : AuthMiddleware.basicAuth Buffer_from_base64 bcrypt_compare
                   (Some authHeader) d
                 = if check
                   then AuthMiddleware.Next (User.id user) username
                   else AuthMiddleware.Respond 401
                          (if String.eqb first ""
                           then "Invalid credentials format"
                           else "Invalid username or password")).
  { unfold AuthMiddleware.basicAuth. rewrite Hstart. cbn [negb].
    rewrite Hdec, Hcred. cbn [Js.truthy]. apply String.eqb_neq in Hu.
    rewrite Hu. cbn [negb orb]. unfold check.
    destruct (String.eqb first ""); cbn [negb andb]; [reflexivity|].
    cbn [from_option id].
    unfold UserService.authenticate, UserService.verifyPassword,
      UserService.findByUsername. rewrite Huser.
    by destruct (bcrypt_compare first (User.passwordHash user)). }
  split_and!.
  - intros header p Hp. unfold AuthMiddleware.credentials_of in Hp.
    cbn [snd] in Hp.
    apply list_elem_of_lookup_2 in Hp. apply split_segments in Hp.
    split; [done|]. intros ->. congruence.
  - exact Hcred.
  - intros Hc. rewrite Hrun, Hc. by eexists.
  - intros Hc. by rewrite Hrun, Hc.
Qed.

Lemma colon_password_is_checked_up_to_its_first_colon_witness :
  (exists message,
     AuthMiddleware.basicAuth Base64.decode Scenario.toy_compare
       (Some ("Basic " ++ Base64.base64 "alice:se:cret")) Scenario.withAlice
     = AuthMiddleware.Respond 401 message)
  /\ AuthMiddleware.credentials_of "alice:se:cret" = (Some "alice", Some "se").
Proof.
  pose proof (colon_password_is_checked_up_to_its_first_colon Base64.decode
                Scenario.toy_compare Scenario.withAlice Scenario.alice
                "se" "cret" ("Basic " ++ Base64.base64 "alice:se:cret")) as H.
  cbv zeta in H.
  specialize (H eq_refl ltac:(discriminate) eq_refl eq_refl eq_refl
                ltac:(by vm_compute)).
  destruct H as (_ & Hcred & Hno & _).
  split; [apply Hno; by vm_compute | exact Hcred].
Defined.

(** *** The bound on the progress tracker *)

Section Steady.
Context {A B : Type}.

Lemma steady_ret (a : A) : steady (ret a).
Proof. by intros app. Qed.

Lemma steady_throw (e : string) : steady (throw (A := A) e).
Proof. by intros app. Qed.

Lemma steady_bind (m : M App A) (k : A -> M App B) :
  steady m -> (forall a, steady (k a)) -> steady (bind m k).
Proof.
  intros Hm Hk app. unfold bind. destruct (Hm app) as [Ht Hj].
  destruct (m app) as [[a|e] app1]; cbn [snd] in *; [|done].
  destruct (Hk a app1) as [Ht' Hj']. split; [congruence | eauto].
Qed.

Lemma steady_try_catch (m : M App A) (h : string -> M App A) :
  steady m -> (forall e, steady (h e)) -> steady (try_catch m h).
Proof.
  intros Hm Hh app. unfold try_catch. destruct (Hm app) as [Ht Hj].
  destruct (m app) as [[a|e] app1]; cbn [snd] in *; [done|].
  destruct (Hh e app1) as [Ht' Hj']. split; [congruence | eauto].
Qed.

Lemma steady_liftDb (m : M Database A) : keeps_jobs m -> steady (liftDb m).
Proof.
  intros Hm app. unfold liftDb. specialize (Hm (db app)).
  destruct (m (db app)) as [r d']; cbn in *. split; [done | exact Hm].
Qed.

Lemma steady_liftCache (m : M (Cache.CacheService (list ScrapedMedia)) A) :
  steady (liftCache m).
Proof.
  intros app. unfold liftCache. by destruct (m (cache app)) as [r c'].
Qed.
End Steady.

Lemma updateStatus_keeps_jobs id status completedAt :
  keeps_jobs (JobService.updateStatus id status completedAt).
Proof.
  intros d other Hsome. unfold JobService.updateStatus.
  destruct (scrapeJobs d !! id) eqn:Hid; cbn; [|done].
  destruct (decide (id = other)) as [->|Hne].
  - rewrite lookup_insert_eq. eauto.
  - by rewrite lookup_insert_ne.
Qed.

Lemma createMany_keeps_jobs now jobId sourceUrl items :
  keeps_jobs (MediaService.createMany now jobId sourceUrl items).
Proof.
  intros d other Hsome. unfold MediaService.createMany.
  by destruct (scrapeJobs d !! jobId).
Qed.

Lemma processScrapeJob_steady router now jobId pageUrl :
  steady (ScrapeQueue.processScrapeJob router now jobId pageUrl).
Proof.
  unfold ScrapeQueue.processScrapeJob, Cache.invalidateMediaCaches.
  apply steady_try_catch; [|intros e; apply steady_throw].
  apply steady_bind; [apply steady_liftDb, updateStatus_keeps_jobs|intros _].
  apply steady_bind; [apply steady_liftCache|intros cached].
  assert (Hscrape : steady
    (let result := router pageUrl in
     if negb (success result)
     then throw (if Js.truthy (error result) then default "" (error result)
                 else "Scraping failed")
     else
       (do! (if 0 <? length (media result)
             then
               do! liftDb (MediaService.createMany now jobId pageUrl
                             (media result)) in
               do! liftCache (Cache.set (Cache.urlCache pageUrl) (media result)
                                Cache.ttl_urlCache) in
               liftCache (do! Cache.deletePattern "media:*" in
                          do! Cache.delete "stats:media" in ret ())
             else ret ()) in
        ret ())%js)).
  { cbv zeta. destruct (negb _); [apply steady_throw|].
    apply steady_bind; [|intros _; apply steady_ret].
    destruct (0 <? _); [|apply steady_ret].
    apply steady_bind; [apply steady_liftDb, createMany_keeps_jobs|intros _].
    apply steady_bind; [apply steady_liftCache|intros _].
    apply steady_liftCache. }
  destruct cached as [[|m ms]|]; try exact Hscrape.
  apply steady_bind; [apply steady_liftDb, createMany_keeps_jobs|intros _].
  apply steady_ret.
Qed.

Lemma on_active_invariant jobId app :
  tracker_invariant app ->
  tracker_invariant (snd (QueueManager.on_active jobId app)).
Proof.
  intros [Hb He]. unfold QueueManager.on_active.
  destruct (jobCompletionTracker app !! jobId) eqn:Ht; [done|].
  unfold bind, liftDb, JobService.findById, modifyTracker, ret. cbn.
  destruct (scrapeJobs (db app) !! jobId) as [j|] eqn:Hj; cbn.
  - assert (app = {| db := db app; cache := cache app;
                     jobCompletionTracker := jobCompletionTracker app;
                     queue := queue app |}) as Heta by by destruct app.
    split; intros id t; cbn; intros Hl;
      (destruct (decide (jobId = id)) as [->|Hne];
       [rewrite lookup_insert_eq in Hl | rewrite lookup_insert_ne in Hl by done]).
    + injection Hl as <-. unfold within_total. cbn. lia.
    + eauto.
    + rewrite Hj. eauto.
    + eauto.
  - split; intros id t; cbn; eauto.
Qed.

Lemma on_outcome_invariant o now jobId app :
  tracker_invariant app ->
  tracker_invariant (snd (QueueManager.on_outcome o now jobId app)).
Proof.
  intros [Hb He].
  assert (Hgen : forall t t' status,
    jobCompletionTracker app !! jobId = Some t ->
    Tracker.total t' = Tracker.total t ->
    Tracker.completed t' + Tracker.failed t'
    = S (Tracker.completed t + Tracker.failed t) ->
    tracker_invariant
      (snd ((do! modifyTracker (insert jobId t') in
             if Tracker.total t' <=? Tracker.completed t' + Tracker.failed t'
             then
               do! liftDb (JobService.updateStatus jobId status (Some now)) in
               modifyTracker (delete jobId)
             else ret tt)%js app))).
  { intros t t' status Ht Htot Hsum.
    destruct (He jobId t Ht) as [j Hj].
    unfold bind, modifyTracker, liftDb, JobService.updateStatus, ret. cbn.
    destruct (Nat.leb_spec (Tracker.total t')
                (Tracker.completed t' + Tracker.failed t')) as [Hdone|Hmore].
    - cbn. rewrite Hj. cbn.
      split; intros id t0; cbn; intros Hl;
        (destruct (decide (jobId = id)) as [->|Hne];
         [by rewrite lookup_delete_eq in Hl
         |rewrite lookup_delete_ne, lookup_insert_ne in Hl by done]).
      + eauto.
      + rewrite lookup_insert_ne by done. eauto.
    - cbn.
      split; intros id t0; cbn; intros Hl;
        (destruct (decide (jobId = id)) as [->|Hne];
         [rewrite lookup_insert_eq in Hl | rewrite lookup_insert_ne in Hl by done]).
      + injection Hl as <-. unfold within_total. lia.
      + eauto.
      + eauto.
      + eauto. }
  destruct o; cbn [QueueManager.on_outcome];
    [unfold QueueManager.on_completed | unfold QueueManager.on_failed];
    (destruct (jobCompletionTracker app !! jobId) as [t|] eqn:Ht; [|done]);
    eapply Hgen; eauto; cbn; lia.
Qed.

(** The tracker bound holds throughout a run of the worker: every stored
    entry satisfies [completed + failed <= total]. *)
Lemma run_keeps_tracker_invariant attempts app :
  tracker_invariant app -> tracker_invariant (Bull.run attempts app).
Proof.
  unfold Bull.run. revert app.
  induction attempts as [|x attempts IH]; intros app Hinv; cbn [foldl]; [done|].
  apply IH. unfold Bull.attempt.
  pose proof (on_active_invariant (Bull.at_jobId x) app Hinv) as H1.
  set (app1 := snd (QueueManager.on_active (Bull.at_jobId x) app)) in *.
  destruct (processScrapeJob_steady (Bull.at_router x) (Bull.at_time x)
              (Bull.at_jobId x) (Bull.at_url x) app1) as [Ht Hj].
  destruct (ScrapeQueue.processScrapeJob _ _ _ _ app1) as [r app2].
  cbn [snd] in *.
  assert (H2 : tracker_invariant app2).
  { destruct H1 as [Hb He]. split; intros id t Hl; rewrite Ht in Hl; eauto. }
  destruct r.
  - exact (on_outcome_invariant QueueManager.item_completed _ _ _ H2).
  - exact (on_outcome_invariant QueueManager.item_failed _ _ _ H2).
Qed.

(** *** More on authentication *)

Lemma split_go_no_sep (sep : ascii) (cur a : string) :
  Js.includes a (String sep EmptyString) = false ->
  Js.split_go sep cur a = [cur ++ a].
Proof.
  revert cur. induction a as [|x a IH]; intros cur Ha; cbn [Js.split_go].
  - f_equal. induction cur as [|y cur IHc]; [done|].
    change (String y cur ++ EmptyString) with (String y (cur ++ EmptyString)).
    by rewrite <- IHc.
  - rewrite has_sep_cons in Ha. apply orb_false_iff in Ha as [Hx Ha].
    rewrite Ascii.eqb_sym, Hx. rewrite IH by done. f_equal.
    clear. induction cur as [|y cur IHc]; [done|].
    change (String y cur ++ String x EmptyString)
      with (String y (cur ++ String x EmptyString)).
    change ((String y (cur ++ String x EmptyString)) ++ a)
      with (String y ((cur ++ String x EmptyString) ++ a)).
    change (String y cur ++ String x a) with (String y (cur ++ String x a)).
    by rewrite IHc.
Qed.

(** The two names the middleware binds for credentials [u:p] free of
    further colons. *)
Lemma credentials_of_pair (u p : string) :
  Js.includes u ":" = false -> Js.includes p ":" = false ->
  AuthMiddleware.credentials_of (u ++ ":" ++ p) = (Some u, Some p).
Proof.
  intros Hu Hp. unfold AuthMiddleware.credentials_of, Js.split.
  change (u ++ ":" ++ p) with (u ++ String ":" p).
  rewrite (split_go_app_sep ":" EmptyString u) by done.
  rewrite (split_go_no_sep ":" EmptyString p) by done. reflexivity.
Qed.

(** The characters of a base64 text. *)
Lemma get_In (k : nat) (s : string) (c : ascii) :
  String.get k s = Some c -> In c (list_ascii_of_string s).
Proof.
  revert k. induction s as [|a s IH]; intros k; [done|].
  destruct k as [|k]; cbn.
  - intros [= ->]. by left.
  - intros Hk. right. eauto.
Qed.

Lemma digit_not_space (m : N) :
  Ascii.eqb " " (Base64.digit Base64.alphabet m) = false.
Proof.
  unfold Base64.digit.
  destruct (String.get _ Base64.alphabet) as [c|] eqn:Hget; [|reflexivity].
  apply get_In in Hget.
  assert (Hall : forallb (fun c => negb (Ascii.eqb " " c))
                   (list_ascii_of_string Base64.alphabet) = true)
    by (vm_compute; reflexivity).
  rewrite forallb_forall in Hall. specialize (Hall c Hget).
  by apply negb_true_iff in Hall.
Qed.

Lemma triples_ind (P : list N -> Prop) :
  P [] -> (forall a, P [a]) -> (forall a b, P [a; b]) ->
  (forall a b c l, P l -> P (a :: b :: c :: l)) ->
  forall l, P l.
Proof.
  intros H0 H1 H2 H3.
  assert (Hall : forall l, P l /\ (forall a, P (a :: l))
                           /\ (forall a b, P (a :: b :: l))).
  { induction l as [|x l (IH0 & IH1 & IH2)]; [by split_and!|].
    split_and!; [apply IH1 | intros; apply IH2 | intros; by apply H3]. }
  intros l. apply Hall.
Qed.

Lemma base64_no_space (s : string) :
  Js.includes (Base64.base64 s) " " = false.
Proof.
  unfold Base64.base64. generalize (Base64.bytes s). intros bs.
  induction bs as [|a|a b|a b c l IH] using triples_ind;
    [reflexivity| | |];
    cbn [Base64.encode_with]; unfold Base64.quad;
    cbn [take string_of_list_ascii];
    rewrite ?has_sep_app, ?has_sep_cons, ?digit_not_space; try reflexivity.
  rewrite IH. reflexivity.
Qed.

(** The second segment of the header the web client sends is its base64
    text. *)
Lemma client_header_segment (creds : string) :
  Js.startsWith ("Basic " ++ Base64.base64 creds) "Basic " = true
  /\ Js.split " " ("Basic " ++ Base64.base64 creds) !! 1
     = Some (Base64.base64 creds).
Proof.
  split; [by destruct (Base64.base64 creds)|].
  unfold Js.split.
  change ("Basic " ++ Base64.base64 creds)
    with ("Basic" ++ String " " (Base64.base64 creds)).
  rewrite (split_go_app_sep " " EmptyString "Basic") by reflexivity.
  rewrite (split_go_no_sep " " EmptyString) by apply base64_no_space.
  reflexivity.
Qed.

(** X1. [basicAuth] never passes a request on without a verified password:
    when it calls [next], the user it attached is the row of [users] named
    by the first segment of the credentials, and [bcrypt.compare] accepted
    the non-empty second segment against that row's hash; every other
    request is answered 401. *)
Theorem basicAuth_passes_only_verified_users
    (Buffer_from_base64 : string -> string)
    (bcrypt_compare : string -> string -> bool)
    (authorization : option string) (d : Database) :
  match AuthMiddleware.basicAuth Buffer_from_base64 bcrypt_compare
          authorization d with
  | AuthMiddleware.Next uid name =>
      exists authHeader user username password,
        authorization = Some authHeader
        /\ Js.startsWith authHeader "Basic " = true
        /\ AuthMiddleware.credentials_of
             (Buffer_from_base64 (default "" (Js.split " " authHeader !! 1)))
           = (Some username, Some password)
        /\ username <> "" /\ password <> ""
        /\ users d !! username = Some user
        /\ bcrypt_compare password (User.passwordHash user) = true
        /\ uid = User.id user /\ name = User.username user
  | AuthMiddleware.Respond status _ => status = 401
  end.
Proof.
  unfold AuthMiddleware.basicAuth.
  destruct authorization as [authHeader|]; [|reflexivity].
  destruct (Js.startsWith authHeader "Basic ") eqn:Hstart;
    cbn [negb]; [|reflexivity].
  destruct (AuthMiddleware.credentials_of _) as [uo po] eqn:Hcred.
  destruct uo as [username|]; cbn [Js.truthy negb orb]; [|reflexivity].
  destruct (String.eqb_spec username "") as [->|Hu]; cbn [negb orb];
    [reflexivity|].
  destruct po as [password|]; cbn [Js.truthy negb]; [|reflexivity].
  destruct (String.eqb_spec password "") as [->|Hp]; cbn [negb];
    [reflexivity|].
  cbn [from_option id].
  unfold UserService.authenticate, UserService.verifyPassword,
    UserService.findByUsername.
  destruct (users d !! username) as [user|] eqn:Huser; [|reflexivity].
  destruct (bcrypt_compare password (User.passwordHash user)) eqn:Hcmp;
    [|reflexivity].
  exists authHeader, user, username, password. split_and!; done.
Qed.

(** The header the interceptor builds for ASCII credentials. *)
Lemma latin1_ascii (s : string) :
  ApiClient.is_ascii s = true -> ApiClient.latin1 s = Some (Base64.bytes s).
Proof.
  unfold ApiClient.is_ascii, Base64.bytes.
  induction s as [|c s IH]; [reflexivity|].
  cbn [list_ascii_of_string map forallb ApiClient.latin1].
  intros [Hc Hs]%andb_true_iff. rewrite Hc, IH by done. reflexivity.
Qed.

Lemma is_ascii_app (s1 s2 : string) :
  ApiClient.is_ascii (s1 ++ s2)
  = ApiClient.is_ascii s1 && ApiClient.is_ascii s2.
Proof.
  unfold ApiClient.is_ascii, Base64.bytes.
  induction s1 as [|c s1 IH]; [reflexivity|].
  change (String c s1 ++ s2) with (String c (s1 ++ s2)).
  cbn [list_ascii_of_string map forallb]. by rewrite IH, andb_assoc.
Qed.

Lemma authorization_ascii (username password : string) :
  username <> "" -> password <> "" ->
  ApiClient.is_ascii username = true ->
  ApiClient.is_ascii password = true ->
  ApiClient.authorization (Some username) (Some password)
  = Ok (Some ("Basic " ++ Base64.base64 (username ++ ":" ++ password))).
Proof.
  intros Hu Hp Hau Hap. apply String.eqb_neq in Hu, Hp.
  unfold ApiClient.authorization, ApiClient.btoa. cbn [Js.truthy].
  rewrite Hu, Hp. cbn [negb andb from_option id].
  rewrite latin1_ascii; [reflexivity|].
  rewrite !is_ascii_app, Hau, Hap. reflexivity.
Qed.

(** X2. The header the web client builds for the right user name and
    password authenticates: when both are non-empty ASCII texts without
    a colon, the interceptor adds a header and [basicAuth] passes the
    request on with that user. *)
Theorem client_header_is_accepted
    (Buffer_from_base64 : string -> string)
    (bcrypt_compare : string -> string -> bool)
    (d : Database) (user : User.t) (username password : string) :
  users d !! username = Some user ->
  bcrypt_compare password (User.passwordHash user) = true ->
  username <> "" -> password <> "" ->
  ApiClient.is_ascii username = true ->
  ApiClient.is_ascii password = true ->
  Js.includes username ":" = false ->
  Js.includes password ":" = false ->
  Buffer_from_base64 (Base64.base64 (username ++ ":" ++ password))
  = username ++ ":" ++ password ->
  exists authHeader,
    ApiClient.authorization (Some username) (Some password)
    = Ok (Some authHeader)
    /\ AuthMiddleware.basicAuth Buffer_from_base64 bcrypt_compare
         (Some authHeader) d
       = AuthMiddleware.Next (User.id user) (User.username user).
Proof.
  intros Huser Hcmp Hu Hp Hau Hap Hcu Hcp Hdec.
  eexists. split; [by apply authorization_ascii|].
  apply String.eqb_neq in Hu, Hp.
  unfold AuthMiddleware.basicAuth.
  destruct (client_header_segment (username ++ ":" ++ password)) as [-> ->].
  cbn [negb from_option id]. rewrite Hdec, credentials_of_pair by done.
  cbn [Js.truthy]. rewrite Hu, Hp. cbn [negb orb from_option id].
  unfold UserService.authenticate, UserService.verifyPassword,
    UserService.findByUsername.
  by rewrite Huser, Hcmp.
Qed.

Lemma client_header_is_accepted_witness :
  exists authHeader,
    ApiClient.authorization (Some "bob") (Some "s3cret")
    = Ok (Some authHeader)
    /\ AuthMiddleware.basicAuth Base64.decode Scenario.toy_compare
         (Some authHeader) Users.db
       = AuthMiddleware.Next 2 "bob".
Proof.
  refine (client_header_is_accepted Base64.decode Scenario.toy_compare
            Users.db Users.bob "bob" "s3cret" _ _ _ _ _ _ _ _ _);
    first [ discriminate | vm_compute; reflexivity ].
Defined.

(** X3. Whatever follows a second colon in the credentials is ignored:
    credentials [u:p:anything] authenticate exactly as [u:p] does. *)
Theorem basicAuth_ignores_text_after_second_colon
    (Buffer_from_base64 : string -> string)
    (bcrypt_compare : string -> string -> bool)
    (d : Database) (authHeader authHeader' username password extra : string) :
  Js.startsWith authHeader "Basic " = true ->
  Js.startsWith authHeader' "Basic " = true ->
  Js.includes username ":" = false ->
  Js.includes password ":" = false ->
  Buffer_from_base64 (default "" (Js.split " " authHeader !! 1))
  = username ++ ":" ++ password ->
  Buffer_from_base64 (default "" (Js.split " " authHeader' !! 1))
  = username ++ ":" ++ password ++ ":" ++ extra ->
  AuthMiddleware.basicAuth Buffer_from_base64 bcrypt_compare
    (Some authHeader') d
  = AuthMiddleware.basicAuth Buffer_from_base64 bcrypt_compare
      (Some authHeader) d.
Proof.
  intros Hs Hs' Hu Hp Hdec Hdec'.
  unfold AuthMiddleware.basicAuth. rewrite Hs, Hs', Hdec, Hdec'.
  rewrite (credentials_of_pair username password) by done.
  replace (AuthMiddleware.credentials_of
             (username ++ ":" ++ password ++ ":" ++ extra))
    with (Some username, Some password); [reflexivity|].
  unfold AuthMiddleware.credentials_of, Js.split.
  change (username ++ ":" ++ password ++ ":" ++ extra)
    with (username ++ String ":" (password ++ String ":" extra)).
  rewrite (split_go_app_sep ":" EmptyString username) by done.
  rewrite (split_go_app_sep ":" EmptyString password) by done.
  reflexivity.
Qed.

Lemma basicAuth_ignores_text_after_second_colon_witness :
  AuthMiddleware.basicAuth Base64.decode Scenario.toy_compare
    (Some ("Basic " ++ Base64.base64 "bob:s3cret:not-the-password")) Users.db
  = AuthMiddleware.basicAuth Base64.decode Scenario.toy_compare
      (Some ("Basic " ++ Base64.base64 "bob:s3cret")) Users.db
  /\ AuthMiddleware.basicAuth Base64.decode Scenario.toy_compare
       (Some ("Basic " ++ Base64.base64 "bob:s3cret")) Users.db
     = AuthMiddleware.Next 2 "bob".
Proof.
  split; [|vm_compute; reflexivity].
  refine (basicAuth_ignores_text_after_second_colon Base64.decode
            Scenario.toy_compare Users.db _ _ "bob" "s3cret"
            "not-the-password" _ _ _ _ _ _);
    vm_compute; reflexivity.
Defined.

(** X4. [optionalAuth] attaches a user to the request exactly when
    [basicAuth] would pass the request on, and it attaches that same
    user. *)
Theorem optionalAuth_agrees_with_basicAuth
    (Buffer_from_base64 : string -> string)
    (bcrypt_compare : string -> string -> bool)
    (authorization : option string) (d : Database) (uid : nat)
    (name : string) :
  AuthMiddleware.optionalAuth Buffer_from_base64 bcrypt_compare
    authorization d = Some (uid, name)
  <-> AuthMiddleware.basicAuth Buffer_from_base64 bcrypt_compare
        authorization d = AuthMiddleware.Next uid name.
Proof.
  unfold AuthMiddleware.optionalAuth, AuthMiddleware.basicAuth.
  destruct authorization as [authHeader|]; [|done].
  destruct (Js.startsWith authHeader "Basic "); cbn [negb]; [|done].
  destruct (AuthMiddleware.credentials_of _) as [uo po].
  destruct (Js.truthy uo), (Js.truthy po); cbn [negb orb andb]; try done.
  destruct (UserService.authenticate _ _ _ _) as [user|]; [|done].
  split; intros [= <- <-]; reflexivity.
Qed.

(** X5. [GET /api/auth/me] identifies the user by the user name in the
    header alone: with a wrong password, for which [basicAuth] answers 401,
    it still answers with the user's data. *)
Theorem me_answers_without_checking_the_password
    (Buffer_from_base64 : string -> string)
    (bcrypt_compare : string -> string -> bool)
    (d : Database) (user : User.t) (username wrong : string) :
  users d !! username = Some user ->
  Js.includes username ":" = false ->
  Js.includes wrong ":" = false ->
  bcrypt_compare wrong (User.passwordHash user) = false ->
  Buffer_from_base64 (Base64.base64 (username ++ ":" ++ wrong))
  = username ++ ":" ++ wrong ->
  let authHeader := "Basic " ++ Base64.base64 (username ++ ":" ++ wrong) in
  AuthRoutes.me Buffer_from_base64 (Some authHeader) d
  = AuthRoutes.Success (User.id user) (User.username user)
      (User.createdAt user)
  /\ exists message,
       AuthMiddleware.basicAuth Buffer_from_base64 bcrypt_compare
         (Some authHeader) d
       = AuthMiddleware.Respond 401 message.
Proof.
  intros Huser Hcu Hcw Hcmp Hdec. cbv zeta.
  destruct (client_header_segment (username ++ ":" ++ wrong)) as [Hs Hseg].
  split.
  - unfold AuthRoutes.me. rewrite Hs, Hseg. cbn [negb from_option id].
    rewrite Hdec. unfold Js.split.
    change (username ++ ":" ++ wrong) with (username ++ String ":" wrong).
    rewrite (split_go_app_sep ":" EmptyString username) by done.
    cbn [lookup list_lookup from_option id].
    unfold UserService.findByUsername.
    change (EmptyString ++ username) with username. by rewrite Huser.
  - unfold AuthMiddleware.basicAuth. rewrite Hs, Hseg.
    cbn [negb from_option id]. rewrite Hdec, credentials_of_pair by done.
    destruct (negb _ || negb _); [by eexists|]. cbn [from_option id].
    unfold UserService.authenticate, UserService.verifyPassword,
      UserService.findByUsername.
    rewrite Huser, Hcmp. by eexists.
Qed.

Lemma me_answers_without_checking_the_password_witness :
  AuthRoutes.me Base64.decode
    (Some ("Basic " ++ Base64.base64 "bob:guess")) Users.db
  = AuthRoutes.Success 2 "bob" 5
  /\ exists message,
       AuthMiddleware.basicAuth Base64.decode Scenario.toy_compare
         (Some ("Basic " ++ Base64.base64 "bob:guess")) Users.db
       = AuthMiddleware.Respond 401 message.
Proof.
  refine (me_answers_without_checking_the_password Base64.decode
            Scenario.toy_compare Users.db Users.bob "bob" "guess" _ _ _ _ _);
    vm_compute; reflexivity.
Defined.

(** X6. A user whose password contains a colon can log in at
    [POST /api/auth/login], which checks the whole password, but the header
    the web client then sends with every request is answered 401 by
    [basicAuth] whenever the part of the password before its first colon
    does not verify on its own (ASCII credentials). *)
Theorem login_accepts_the_password_basicAuth_rejects
    (Buffer_from_base64 : string -> string)
    (bcrypt_compare : string -> string -> bool)
    (d : Database) (user : User.t) (username first rest : string) :
  let password := first ++ ":" ++ rest in
  users d !! username = Some user ->
  bcrypt_compare password (User.passwordHash user) = true ->
  bcrypt_compare first (User.passwordHash user) = false ->
  Js.includes first ":" = false ->
  username <> "" ->
  Js.includes username ":" = false ->
  ApiClient.is_ascii username = true ->
  ApiClient.is_ascii password = true ->
  Buffer_from_base64 (Base64.base64 (username ++ ":" ++ password))
  = username ++ ":" ++ password ->
  AuthRoutes.login bcrypt_compare username password d
  = AuthRoutes.Success (User.id user) (User.username user)
      (User.createdAt user)
  /\ exists authHeader message,
       ApiClient.authorization (Some username) (Some password)
       = Ok (Some authHeader)
       /\ AuthMiddleware.basicAuth Buffer_from_base64 bcrypt_compare
            (Some authHeader) d
          = AuthMiddleware.Respond 401 message.
Proof.
  intros password Huser Hcmp Hfirst Hcf Hu Hcu Hau Hap Hdec.
  split.
  { unfold AuthRoutes.login, UserService.authenticate,
      UserService.verifyPassword, UserService.findByUsername.
    by rewrite Huser, Hcmp. }
  assert (Hp : password <> "") by (by destruct first).
  exists ("Basic " ++ Base64.base64 (username ++ ":" ++ password)).
  pose proof (authorization_ascii username password Hu Hp Hau Hap) as Hhead.
  unfold AuthMiddleware.basicAuth.
  destruct (client_header_segment (username ++ ":" ++ password)) as [-> ->].
  cbn [negb from_option id]. rewrite Hdec.
  replace (AuthMiddleware.credentials_of (username ++ ":" ++ password))
    with (Some username, Some first).
  2:{ unfold AuthMiddleware.credentials_of, Js.split, password.
      change (username ++ ":" ++ first ++ ":" ++ rest)
        with (username ++ String ":" (first ++ String ":" rest)).
      rewrite (split_go_app_sep ":" EmptyString username) by done.
      rewrite (split_go_app_sep ":" EmptyString first) by done.
      reflexivity. }
  destruct (negb _ || negb _); [eexists; split; [exact Hhead | done]|].
  cbn [from_option id].
  unfold UserService.authenticate, UserService.verifyPassword,
    UserService.findByUsername. rewrite Huser, Hfirst.
  eexists; split; [exact Hhead | done].
Qed.

Lemma login_accepts_the_password_basicAuth_rejects_witness :
  AuthRoutes.login Scenario.toy_compare "alice" "se:cret" Users.db
  = AuthRoutes.Success 1 "alice" 0
  /\ exists authHeader message,
       ApiClient.authorization (Some "alice") (Some "se:cret")
       = Ok (Some authHeader)
       /\ AuthMiddleware.basicAuth Base64.decode Scenario.toy_compare
            (Some authHeader) Users.db
          = AuthMiddleware.Respond 401 message.
Proof.
  refine (login_accepts_the_password_basicAuth_rejects Base64.decode
            Scenario.toy_compare Users.db Scenario.alice "alice" "se" "cret"
            _ _ _ _ _ _ _ _ _);
    first [ discriminate | vm_compute; reflexivity ].
Defined.

(** *** More on the cache service *)

Section CacheOps.
Context {T : Type}.
Implicit Types (cs : Cache.CacheService T) (c : Cache.RedisClient T).

(** A service whose client is connected and whose server answers. *)
Lemma online_shape cs c :
  Cache.client cs = Some c -> Cache.isConnected cs = true ->
  Cache.rejecting c = false ->
  cs = {| Cache.client := Some {| Cache.data := Cache.data c;
                                  Cache.rejecting := false |};
          Cache.isConnected := true |}.
Proof. destruct cs as [cl conn], c as [d rej]; cbn. by intros [= ->] -> ->. Qed.

Lemma set_online (d : gmap string (Cache.StoredText T * nat)) key v ttl :
  Cache.set key v ttl
    {| Cache.client := Some {| Cache.data := d; Cache.rejecting := false |};
       Cache.isConnected := true |}
  = (Ok true,
     {| Cache.client :=
          Some {| Cache.data := <[key := (Cache.JsonOf v, ttl)]> d;
                  Cache.rejecting := false |};
        Cache.isConnected := true |}).
Proof.
  unfold Cache.set, Cache.isAvailable. cbn [Cache.client Cache.isConnected andb].
  rewrite bool_decide_eq_true_2 by eauto. reflexivity.
Qed.

Lemma invalidate_online (d : gmap string (Cache.StoredText T * nat)) :
  exists d',
    Cache.invalidateMediaCaches
      {| Cache.client := Some {| Cache.data := d; Cache.rejecting := false |};
         Cache.isConnected := true |}
    = (Ok tt,
       {| Cache.client := Some {| Cache.data := d'; Cache.rejecting := false |};
          Cache.isConnected := true |})
    /\ forall k, d' !! k = if media_key k then None else d !! k.
Proof.
  unfold Cache.invalidateMediaCaches, Cache.deletePattern, Cache.delete,
    Cache.isAvailable, bind, try_catch, ret, Cache.on_client,
    Cache.client_keys, Cache.client_del.
  cbn [Cache.client Cache.isConnected Cache.rejecting Cache.data andb negb
       fst snd].
  rewrite bool_decide_eq_true_2 by eauto. cbn [negb].
  set (keys := filter (fun k => glob "media:*" k = true) (map fst (map_to_list d))).
  assert (Hkeys : forall k, k ∈ keys <-> glob "media:*" k = true /\ is_Some (d !! k)).
  { intros k. unfold keys. rewrite list_elem_of_filter, list_elem_of_fmap.
    split; intros [Hg Hin]; (split; [done|]).
    - destruct Hin as ([k' x] & -> & Hin). apply elem_of_map_to_list in Hin.
      cbn. eauto.
    - destruct Hin as [x Hx]. exists (k, x). split; [done|].
      by apply elem_of_map_to_list. }
  clearbody keys.
  assert (Hdel : forall k,
            foldr delete d keys !! k
            = if glob "media:*" k then None else d !! k).
  { intros k. destruct (glob "media:*" k) eqn:Hg.
    - destruct (d !! k) as [x|] eqn:Hk.
      + apply lookup_foldr_delete. apply Hkeys. eauto.
      + destruct (decide (k ∈ keys)) as [Hin|Hnin].
        * by apply lookup_foldr_delete.
        * by rewrite lookup_foldr_delete_not_elem_of.
    - rewrite lookup_foldr_delete_not_elem_of; [done|].
      rewrite Hkeys. intros [? _]. congruence. }
  assert (Hfinal : forall d0 : gmap string (Cache.StoredText T * nat),
            (forall k, d0 !! k = if glob "media:*" k then None else d !! k) ->
            forall k, delete "stats:media" d0 !! k
                      = if media_key k then None else d !! k).
  { intros d0 Hd0 k. unfold media_key.
    destruct (String.eqb_spec k "stats:media") as [->|Hne].
    - rewrite lookup_delete_eq. by rewrite orb_true_r.
    - rewrite lookup_delete_ne by done. rewrite Hd0, orb_false_r. done. }
  destruct (0 <? length keys) eqn:Hlen;
    cbn [fst snd Cache.client Cache.isConnected Cache.rejecting Cache.data
         andb negb];
    rewrite ?bool_decide_eq_true_2 by eauto;
    cbn [fst snd Cache.client Cache.isConnected Cache.rejecting Cache.data
         andb negb foldr].
  - eexists. split; [reflexivity|]. by apply Hfinal.
  - eexists. split; [reflexivity|]. apply Hfinal. intros k.
    rewrite <- Hdel. apply Nat.ltb_ge in Hlen.
    destruct keys; [done | cbn in Hlen; lia].
Qed.
End CacheOps.

Lemma glob_star (k : string) : glob "*" k = true.
Proof.
  induction k as [|c k IH]; [reflexivity|].
  change (glob "*" (String c k)) with (glob "" (String c k) || glob "*" k).
  by rewrite IH, orb_true_r.
Qed.

Lemma glob_media_prefix (rest : string) : glob "media:*" ("media:" ++ rest) = true.
Proof. change (glob "*" rest = true). apply glob_star. Qed.

(** X7. A value written with [set] is what the next [get] of that key
    returns, with the TTL that was given, and the reads of all other keys
    are as before (connected client, answering server). *)
Theorem set_then_get {T : Type} (cs : Cache.CacheService T)
    (c : Cache.RedisClient T) (key : string) (value : T) (ttl : nat) :
  Cache.client cs = Some c ->
  Cache.isConnected cs = true ->
  Cache.rejecting c = false ->
  let cs' := snd (Cache.set key value ttl cs) in
  fst (Cache.set key value ttl cs) = Ok true
  /\ fst (Cache.get key cs') = Ok (Some value)
  /\ (exists c', Cache.client cs' = Some c'
                 /\ Cache.data c' !! key = Some (Cache.JsonOf value, ttl))
  /\ forall other, other <> key ->
       fst (Cache.get other cs') = fst (Cache.get other cs).
Proof.
  intros Hc Hconn Hrej. cbv zeta.
  rewrite (online_shape cs c Hc Hconn Hrej), set_online. cbn [fst snd].
  split_and!; [done| | |].
  - rewrite get_returns. unfold read_value. cbn. by rewrite lookup_insert_eq.
  - eexists. split; [reflexivity|]. cbn. by rewrite lookup_insert_eq.
  - intros other Hne. rewrite !get_returns. unfold read_value. cbn.
    by rewrite lookup_insert_ne.
Qed.

Lemma set_then_get_witness :
  let cs' := snd (Cache.set "url:abc" [Scenario.picture] 3600 Scenario.online) in
  fst (Cache.get "url:abc" cs') = Ok (Some [Scenario.picture])
  /\ fst (Cache.get "url:abd" cs') = Ok None.
Proof.
  cbv zeta.
  destruct (set_then_get Scenario.online
              {| Cache.data := ∅; Cache.rejecting := false |}
              "url:abc" [Scenario.picture] 3600 eq_refl eq_refl eq_refl)
    as (_ & Hget & _ & Hother).
  split; [exact Hget|].
  rewrite (Hother "url:abd") by discriminate. vm_compute. reflexivity.
Defined.

(** X8. Without a usable Redis (the client missing or not connected, or
    the server rejecting commands) every operation of the cache service is
    a no-op that does not throw: reads give [null], writes and deletes
    report [false], and the service is left exactly as it was. *)
Theorem unusable_cache_is_a_no_op {T : Type} (cs : Cache.CacheService T)
    (key pattern : string) (value : T) (ttl : nat) :
  Cache.isAvailable cs = false
  \/ (exists c, Cache.client cs = Some c /\ Cache.rejecting c = true) ->
  Cache.get key cs = (Ok None, cs)
  /\ Cache.set key value ttl cs = (Ok false, cs)
  /\ Cache.delete key cs = (Ok false, cs)
  /\ Cache.deletePattern pattern cs = (Ok false, cs)
  /\ Cache.invalidateMediaCaches cs = (Ok tt, cs).
Proof.
  intros Hcase.
  assert (Hops : Cache.get key cs = (Ok None, cs)
                 /\ Cache.set key value ttl cs = (Ok false, cs)
                 /\ (forall k, Cache.delete k cs = (Ok false, cs))
                 /\ (forall p, Cache.deletePattern p cs = (Ok false, cs))).
  { destruct (Cache.isAvailable cs) eqn:Hav.
    - destruct Hcase as [?|(c & Hc & Hrej)]; [done|].
      destruct cs as [cl conn], c as [d rej]; cbn in Hc, Hrej. subst cl rej.
      unfold Cache.get, Cache.set, Cache.delete, Cache.deletePattern.
      rewrite Hav. cbn [negb].
      unfold try_catch, bind, ret, Cache.on_client, Cache.client_get,
        Cache.client_setEx, Cache.client_del, Cache.client_keys.
      cbn. split_and!; reflexivity.
    - unfold Cache.get, Cache.set, Cache.delete, Cache.deletePattern.
      rewrite Hav. cbn [negb]. split_and!; reflexivity. }
  destruct Hops as (Hget & Hset & Hdel & Hpat).
  split_and!; [done..|].
  unfold Cache.invalidateMediaCaches, bind, ret.
  by rewrite Hpat, Hdel.
Qed.

Lemma unusable_cache_is_a_no_op_witness :
  Cache.get "url:abc" Scenario.offline = (Ok None, Scenario.offline)
  /\ Cache.set "url:abc" [Scenario.picture] 3600 Scenario.offline
     = (Ok false, Scenario.offline)
  /\ Cache.invalidateMediaCaches Scenario.offline = (Ok tt, Scenario.offline).
Proof.
  destruct (unusable_cache_is_a_no_op Scenario.offline "url:abc" "media:*"
              [Scenario.picture] 3600 (or_introl eq_refl))
    as (Hget & Hset & _ & _ & Hinv).
  split_and!; [exact Hget | exact Hset | exact Hinv].
Defined.

(** X9. With a connected client and an answering server,
    [invalidateMediaCaches] deletes exactly the keys matching [media:*]
    and the key [stats:media]: afterwards these read [null] and every
    other key reads as before. The keys of the media lists, of single
    media items and of the media statistics are among the deleted ones;
    the keys of jobs, job lists, queue statistics and URL extractions are
    not. *)
Theorem invalidateMediaCaches_deletes_exactly_the_media_keys {T : Type}
    (cs : Cache.CacheService T) (c : Cache.RedisClient T) :
  Cache.client cs = Some c ->
  Cache.isConnected cs = true ->
  Cache.rejecting c = false ->
  let out := Cache.invalidateMediaCaches cs in
  fst out = Ok tt
  /\ (forall k, fst (Cache.get k (snd out))
                = if media_key k then Ok None else fst (Cache.get k cs))
  /\ (forall page limit type search,
        media_key (CacheKeys.mediaList page limit type search) = true)
  /\ (forall id, media_key (CacheKeys.mediaById id) = true)
  /\ media_key CacheKeys.mediaStats = true
  /\ (forall id, media_key (CacheKeys.jobById id) = false)
  /\ (forall page limit, media_key (CacheKeys.jobList page limit) = false)
  /\ media_key CacheKeys.queueStats = false
  /\ (forall u, media_key (Cache.urlCache u) = false).
Proof.
  intros Hc Hconn Hrej. cbv zeta.
  rewrite (online_shape cs c Hc Hconn Hrej).
  destruct (invalidate_online (Cache.data c)) as (d' & -> & Hd').
  cbn [fst snd]. split_and!; try reflexivity.
  - intros k. rewrite !get_returns. cbn [fst]. unfold read_value. cbn.
    rewrite Hd'. by destruct (media_key k).
  - intros page limit type search. unfold media_key, CacheKeys.mediaList.
    match goal with
    | |- context [glob "media:*" ("media:list:" ++ ?r)] =>
        change ("media:list:" ++ r) with ("media:" ++ ("list:" ++ r))
    end.
    by rewrite glob_media_prefix.
  - intros id. unfold media_key, CacheKeys.mediaById.
    by rewrite glob_media_prefix.
Qed.

Lemma invalidateMediaCaches_deletes_exactly_the_media_keys_witness :
  let filled :=
    snd (Cache.set (Cache.urlCache "https://a.example/") [Scenario.picture] 3600
           (snd (Cache.set (CacheKeys.mediaList 1 20 None None) [] 60
                   Scenario.online))) in
  let out := Cache.invalidateMediaCaches filled in
  fst (Cache.get (CacheKeys.mediaList 1 20 None None) filled) = Ok (Some [])
  /\ fst (Cache.get (CacheKeys.mediaList 1 20 None None) (snd out)) = Ok None
  /\ fst (Cache.get (Cache.urlCache "https://a.example/") (snd out))
     = Ok (Some [Scenario.picture]).
Proof.
  cbv zeta.
  match goal with
  | |- context [Cache.invalidateMediaCaches ?cs] =>
      destruct (invalidateMediaCaches_deletes_exactly_the_media_keys cs
                  {| Cache.data :=
                       <[Cache.urlCache "https://a.example/" :=
                           (Cache.JsonOf [Scenario.picture], 3600)]>
                         (<[CacheKeys.mediaList 1 20 None None :=
                              (Cache.JsonOf [], 60)]> ∅);
                     Cache.rejecting := false |})
        as (_ & Hread & Hlist & _ & _ & _ & _ & _ & Hurl)
  end.
  - vm_compute. reflexivity.
  - reflexivity.
  - reflexivity.
  - split; [vm_compute; reflexivity|]. split.
    + rewrite Hread, Hlist. reflexivity.
    + rewrite Hread, Hurl. vm_compute. reflexivity.
Defined.

(** X10. [getOrSet] caches: after a miss on which the supplied function
    returned a value, the next [getOrSet] of the same key returns that
    value and does not run its function (connected client, answering
    server). *)
Theorem getOrSet_serves_the_second_call_from_the_cache {T W : Type}
    (cs : Cache.CacheService T) (c : Cache.RedisClient T) (key : string)
    (fetchFn : M W T) (ttl : nat) (w w' : W) (value : T) :
  Cache.client cs = Some c ->
  Cache.isConnected cs = true ->
  Cache.rejecting c = false ->
  fst (Cache.get key cs) = Ok None ->
  fetchFn w = (Ok value, w') ->
  exists cs',
    Cache.getOrSet key fetchFn ttl (cs, w) = (Ok value, (cs', w'))
    /\ forall (again : M W T) (ttl' : nat) (w2 : W),
         Cache.getOrSet key again ttl' (cs', w2) = (Ok value, (cs', w2)).
Proof.
  intros Hc Hconn Hrej Hmiss Hfetch.
  rewrite get_returns in Hmiss. cbn [fst] in Hmiss. injection Hmiss as Hmiss.
  exists (snd (Cache.set key value ttl cs)). split.
  - unfold Cache.getOrSet. rewrite get_returns, Hmiss, Hfetch. reflexivity.
  - intros again ttl' w2. unfold Cache.getOrSet. rewrite get_returns.
    rewrite (online_shape cs c Hc Hconn Hrej), set_online. cbn [snd].
    unfold read_value. cbn. by rewrite lookup_insert_eq.
Qed.

Lemma getOrSet_serves_the_second_call_from_the_cache_witness :
  exists cs',
    Cache.getOrSet "url:abc" (fun w : nat => (Ok [Scenario.picture], S w)) 60
      (Scenario.online, 0)
    = (Ok [Scenario.picture], (cs', 1))
    /\ Cache.getOrSet "url:abc" (fun w : nat => (Throw "database down", S w)) 60
         (cs', 1)
       = (Ok [Scenario.picture], (cs', 1)).
Proof.
  destruct (getOrSet_serves_the_second_call_from_the_cache Scenario.online
              {| Cache.data := ∅; Cache.rejecting := false |} "url:abc"
              (fun w : nat => (Ok [Scenario.picture], S w)) 60 0 1
              [Scenario.picture] eq_refl eq_refl eq_refl eq_refl eq_refl)
    as (cs' & Hfirst & Hsecond).
  exists cs'. split; [exact Hfirst | apply Hsecond].
Defined.

(** *** More on the worker *)

Lemma rows_found now jobId sourceUrl nextId items :
  map found (MediaService.rows now jobId sourceUrl nextId items)
  = map (fun item => (jobId, sourceUrl, mediaUrl item, type item)) items.
Proof.
  revert nextId. induction items as [|item items IH]; intros nextId;
    [reflexivity|].
  cbn [MediaService.rows map]. by rewrite IH.
Qed.

(** X11. On a cache hit the handler stores the cached media for this job
    and page and returns, without consulting the router: the outcome is
    the same for every router, and the cache is left as it was. *)
Theorem cache_hit_skips_the_router
    (router : string -> ScrapeResult) (now : Date) (jobId : nat)
    (pageUrl : string) (app : App) (j : ScrapeJob.t)
    (m : ScrapedMedia) (ms : list ScrapedMedia) :
  scrapeJobs (db app) !! jobId = Some j ->
  fst (Cache.get (Cache.urlCache pageUrl) (cache app)) = Ok (Some (m :: ms)) ->
  let out := ScrapeQueue.processScrapeJob router now jobId pageUrl app in
  fst out = Ok tt
  /\ (exists added,
        mediaRows (db (snd out)) = (mediaRows (db app) ++ added)%list
        /\ map found added
           = map (fun item => (jobId, pageUrl, mediaUrl item, type item))
                 (m :: ms))
  /\ cache (snd out) = cache app
  /\ jobStatus jobId (snd out) = Some processing
  /\ forall router',
       ScrapeQueue.processScrapeJob router' now jobId pageUrl app = out.
Proof.
  intros Hj Hhit. cbv zeta.
  rewrite get_returns in Hhit. cbn [fst] in Hhit. injection Hhit as Hhit.
  assert (Hrun : forall r,
    ScrapeQueue.processScrapeJob r now jobId pageUrl app
    = (Ok tt,
       {| db := snd (MediaService.createMany now jobId pageUrl (m :: ms)
                       (snd (JobService.updateStatus jobId processing None
                               (db app))));
          cache := cache app;
          jobCompletionTracker := jobCompletionTracker app;
          queue := queue app |})).
  { intros r. unfold ScrapeQueue.processScrapeJob, try_catch.
    unfold bind at 1. unfold liftDb at 1. unfold JobService.updateStatus.
    rewrite Hj. cbn [fst snd].
    unfold bind at 1. unfold liftCache at 1.
    cbn [cache db jobCompletionTracker queue].
    rewrite get_returns, Hhit.
    unfold bind, liftDb, ret, MediaService.createMany.
    cbn [fst snd db cache jobCompletionTracker queue scrapeJobs].
    rewrite lookup_insert_eq. reflexivity. }
  rewrite Hrun.
  split_and!; [reflexivity
              |exists (MediaService.rows now jobId pageUrl (nextMediaId (db app))
                         (m :: ms)); split; [|apply rows_found]
              |reflexivity | |apply Hrun];
    cbn [fst snd db cache];
    unfold jobStatus, MediaService.createMany, JobService.updateStatus;
    rewrite Hj; cbn [snd scrapeJobs]; rewrite lookup_insert_eq;
    cbn [snd scrapeJobs mediaRows nextMediaId db];
    rewrite ?lookup_insert_eq; reflexivity.
Qed.

Lemma cache_hit_skips_the_router_witness :
  let warm :=
    snd (ScrapeQueue.processScrapeJob Scenario.working 1100 1 Scenario.pageA
           (Scenario.submitted_with Scenario.online [Scenario.pageA])) in
  let out := ScrapeQueue.processScrapeJob Scenario.unreachable 3100 1
               Scenario.pageA warm in
  fst out = Ok tt /\ length (mediaRows (db (snd out))) = 2.
Proof.
  cbv zeta.
  match goal with
  | |- fst (ScrapeQueue.processScrapeJob _ _ _ _ ?warm) = _ /\ _ =>
      destruct (cache_hit_skips_the_router Scenario.unreachable 3100 1
                  Scenario.pageA warm
                  {| ScrapeJob.id := 1; ScrapeJob.userId := None;
                     ScrapeJob.urls := [Scenario.pageA];
                     ScrapeJob.status := processing;
                     ScrapeJob.createdAt := 1000;
                     ScrapeJob.completedAt := None |}
                  Scenario.picture [])
        as (Hok & Hrows & _)
  end.
  - vm_compute. reflexivity.
  - vm_compute. reflexivity.
  - split; [exact Hok | by vm_compute].
Defined.

(** X12. When the router reports failure (and the cache has no entry for
    the page) the handler throws the router's error message, or
    [Scraping failed] when there is none, so that the queue retries the
    item; it stores no media and writes nothing to the cache, and the job
    is left in [processing]. *)
Theorem failed_scrape_throws_and_stores_nothing
    (router : string -> ScrapeResult) (now : Date) (jobId : nat)
    (pageUrl : string) (app : App) (j : ScrapeJob.t) :
  scrapeJobs (db app) !! jobId = Some j ->
  ScrapeQueue.cacheHit pageUrl app = false ->
  success (router pageUrl) = false ->
  let out := ScrapeQueue.processScrapeJob router now jobId pageUrl app in
  fst out = Throw (match error (router pageUrl) with
                   | Some msg => if String.eqb msg "" then "Scraping failed"
                                 else msg
                   | None => "Scraping failed"
                   end)
  /\ mediaRows (db (snd out)) = mediaRows (db app)
  /\ cache (snd out) = cache app
  /\ jobStatus jobId (snd out) = Some processing
  /\ jobCompletedAt jobId (snd out) = Some (ScrapeJob.completedAt j).
Proof.
  intros Hj Hmiss Hs. cbv zeta.
  unfold ScrapeQueue.cacheHit in Hmiss. rewrite get_returns in Hmiss.
  cbn [fst] in Hmiss.
  assert (Hmsg : (if Js.truthy (error (router pageUrl))
                  then default "" (error (router pageUrl))
                  else "Scraping failed")
                 = match error (router pageUrl) with
                   | Some msg => if String.eqb msg "" then "Scraping failed"
                                 else msg
                   | None => "Scraping failed"
                   end).
  { destruct (error (router pageUrl)) as [msg|]; cbn; [|done].
    by destruct (String.eqb msg ""). }
  assert (Hrun :
    ScrapeQueue.processScrapeJob router now jobId pageUrl app
    = (Throw (match error (router pageUrl) with
              | Some msg => if String.eqb msg "" then "Scraping failed"
                            else msg
              | None => "Scraping failed"
              end),
       {| db := snd (JobService.updateStatus jobId processing None (db app));
          cache := cache app;
          jobCompletionTracker := jobCompletionTracker app;
          queue := queue app |})).
  { unfold ScrapeQueue.processScrapeJob, try_catch.
    unfold bind at 1. unfold liftDb at 1. unfold JobService.updateStatus.
    rewrite Hj. cbn [fst snd].
    unfold bind at 1. unfold liftCache at 1.
    cbn [cache db jobCompletionTracker queue].
    rewrite get_returns.
    destruct (read_value (Cache.urlCache pageUrl) (cache app)) as [[|m ms]|];
      try discriminate; rewrite Hs; cbn [negb]; unfold throw;
      rewrite Hmsg; reflexivity. }
  rewrite Hrun. unfold jobStatus, jobCompletedAt, JobService.updateStatus.
  rewrite Hj. cbn [fst snd db cache mediaRows scrapeJobs].
  rewrite lookup_insert_eq. split_and!; reflexivity.
Qed.

Lemma failed_scrape_throws_and_stores_nothing_witness :
  let out := ScrapeQueue.processScrapeJob Scenario.unreachable 1100 1
               Scenario.pageA (Scenario.submitted [Scenario.pageA]) in
  fst out = Throw "timeout of 30000ms exceeded"
  /\ mediaRows (db (snd out)) = []
  /\ jobStatus 1 (snd out) = Some processing.
Proof.
  cbv zeta.
  destruct (failed_scrape_throws_and_stores_nothing Scenario.unreachable 1100 1
              Scenario.pageA (Scenario.submitted [Scenario.pageA])
              {| ScrapeJob.id := 1; ScrapeJob.userId := None;
                 ScrapeJob.urls := [Scenario.pageA]; ScrapeJob.status := pending;
                 ScrapeJob.createdAt := 1000; ScrapeJob.completedAt := None |})
    as (Hthrow & Hrows & _ & Hst & _);
    [vm_compute; reflexivity..|].
  split_and!; [exact Hthrow | exact Hrows | exact Hst].
Defined.

(** X13. An attempt for a job that is not in the database changes nothing:
    the processor throws at its first statement, no tracker entry is
    created, and the [failed] event finds none to count. *)
Theorem attempt_for_a_missing_job_changes_nothing
    (router : string -> ScrapeResult) (now : Date) (jobId : nat)
    (pageUrl : string) (app : App) :
  scrapeJobs (db app) !! jobId = None ->
  jobCompletionTracker app !! jobId = None ->
  fst (ScrapeQueue.processScrapeJob router now jobId pageUrl app)
  = Throw "Record to update not found"
  /\ Bull.attempt router now jobId pageUrl app = app.
Proof.
  intros Hj Ht.
  assert (Hproc : ScrapeQueue.processScrapeJob router now jobId pageUrl app
                  = (Throw "Record to update not found", app)).
  { unfold ScrapeQueue.processScrapeJob, try_catch, bind, liftDb,
      JobService.updateStatus, throw. rewrite Hj. cbn. by destruct app. }
  split; [by rewrite Hproc|].
  unfold Bull.attempt.
  assert (Hact : QueueManager.on_active jobId app = (Ok tt, app)).
  { unfold QueueManager.on_active. rewrite Ht.
    unfold bind, liftDb, JobService.findById, ret. cbn. rewrite Hj.
    cbn. by destruct app. }
  rewrite Hact. cbn [snd]. rewrite Hproc.
  unfold QueueManager.on_failed. by rewrite Ht.
Qed.

Lemma attempt_for_a_missing_job_changes_nothing_witness :
  Bull.attempt Scenario.working 1100 7 Scenario.pageA
    (Scenario.submitted [Scenario.pageA])
  = Scenario.submitted [Scenario.pageA].
Proof.
  refine (proj2 (attempt_for_a_missing_job_changes_nothing Scenario.working
                   1100 7 Scenario.pageA (Scenario.submitted [Scenario.pageA])
                   _ _)); vm_compute; reflexivity.
Defined.

(** *** More on the router, the submission and the tracker *)

(** X14. The router's answer is always one of the two scrapers' results
    and never has fewer media items than the static extractor found. It
    reports failure only when the extractor failed; in particular, when
    the extractor failed and the renderer did not find more items than the
    extractor reported, the extractor's failure is returned even though
    the renderer succeeded. *)
Theorem router_never_returns_less_than_the_extractor
    (cheerioScraper : string -> ScrapeResult)
    (puppeteerScraper : string -> result ScrapeResult) (u : string) :
  let c := cheerioScraper u in
  let r := fst (ScraperManager.scrape cheerioScraper puppeteerScraper u) in
  (r = c \/ puppeteerScraper u = Ok r)
  /\ length (media c) <= length (media r)
  /\ (success r = false -> success c = false)
  /\ (forall p, success c = false -> puppeteerScraper u = Ok p ->
        length (media p) <= length (media c) -> r = c).
Proof.
  cbv zeta. unfold ScraperManager.scrape.
  destruct (success (cheerioScraper u) && _) eqn:Hfast; cbn [fst].
  { apply andb_true_iff in Hfast as [Hs _].
    split_and!; [by left | done | congruence | congruence]. }
  destruct (puppeteerScraper u) as [p|e] eqn:Hp.
  - destruct (success p && _) eqn:Hbetter; cbn [fst].
    + apply andb_true_iff in Hbetter as [Hps Hlt]. apply Nat.ltb_lt in Hlt.
      split_and!; [by right | lia | congruence |].
      intros p' _ [= <-] Hle. lia.
    + split_and!; [by left | done | | done].
      intros Hs. apply andb_false_iff in Hfast as [Hc|Hc]; [done|].
      done.
  - cbn [fst]. split_and!; [by left | done | done | done].
Qed.

(** X15. [POST /api/scrape] stores one new [pending] job, without
    [completed_at], holding the de-duplicated URLs, answers 201 with its
    id, and appends to the queue one item per distinct URL, in order, all
    for that job and with the same priority; the other jobs, the media
    table, the cache and the tracker are untouched. When the queue is not
    initialised the answer is the same 201 and nothing is enqueued. *)
Theorem post_scrape_enqueues_one_item_per_distinct_url
    (now : Date) (user : option (nat * string)) (urls : list string)
    (app : App) :
  let out := ScrapeRoutes.post_scrape now user urls app in
  let jobId := nextJobId (db app) in
  exists resp job,
    fst out = Ok resp
    /\ ScrapeRoutes.http_status resp = 201
    /\ ScrapeRoutes.job_id resp = jobId
    /\ ScrapeRoutes.status resp = pending
    /\ scrapeJobs (db (snd out)) !! jobId = Some job
    /\ ScrapeJob.id job = jobId
    /\ ScrapeJob.urls job = ScrapeRoutes.keep_first urls
    /\ ScrapeJob.status job = pending
    /\ ScrapeJob.completedAt job = None
    /\ (forall other, other <> jobId ->
          scrapeJobs (db (snd out)) !! other = scrapeJobs (db app) !! other)
    /\ nextJobId (db (snd out)) = S jobId
    /\ queue (snd out)
       = (fun items =>
            items ++ map (fun u => {| item_jobId := jobId; item_url := u;
                                      item_priority := now |})
                         (ScrapeRoutes.keep_first urls))%list
         <$> queue app
    /\ mediaRows (db (snd out)) = mediaRows (db app)
    /\ cache (snd out) = cache app
    /\ jobCompletionTracker (snd out) = jobCompletionTracker app.
Proof.
  cbv zeta. unfold ScrapeRoutes.post_scrape. rewrite spread_Set_keep_first.
  unfold bind, liftDb, try_catch, ret, JobService.create,
    QueueManager.addUrlsToQueue.
  cbn [db cache queue jobCompletionTracker fst snd ScrapeJob.id].
  set (job := {| ScrapeJob.id := nextJobId (db app);
                 ScrapeJob.userId :=
                   match user with
                   | Some (uid, _) => if uid =? 0 then None else Some uid
                   | None => None
                   end;
                 ScrapeJob.urls := ScrapeRoutes.keep_first urls;
                 ScrapeJob.status := pending;
                 ScrapeJob.createdAt := now;
                 ScrapeJob.completedAt := None |}).
  destruct (queue app); cbn [fst snd db scrapeJobs];
    (eexists; exists job; split; [reflexivity|];
     cbn [ScrapeRoutes.http_status ScrapeRoutes.job_id ScrapeRoutes.status
          ScrapeJob.id ScrapeJob.status];
     split_and!; try reflexivity;
     [by rewrite lookup_insert_eq
     |intros other Hne; by rewrite lookup_insert_ne]).
Qed.

(** *** The worker on the event loop *)

Lemma run_all_await {B} (op : M App B) app :
  EventLoop.run_all (EventLoop.await op) app = op app.
Proof. unfold EventLoop.await. cbn. by destruct (op app). Qed.

Lemma run_all_abind {A B} (a : EventLoop.Async A) (f : A -> EventLoop.Async B) app :
  EventLoop.run_all (EventLoop.abind a f) app
  = bind (EventLoop.run_all a) (fun x => EventLoop.run_all (f x)) app.
Proof.
  revert app. induction a as [[x|e]|C op k IH]; intros app; try reflexivity.
  cbn [EventLoop.abind EventLoop.run_all]. unfold bind.
  destruct (op app) as [r app']. rewrite IH. reflexivity.
Qed.

Lemma run_all_acatch {A} (a : EventLoop.Async A) (h : string -> EventLoop.Async A) app :
  EventLoop.run_all (EventLoop.acatch a h) app
  = try_catch (EventLoop.run_all a) (fun e => EventLoop.run_all (h e)) app.
Proof.
  revert app. induction a as [[x|e]|C op k IH]; intros app; try reflexivity.
  cbn [EventLoop.acatch EventLoop.run_all]. unfold try_catch.
  destruct (op app) as [r app']. rewrite IH. reflexivity.
Qed.

Lemma bind_ext {S A B} (m m' : M S A) (k k' : A -> M S B) s :
  (forall s, m s = m' s) -> (forall a s, k a s = k' a s) ->
  bind m k s = bind m' k' s.
Proof. intros Hm Hk. unfold bind. rewrite Hm. by destruct (m' s) as [[]]. Qed.

Lemma try_catch_ext {S A} (m m' : M S A) (h h' : string -> M S A) s :
  (forall s, m s = m' s) -> (forall e s, h e s = h' e s) ->
  try_catch m h s = try_catch m' h' s.
Proof. intros Hm Hk. unfold try_catch. rewrite Hm. by destruct (m' s) as [[]]. Qed.

Lemma liftCache_bind {A B} (m : M _ A) (k : A -> M _ B) app :
  liftCache (bind m k) app = bind (liftCache m) (fun x => liftCache (k x)) app.
Proof.
  unfold liftCache, bind. destruct (m (cache app)) as [[a|e] c]; reflexivity.
Qed.

Lemma liftCache_try_catch {A} (m : M _ A) (h : string -> M _ A) app :
  liftCache (try_catch m h) app
  = try_catch (liftCache m) (fun e => liftCache (h e)) app.
Proof.
  unfold liftCache, try_catch. destruct (m (cache app)) as [[a|e] c]; reflexivity.
Qed.


Lemma liftCache_ext {A} (m m' : M _ A) app :
  m (cache app) = m' (cache app) -> liftCache m app = liftCache m' app.
Proof. unfold liftCache. by intros ->. Qed.

Lemma run_all_return_liftCache {A} (a : A) app :
  EventLoop.run_all (EventLoop.Return (Ok a)) app = liftCache (ret a) app.
Proof. by destruct app. Qed.

Lemma run_all_deletePattern pattern app :
  EventLoop.run_all (EventLoop.deletePattern pattern) app
  = liftCache (Cache.deletePattern pattern) app.
Proof.
  unfold EventLoop.deletePattern. cbn [EventLoop.run_all].
  destruct (Cache.isAvailable (cache app)) eqn:Hav.
  - erewrite (liftCache_ext (Cache.deletePattern pattern));
      [|unfold Cache.deletePattern; rewrite Hav; reflexivity].
    rewrite run_all_acatch, liftCache_try_catch.
    apply try_catch_ext; [|intros e s; apply run_all_return_liftCache].
    intros s. rewrite run_all_abind, liftCache_bind.
    apply bind_ext; [intros; apply run_all_await|]. intros keys s1.
    rewrite run_all_abind, liftCache_bind.
    apply bind_ext; [|intros; apply run_all_return_liftCache].
    intros s2. destruct (0 <? length keys);
      [apply run_all_await | apply run_all_return_liftCache].
  - unfold liftCache, Cache.deletePattern. rewrite Hav. by destruct app.
Qed.

Lemma run_all_invalidateMediaCaches app :
  EventLoop.run_all EventLoop.invalidateMediaCaches app
  = liftCache Cache.invalidateMediaCaches app.
Proof.
  unfold EventLoop.invalidateMediaCaches, Cache.invalidateMediaCaches.
  rewrite run_all_abind, liftCache_bind.
  apply bind_ext; [apply run_all_deletePattern|]. intros _ s.
  rewrite run_all_abind, liftCache_bind.
  apply bind_ext; [intros; apply run_all_await|].
  intros; apply run_all_return_liftCache.
Qed.

Lemma run_all_processScrapeJob router now jobId pageUrl app :
  EventLoop.run_all (EventLoop.processScrapeJob router now jobId pageUrl) app
  = ScrapeQueue.processScrapeJob router now jobId pageUrl app.
Proof.
  unfold EventLoop.processScrapeJob, ScrapeQueue.processScrapeJob.
  rewrite run_all_acatch. apply try_catch_ext; [|reflexivity].
  intros s. rewrite run_all_abind.
  apply bind_ext; [intros; apply run_all_await|]. intros _ s1. cbv zeta.
  rewrite run_all_abind.
  apply bind_ext; [intros; apply run_all_await|]. intros cached s2.
  destruct cached as [[|m ms]|].
  2: { rewrite run_all_abind. apply bind_ext; [intros; apply run_all_await|].
       reflexivity. }
  all: rewrite run_all_abind; unfold bind at 1; rewrite run_all_await;
    unfold ret at 1; destruct (negb (success (router pageUrl)));
    [reflexivity|];
    rewrite run_all_abind; apply bind_ext; [|reflexivity];
    intros s3; destruct (0 <? length (media (router pageUrl))); [|reflexivity];
    rewrite run_all_abind; apply bind_ext; [intros; apply run_all_await|];
    intros _ s4; rewrite run_all_abind;
    apply bind_ext; [intros; apply run_all_await|];
    intros _ s5; apply run_all_invalidateMediaCaches.
Qed.

Lemma run_all_on_active jobId app :
  EventLoop.run_all (EventLoop.on_active jobId) app
  = QueueManager.on_active jobId app.
Proof.
  unfold EventLoop.on_active, QueueManager.on_active. cbn [EventLoop.run_all].
  destruct (jobCompletionTracker app !! jobId) as [t|]; [reflexivity|].
  rewrite bool_decide_eq_false_2 by (by intros [? ?]).
  rewrite run_all_abind. apply bind_ext; [intros; apply run_all_await|].
  intros [j|] s; [apply run_all_await|reflexivity].
Qed.

Lemma run_all_on_active_resumed jobId app :
  jobCompletionTracker app !! jobId = None ->
  EventLoop.run_all (EventLoop.on_active_resumed jobId) app
  = QueueManager.on_active jobId app.
Proof.
  intros Hn. unfold EventLoop.on_active_resumed, QueueManager.on_active.
  rewrite Hn. rewrite run_all_abind. apply bind_ext; [intros; apply run_all_await|].
  intros [j|] s; [apply run_all_await|reflexivity].
Qed.

Lemma run_all_on_outcome o now jobId app :
  EventLoop.run_all (EventLoop.on_outcome o now jobId) app
  = QueueManager.on_outcome o now jobId app.
Proof.
  unfold EventLoop.on_outcome. cbn [EventLoop.run_all].
  destruct o; cbn [QueueManager.on_outcome];
    [unfold QueueManager.on_completed|unfold QueueManager.on_failed];
    (destruct (jobCompletionTracker app !! jobId) as [t|]; [|reflexivity]);
    cbn [QueueManager.counted EventLoop.status_written
         Tracker.total Tracker.completed Tracker.failed];
    unfold bind at 1; unfold modifyTracker at 2; cbn [snd];
    unfold modifyTracker at 1; cbn [snd].
  - destruct (Tracker.total t <=? S (Tracker.completed t) + Tracker.failed t);
      [|reflexivity].
    rewrite run_all_abind. apply bind_ext; [intros; apply run_all_await|].
    intros; apply run_all_await.
  - destruct (Tracker.total t <=? Tracker.completed t + S (Tracker.failed t));
      [|reflexivity].
    rewrite run_all_abind. apply bind_ext; [intros; apply run_all_await|].
    intros; apply run_all_await.
Qed.

Lemma handler_runs c (a : EventLoop.Async unit) :
  forall app w ts1 ts2,
    rtc (EventLoop.step c)
      {| EventLoop.state := app; EventLoop.waiting := w;
         EventLoop.threads := ts1 ++ EventLoop.handler a :: ts2 |}
      {| EventLoop.state := snd (EventLoop.run_all a app);
         EventLoop.waiting := w; EventLoop.threads := ts1 ++ ts2 |}.
Proof.
  induction a as [r|B op k IH]; intros app w ts1 ts2.
  - apply rtc_once, EventLoop.step_handler_end.
  - eapply rtc_l; [apply EventLoop.step_handler|].
    cbn [EventLoop.run_all]. destruct (op app) as [r app']. apply IH.
Qed.

Lemma worker_runs c x (a : EventLoop.Async unit) :
  forall app w ts1 ts2,
    rtc (EventLoop.step c)
      {| EventLoop.state := app; EventLoop.waiting := w;
         EventLoop.threads := ts1 ++ EventLoop.worker x a :: ts2 |}
      {| EventLoop.state := snd (EventLoop.run_all a app);
         EventLoop.waiting := w;
         EventLoop.threads :=
           ts1 ++ EventLoop.handler
                    (EventLoop.on_outcome
                       (EventLoop.outcome_of (fst (EventLoop.run_all a app)))
                       (Bull.at_time x) (Bull.at_jobId x)) :: ts2 |}.
Proof.
  induction a as [r|B op k IH]; intros app w ts1 ts2.
  - apply rtc_once, EventLoop.step_worker_end.
  - eapply rtc_l; [apply EventLoop.step_worker|].
    cbn [EventLoop.run_all]. destruct (op app) as [r app']. apply IH.
Qed.

(** A processor followed by the handler of its outcome event. *)
Lemma worker_and_outcome_run c x app w ts :
  rtc (EventLoop.step c)
    {| EventLoop.state := app; EventLoop.waiting := w;
       EventLoop.threads :=
         EventLoop.worker x
           (EventLoop.processScrapeJob (Bull.at_router x) (Bull.at_time x)
              (Bull.at_jobId x) (Bull.at_url x)) :: ts |}
    {| EventLoop.state :=
         (let '(outcome, app2) :=
            ScrapeQueue.processScrapeJob (Bull.at_router x) (Bull.at_time x)
              (Bull.at_jobId x) (Bull.at_url x) app in
          match outcome with
          | Ok _ => snd (QueueManager.on_completed (Bull.at_time x)
                           (Bull.at_jobId x) app2)
          | Throw _ => snd (QueueManager.on_failed (Bull.at_time x)
                              (Bull.at_jobId x) app2)
          end);
       EventLoop.waiting := w; EventLoop.threads := ts |}.
Proof.
  eapply rtc_trans; [apply (worker_runs c x _ app w [] ts)|].
  cbn [List.app].
  eapply rtc_trans; [apply (handler_runs c _ _ w [] ts)|].
  cbn [List.app]. rewrite run_all_on_outcome, run_all_processScrapeJob.
  destruct (ScrapeQueue.processScrapeJob _ _ _ _ app) as [[[]|e] app2];
    apply rtc_refl.
Qed.

Lemma attempt_runs c x rest app :
  0 < c ->
  rtc (EventLoop.step c)
    {| EventLoop.state := app; EventLoop.waiting := x :: rest;
       EventLoop.threads := [] |}
    {| EventLoop.state :=
         Bull.attempt (Bull.at_router x) (Bull.at_time x) (Bull.at_jobId x)
           (Bull.at_url x) app;
       EventLoop.waiting := rest; EventLoop.threads := [] |}.
Proof.
  intros Hc. eapply rtc_l; [apply EventLoop.step_start; cbn; lia|].
  cbn [List.app].
  eapply rtc_trans; [apply (handler_runs c _ app rest [])|].
  cbn [List.app]. rewrite run_all_on_active.
  apply worker_and_outcome_run.
Qed.

Lemma run_reaches c attempts app :
  0 < c -> EventLoop.reaches c attempts app (Bull.run attempts app).
Proof.
  intros Hc. unfold EventLoop.reaches. revert app.
  induction attempts as [|x rest IH]; intros app; [apply rtc_refl|].
  eapply rtc_trans; [by apply attempt_runs|]. apply IH.
Qed.

(** X16. The tracker bound is kept by the runs of the worker in which
    attempts do not overlap. [Bull.run] makes the attempts one at a time,
    each handler finishing before the next event; that is a run of the
    worker on the event loop for every concurrency. If every stored
    tracker entry satisfies [completed + failed <= total] and belongs to
    an existing job before it, the same holds after it, whatever the jobs,
    pages and outcomes of the attempts. *)
Theorem tracker_bound_is_invariant (attempts : list Bull.Attempt) (app : App) :
  tracker_invariant app ->
  tracker_invariant (Bull.run attempts app)
  /\ forall concurrency,
       0 < concurrency ->
       EventLoop.reaches concurrency attempts app (Bull.run attempts app).
Proof.
  intros Hinv. split; [by apply run_keeps_tracker_invariant|].
  intros concurrency Hc. by apply run_reaches.
Qed.

Lemma tracker_bound_is_invariant_witness :
  tracker_invariant
    (Bull.run Scenario.first_two
       (Scenario.submitted [Scenario.pageA; Scenario.pageB; "https://c.example/"])).
Proof.
  apply (tracker_bound_is_invariant Scenario.first_two
           (Scenario.submitted
              [Scenario.pageA; Scenario.pageB; "https://c.example/"])).
  split; intros jobId t Hl; vm_compute in Hl; discriminate.
Defined.

(** *** A job from submission to its terminal status *)

Section Quiet.
Context {A B : Type}.

Lemma quiet_ret (a : A) : quiet (ret a).
Proof. by intros app. Qed.

Lemma quiet_throw (e : string) : quiet (throw (A := A) e).
Proof. by intros app. Qed.

Lemma quiet_bind (m : M App A) (k : A -> M App B) :
  quiet m -> (forall a, quiet (k a)) -> quiet (bind m k).
Proof.
  intros Hm Hk app. unfold bind. destruct (Hm app) as (H1 & H2 & H3).
  destruct (m app) as [[a|e] app1]; cbn [snd] in *; [|done].
  destruct (Hk a app1) as (H1' & H2' & H3'). split_and!; congruence.
Qed.

Lemma quiet_liftCache (m : M (Cache.CacheService (list ScrapedMedia)) A) :
  quiet (liftCache m).
Proof. intros app. unfold liftCache. by destruct (m (cache app)). Qed.
End Quiet.

Lemma quiet_createMany now jobId sourceUrl items :
  quiet (liftDb (MediaService.createMany now jobId sourceUrl items)).
Proof.
  intros app. unfold liftDb, MediaService.createMany.
  by destruct (scrapeJobs (db app) !! jobId).
Qed.

Ltac quiet_steps :=
  repeat first
    [ apply quiet_ret | apply quiet_throw | apply quiet_liftCache
    | apply quiet_createMany
    | apply quiet_bind; [|intros ?]
    | match goal with |- quiet (if ?b then _ else _) => destruct b end ].

(** The handler on an existing job: whatever it returns, its only change
    to the job table is the status of that job, its only status update is
    the one to [processing], and it leaves the tracker alone. *)
Lemma processScrapeJob_on_existing_job router now jobId pageUrl app j :
  scrapeJobs (db app) !! jobId = Some j ->
  exists r app2,
    ScrapeQueue.processScrapeJob router now jobId pageUrl app = (r, app2)
    /\ scrapeJobs (db app2)
       = <[jobId := {| ScrapeJob.id := ScrapeJob.id j;
                       ScrapeJob.userId := ScrapeJob.userId j;
                       ScrapeJob.urls := ScrapeJob.urls j;
                       ScrapeJob.status := processing;
                       ScrapeJob.createdAt := ScrapeJob.createdAt j;
                       ScrapeJob.completedAt := ScrapeJob.completedAt j |}]>
           (scrapeJobs (db app))
    /\ statusUpdates (db app2)
       = (statusUpdates (db app) ++ [(jobId, processing, None)])%list
    /\ jobCompletionTracker app2 = jobCompletionTracker app.
Proof.
  intros Hj.
  unfold ScrapeQueue.processScrapeJob, try_catch.
  unfold bind at 1. unfold liftDb at 1. unfold JobService.updateStatus.
  rewrite Hj. cbn [fst snd].
  match goal with
  | |- context [let '(_, _) := ?tail ?app1 in _] =>
      assert (Hq : quiet tail);
      [|destruct (Hq app1) as (H1 & H2 & H3);
        destruct (tail app1) as [[[]|e] s']]
  end.
  - apply quiet_bind; [apply quiet_liftCache|]. intros cached.
    destruct cached as [[|m ms]|]; cbv zeta; quiet_steps.
  - do 2 eexists. split; [reflexivity|]. cbn [snd db scrapeJobs statusUpdates
      jobCompletionTracker] in *. by split_and!.
  - do 2 eexists. split; [reflexivity|]. unfold throw.
    cbn [snd db scrapeJobs statusUpdates jobCompletionTracker] in *.
    by split_and!.
Qed.




(** The terminal writes among the status updates. *)
Lemma terminalWrites_app jobId app app' more :
  statusUpdates (db app') = (statusUpdates (db app) ++ more)%list ->
  terminalWrites jobId app'
  = (terminalWrites jobId app
     ++ filter (fun w => w.1.1 = jobId /\ terminal w.1.2 = true) more)%list.
Proof. intros H. unfold terminalWrites. by rewrite H, filter_app. Qed.


Lemma on_active_progress n c f jobId app :
  progress n c f jobId app ->
  db (snd (QueueManager.on_active jobId app)) = db app
  /\ jobCompletionTracker (snd (QueueManager.on_active jobId app)) !! jobId
     = Some {| Tracker.total := n; Tracker.completed := c;
               Tracker.failed := f |}.
Proof.
  intros [(j & Hj & Hlen) [Ht|(-> & -> & Ht)]];
    unfold QueueManager.on_active; rewrite Ht; [done|].
  unfold bind, liftDb, JobService.findById, modifyTracker.
  cbn [fst snd db jobCompletionTracker]. rewrite Hj.
  cbn [snd db jobCompletionTracker]. by rewrite lookup_insert_eq, Hlen.
Qed.

(** One attempt for a job in progress: before the last outcome the
    tracker counts it and no terminal status is written; the last outcome
    writes the terminal status and deletes the tracker entry. *)
Lemma attempt_step n c f x app :
  progress n c f (Bull.at_jobId x) app ->
  c + f < n ->
  let jobId := Bull.at_jobId x in
  let ok := Bull.processor_ok x app in
  let c' := if ok then S c else c in
  let f' := if ok then f else S f in
  let app' := Bull.attempt (Bull.at_router x) (Bull.at_time x) jobId
                (Bull.at_url x) app in
  if S (c + f) <? n then
    progress n c' f' jobId app'
    /\ terminalWrites jobId app' = terminalWrites jobId app
  else
    jobCompletionTracker app' !! jobId = None
    /\ jobStatus jobId app' = Some (if f' =? n then failed else completed)
    /\ jobCompletedAt jobId app' = Some (Some (Bull.at_time x))
    /\ terminalWrites jobId app'
       = (terminalWrites jobId app
          ++ [(jobId, if f' =? n then failed else completed,
               Some (Bull.at_time x))])%list.
Proof.
  intros Hp Hlt. cbv zeta.
  destruct (on_active_progress _ _ _ _ _ Hp) as [Hdb Htr].
  destruct Hp as [(j & Hj & Hlen) _].
  unfold Bull.processor_ok, Bull.attempt.
  set (app1 := snd (QueueManager.on_active (Bull.at_jobId x) app)) in *.
  clearbody app1.
  destruct (processScrapeJob_on_existing_job (Bull.at_router x)
              (Bull.at_time x) (Bull.at_jobId x) (Bull.at_url x) app1 j)
    as (r & app2 & Hrun & Hjobs & Hups & Htr2); [by rewrite Hdb|].
  rewrite Hrun. cbn [fst]. rewrite Hdb in Hjobs, Hups. rewrite <- Htr2 in Htr.
  clear Hrun Htr2 Hdb app1.
  assert (Hw : forall s, terminalWrites (Bull.at_jobId x) app
            = filter (fun w => w.1.1 = Bull.at_jobId x /\ terminal w.1.2 = true)
                (statusUpdates (db app) ++ [(s, processing, None)])%list).
  { intros s. unfold terminalWrites. rewrite filter_app.
    rewrite (filter_cons_False _ (s, processing, None)) by (cbn; intros [_ ?]; done).
    by rewrite filter_nil, app_nil_r. }
  assert (Hf : (f =? n) = false) by (apply Nat.eqb_neq; lia).
  destruct r as [[]|e];
    [unfold QueueManager.on_completed|unfold QueueManager.on_failed];
    rewrite Htr; cbn [Tracker.total Tracker.completed Tracker.failed];
    unfold bind, modifyTracker, liftDb, JobService.updateStatus, ret;
    cbn [fst snd db jobCompletionTracker cache queue];
    (destruct (Nat.ltb_spec (S (c + f)) n) as [Hmore|Hlast];
     [destruct (Nat.leb_spec n (S c + f)); try lia;
      destruct (Nat.leb_spec n (c + S f)); try lia
     |destruct (Nat.leb_spec n (S c + f)); try lia;
      destruct (Nat.leb_spec n (c + S f)); try lia]).
  1, 3: cbn [snd]; split;
    [split;
     [eexists; cbn [db]; rewrite Hjobs, lookup_insert_eq; by split
     |left; cbn [jobCompletionTracker]; by rewrite lookup_insert_eq]
    |unfold terminalWrites; cbn [db]; rewrite Hups; symmetry; apply Hw].
  all: cbn [db jobCompletionTracker cache queue];
    rewrite Hjobs, lookup_insert_eq; cbn [fst snd];
    unfold jobStatus, jobCompletedAt, terminalWrites;
    cbn [db jobCompletionTracker scrapeJobs statusUpdates];
    rewrite lookup_delete_eq, lookup_insert_eq, Hups, ?Hf;
    cbn [fmap option_fmap option_map ScrapeJob.status ScrapeJob.completedAt];
    split_and!; try done.
  all: rewrite (filter_app _ (_ ++ _)%list), <- (Hw (Bull.at_jobId x));
    fold (terminalWrites (Bull.at_jobId x) app); f_equal;
    rewrite filter_cons_True by (split; [reflexivity|try destruct (S f =? n); reflexivity]);
    by rewrite filter_nil.
Qed.


Lemma count_failed_cons (ok : bool) (l : list bool) :
  count_failed (ok :: l) = (if ok then 0 else 1) + count_failed l.
Proof.
  unfold count_failed. destruct ok.
  - by rewrite filter_cons_False.
  - by rewrite filter_cons_True.
Qed.



(** A run of attempts for one job that stops before the job's last
    outcome. *)
Lemma run_in_progress jobId attempts :
  forall n c f app,
    progress n c f jobId app ->
    Forall (fun x => Bull.at_jobId x = jobId) attempts ->
    c + f + length attempts < n ->
    exists c' f',
      c' + f' = c + f + length attempts
      /\ f' = f + count_failed (Bull.outcomes attempts app)
      /\ progress n c' f' jobId (Bull.run attempts app)
      /\ terminalWrites jobId (Bull.run attempts app)
         = terminalWrites jobId app.
Proof.
  induction attempts as [|x rest IH]; intros n c f app Hp Hall Hn.
  - exists c, f. cbn. split_and!; try done; lia.
  - pose proof (Forall_inv Hall) as Hx. apply Forall_inv_tail in Hall.
    cbn beta in Hx. subst jobId. cbn [length] in Hn.
    pose proof (attempt_step n c f x app Hp ltac:(lia)) as Hstep.
    cbv zeta in Hstep.
    destruct (Nat.ltb_spec (S (c + f)) n) as [_|?]; [|lia].
    destruct Hstep as [Hp' Hw].
    destruct (IH n _ _ _ Hp' Hall) as (c' & f' & Hsum & Hf & Hp2 & Hw2).
    { destruct (Bull.processor_ok x app); lia. }
    exists c', f'. unfold Bull.run in *. cbn [foldl Bull.outcomes length].
    rewrite count_failed_cons. split_and!; [| |done|congruence].
    all: destruct (Bull.processor_ok x app); lia.
Qed.







(** *** Attempts that overlap *)

(** The status of a job in progress after an attempt that is not its
    last. *)
Lemma attempt_in_progress_status n c f x app :
  progress n c f (Bull.at_jobId x) app ->
  S (c + f) < n ->
  jobStatus (Bull.at_jobId x)
    (Bull.attempt (Bull.at_router x) (Bull.at_time x) (Bull.at_jobId x)
       (Bull.at_url x) app)
  = Some processing.
Proof.
  intros Hp Hlt.
  destruct (on_active_progress _ _ _ _ _ Hp) as [Hdb Htr].
  destruct Hp as [(j & Hj & Hlen) _].
  unfold Bull.attempt.
  set (app1 := snd (QueueManager.on_active (Bull.at_jobId x) app)) in *.
  clearbody app1.
  destruct (processScrapeJob_on_existing_job (Bull.at_router x)
              (Bull.at_time x) (Bull.at_jobId x) (Bull.at_url x) app1 j)
    as (r & app2 & Hrun & Hjobs & Hups & Htr2); [by rewrite Hdb|].
  rewrite Hrun. rewrite <- Htr2 in Htr.
  destruct r as [[]|e];
    [unfold QueueManager.on_completed|unfold QueueManager.on_failed];
    rewrite Htr; cbn [Tracker.total Tracker.completed Tracker.failed];
    unfold bind, modifyTracker, ret; cbn [fst snd];
    [destruct (Nat.leb_spec n (S c + f)); try lia
    |destruct (Nat.leb_spec n (c + S f)); try lia];
    unfold jobStatus; cbn [snd db]; by rewrite Hjobs, lookup_insert_eq.
Qed.

Lemma run_app attempts more app :
  Bull.run (attempts ++ more) app = Bull.run more (Bull.run attempts app).
Proof. unfold Bull.run. apply foldl_app. Qed.

Lemma run_in_progress_status jobId attempts n c f app :
  progress n c f jobId app ->
  Forall (fun x => Bull.at_jobId x = jobId) attempts ->
  c + f + length attempts < n ->
  attempts <> [] ->
  jobStatus jobId (Bull.run attempts app) = Some processing.
Proof.
  intros Hp Hall Hn Hne.
  destruct (exists_last Hne) as (init & x & ->).
  apply Forall_app in Hall as [Hinit Hx]. apply Forall_inv in Hx.
  cbn beta in Hx. subst jobId.
  rewrite length_app in Hn. cbn [length] in Hn.
  destruct (run_in_progress (Bull.at_jobId x) init n c f app Hp Hinit)
    as (c' & f' & Hsum & _ & Hp' & _); [lia|].
  rewrite run_app. unfold Bull.run at 1. cbn [foldl].
  apply (attempt_in_progress_status n c' f'); [done|lia].
Qed.

(** The run in which the first two attempts of a job overlap: both
    [active] handlers find no tracker entry; the second resumes when the
    first attempt has been counted. *)
Lemma overlapping_run c jobId x1 x2 rest app :
  2 <= c ->
  Bull.at_jobId x1 = jobId -> Bull.at_jobId x2 = jobId ->
  jobCompletionTracker app !! jobId = None ->
  let app1 := Bull.attempt (Bull.at_router x1) (Bull.at_time x1) jobId
                (Bull.at_url x1) app in
  let app1' := snd (EventLoop.run_all (EventLoop.on_active_resumed jobId) app1) in
  is_Some (jobCompletionTracker app1' !! jobId) ->
  EventLoop.reaches c (x1 :: x2 :: rest) app (Bull.run (x2 :: rest) app1').
Proof.
  intros Hc H1 H2 Hnone app1 app1' Hsome. unfold EventLoop.reaches.
  eapply rtc_l; [apply EventLoop.step_start; cbn; lia|]. cbn [List.app].
  eapply rtc_l.
  { apply EventLoop.step_start.
    rewrite filter_cons_False by (cbn; discriminate).
    rewrite filter_cons_True by done. cbn. lia. }
  cbn [List.app]. rewrite H1, H2.
  (* both handlers test [has] *)
  eapply rtc_l; [apply (EventLoop.step_handler c _ _ [])|].
  cbn [List.app fst snd]. rewrite Hnone.
  rewrite bool_decide_eq_false_2 by (by intros [? ?]).
  eapply rtc_l; [apply (EventLoop.step_handler c _ _ [_; _])|].
  cbn [List.app fst snd]. rewrite Hnone.
  rewrite bool_decide_eq_false_2 by (by intros [? ?]).
  fold (EventLoop.on_active_resumed jobId).
  (* the first attempt *)
  eapply rtc_trans; [apply (handler_runs c _ app _ [])|]. cbn [List.app].
  rewrite run_all_on_active_resumed by done.
  replace (EventLoop.processScrapeJob (Bull.at_router x1) (Bull.at_time x1)
             jobId (Bull.at_url x1))
    with (EventLoop.processScrapeJob (Bull.at_router x1) (Bull.at_time x1)
            (Bull.at_jobId x1) (Bull.at_url x1)) by (by rewrite H1).
  eapply rtc_trans; [apply worker_and_outcome_run|].
  rewrite H1. fold (Bull.attempt (Bull.at_router x1) (Bull.at_time x1) jobId
                      (Bull.at_url x1) app). fold app1.
  (* the second handler resumes *)
  eapply rtc_trans; [apply (handler_runs c _ app1 _ [])|]. cbn [List.app].
  fold app1'.
  replace (EventLoop.processScrapeJob (Bull.at_router x2) (Bull.at_time x2)
             jobId (Bull.at_url x2))
    with (EventLoop.processScrapeJob (Bull.at_router x2) (Bull.at_time x2)
            (Bull.at_jobId x2) (Bull.at_url x2)) by (by rewrite H2).
  eapply rtc_trans; [apply worker_and_outcome_run|].
  assert (Hact : QueueManager.on_active (Bull.at_jobId x2) app1' = (Ok tt, app1')).
  { unfold QueueManager.on_active. rewrite H2. by destruct Hsome as [t ->]. }
  replace app1' with (snd (QueueManager.on_active (Bull.at_jobId x2) app1')) at 1
    by (by rewrite Hact).
  fold (Bull.attempt (Bull.at_router x2) (Bull.at_time x2) (Bull.at_jobId x2)
          (Bull.at_url x2) app1').
  change (Bull.run (x2 :: rest) app1')
    with (Bull.run rest
            (Bull.attempt (Bull.at_router x2) (Bull.at_time x2)
               (Bull.at_jobId x2) (Bull.at_url x2) app1')).
  apply run_reaches. lia.
Qed.

(** What the resumed [active] handler leaves: a fresh entry. *)
Lemma on_active_resumed_resets n c f jobId app :
  progress n c f jobId app ->
  let app' := snd (EventLoop.run_all (EventLoop.on_active_resumed jobId) app) in
  progress n 0 0 jobId app'
  /\ statusUpdates (db app') = statusUpdates (db app).
Proof.
  intros [(j & Hj & Hlen) _]. cbv zeta.
  unfold EventLoop.on_active_resumed. rewrite run_all_abind.
  unfold bind. rewrite run_all_await.
  unfold liftDb, JobService.findById. cbn [fst snd db]. rewrite Hj.
  rewrite run_all_await. unfold modifyTracker. cbn [snd db jobCompletionTracker].
  split; [|done]. split; [by exists j|]. left. cbn [jobCompletionTracker].
  by rewrite lookup_insert_eq, Hlen.
Qed.

(** X29. When two attempts of a job overlap, the job can be left
    unfinished for good. For a job of n >= 2 URLs with no tracker entry and
    a worker of concurrency 2 or more, there is a run of all n attempts,
    whatever their outcomes, after which nothing is in flight, no terminal
    status has been written, the job row says [processing], and the
    tracker entry counts only n - 1 outcomes: both [active] handlers find
    no entry, and the second writes its fresh entry after the first
    attempt has been counted. *)
Theorem overlapping_attempts_leave_the_job_unfinished
    jobId x1 x2 rest app j concurrency :
  scrapeJobs (db app) !! jobId = Some j ->
  jobCompletionTracker app !! jobId = None ->
  Forall (fun x => Bull.at_jobId x = jobId) (x1 :: x2 :: rest) ->
  length (x1 :: x2 :: rest) = length (ScrapeJob.urls j) ->
  2 <= concurrency ->
  exists app',
    EventLoop.reaches concurrency (x1 :: x2 :: rest) app app'
    /\ terminalWrites jobId app' = terminalWrites jobId app
    /\ jobStatus jobId app' = Some processing
    /\ exists t,
         jobCompletionTracker app' !! jobId = Some t
         /\ Tracker.total t = length (ScrapeJob.urls j)
         /\ S (Tracker.completed t + Tracker.failed t)
            = length (ScrapeJob.urls j).
Proof.
  intros Hj Hnone Hall Hlen Hc.
  pose proof (Forall_inv Hall) as H1. apply Forall_inv_tail in Hall.
  pose proof (Forall_inv Hall) as H2. cbn beta in H1, H2.
  cbn [length] in Hlen.
  set (n := length (ScrapeJob.urls j)) in *.
  assert (Hp : progress n 0 0 jobId app).
  { split; [by exists j | by right]. }
  rewrite <- H1 in Hp.
  pose proof (attempt_step n 0 0 x1 app Hp ltac:(lia)) as Hstep.
  cbv zeta in Hstep.
  destruct (Nat.ltb_spec (S (0 + 0)) n) as [_|?]; [|lia].
  destruct Hstep as [Hp1 Hw1]. rewrite H1 in Hp1, Hw1.
  set (app1 := Bull.attempt (Bull.at_router x1) (Bull.at_time x1) jobId
                 (Bull.at_url x1) app) in *.
  destruct (on_active_resumed_resets n _ _ jobId app1 Hp1) as [Hp1' Hups].
  set (app1' := snd (EventLoop.run_all (EventLoop.on_active_resumed jobId) app1))
    in *.
  destruct (run_in_progress jobId (x2 :: rest) n 0 0 app1' Hp1' Hall)
    as (c' & f' & Hsum & _ & Hp2 & Hw2); [cbn [length]; lia|].
  exists (Bull.run (x2 :: rest) app1'). split_and!.
  - apply overlapping_run; try done.
    destruct Hp1' as [_ [Ht|(_ & _ & Ht)]]; fold app1 app1' in Ht |- *.
    + by rewrite Ht.
    + destruct Hp2 as [_ Hp2]. exfalso.
      destruct Hp1 as [(j1 & Hj1 & Hlen1) _].
      revert Ht. unfold app1', EventLoop.on_active_resumed.
      rewrite run_all_abind. unfold bind. rewrite run_all_await.
      unfold liftDb, JobService.findById. cbn [fst snd db]. rewrite Hj1.
      rewrite run_all_await. unfold modifyTracker.
      cbn [snd jobCompletionTracker]. by rewrite lookup_insert_eq.
  - rewrite Hw2. unfold terminalWrites. rewrite Hups. exact Hw1.
  - by apply (run_in_progress_status jobId (x2 :: rest) n 0 0 app1');
      [| |cbn [length]; lia|].
  - destruct Hp2 as [_ [Ht|(-> & -> & _)]].
    + eexists. split; [exact Ht|]. cbn. split; [done|]. cbn [length] in Hsum. lia.
    + cbn [length] in Hsum. lia.
Qed.

Lemma overlapping_attempts_leave_the_job_unfinished_witness :
  exists app',
    EventLoop.reaches ScrapeQueue.concurrency Scenario.both_work
      (Scenario.submitted [Scenario.pageA; Scenario.pageB]) app'
    /\ terminalWrites 1 app' = []
    /\ jobStatus 1 app' = Some processing.
Proof.
  pose proof (overlapping_attempts_leave_the_job_unfinished 1
                {| Bull.at_time := 1100; Bull.at_jobId := 1;
                   Bull.at_url := Scenario.pageA;
                   Bull.at_router := Scenario.working |}
                {| Bull.at_time := 1200; Bull.at_jobId := 1;
                   Bull.at_url := Scenario.pageB;
                   Bull.at_router := Scenario.working |}
                []
                (Scenario.submitted [Scenario.pageA; Scenario.pageB])
                {| ScrapeJob.id := 1; ScrapeJob.userId := None;
                   ScrapeJob.urls := [Scenario.pageA; Scenario.pageB];
                   ScrapeJob.status := pending; ScrapeJob.createdAt := 1000;
                   ScrapeJob.completedAt := None |}
                ScrapeQueue.concurrency) as H.
  specialize (H ltac:(by vm_compute)).
  specialize (H ltac:(by vm_compute)).
  specialize (H ltac:(by repeat constructor)).
  specialize (H eq_refl).
  specialize (H ltac:(unfold ScrapeQueue.concurrency; lia)).
  destruct H as (app' & Hrun & Hw & Hs & _).
  exists app'. split; [exact Hrun|]. split; [exact Hw | exact Hs].
Defined.

(** The end of an outcome handler that has counted the last outcome:
    [updateStatus], then [delete]. *)
Lemma outcome_handler_end jobId status now a j :
  scrapeJobs (db a) !! jobId = Some j ->
  let a' := snd (EventLoop.run_all
                   (EventLoop.abind
                      (EventLoop.await
                         (liftDb (JobService.updateStatus jobId status
                                    (Some now))))
                      (fun _ => EventLoop.await (modifyTracker (delete jobId))))
                   a) in
  is_Some (scrapeJobs (db a') !! jobId)
  /\ statusUpdates (db a')
     = (statusUpdates (db a) ++ [(jobId, status, Some now)])%list
  /\ jobCompletionTracker a' = delete jobId (jobCompletionTracker a).
Proof.
  intros Hj. cbv zeta. rewrite run_all_abind. unfold bind.
  rewrite run_all_await. unfold liftDb, JobService.updateStatus.
  rewrite Hj. cbn [fst snd]. rewrite run_all_await. unfold modifyTracker.
  cbn [snd db scrapeJobs statusUpdates jobCompletionTracker].
  split_and!; [|done|done]. rewrite lookup_insert_eq. by eexists.
Qed.

Lemma status_written_terminal o t :
  terminal (EventLoop.status_written o t) = true.
Proof. destruct o; cbn; [done|]. by destruct (_ =? _). Qed.

Lemma counted_sum o t :
  Tracker.total (QueueManager.counted o t) = Tracker.total t
  /\ Tracker.completed (QueueManager.counted o t)
     + Tracker.failed (QueueManager.counted o t)
     = S (Tracker.completed t + Tracker.failed t).
Proof. destruct o; cbn; lia. Qed.

(** X30. When the outcome handlers of two attempts of a job overlap, the
    tracker bound is broken and the terminal status is written twice. For
    a job whose tracker entry lacks one outcome ([completed + failed + 1 =
    total]) and two further attempts for it, the second being a retry,
    with a worker of concurrency 2 or more: there is a run in which both
    handlers count before either deletes the entry, so that the entry
    reaches [completed + failed > total], and at the end of which two
    terminal status updates have been written for the job. *)
Theorem overlapping_outcomes_exceed_the_total
    jobId n c f x y app j concurrency :
  scrapeJobs (db app) !! jobId = Some j ->
  jobCompletionTracker app !! jobId
  = Some {| Tracker.total := n; Tracker.completed := c; Tracker.failed := f |} ->
  S (c + f) = n ->
  Bull.at_jobId x = jobId -> Bull.at_jobId y = jobId ->
  2 <= concurrency ->
  exists between app' s1 s2,
    rtc (EventLoop.step concurrency)
      {| EventLoop.state := app; EventLoop.waiting := [x; y];
         EventLoop.threads := [] |} between
    /\ (exists t, jobCompletionTracker (EventLoop.state between) !! jobId = Some t
                  /\ Tracker.total t < Tracker.completed t + Tracker.failed t)
    /\ rtc (EventLoop.step concurrency) between
         {| EventLoop.state := app'; EventLoop.waiting := [];
            EventLoop.threads := [] |}
    /\ terminal s1 = true /\ terminal s2 = true
    /\ terminalWrites jobId app'
       = (terminalWrites jobId app
          ++ [(jobId, s1, Some (Bull.at_time x));
              (jobId, s2, Some (Bull.at_time y))])%list.
Proof.
  intros Hj Ht Hn Hx Hy Hc.
  set (t0 := {| Tracker.total := n; Tracker.completed := c;
                Tracker.failed := f |}) in *.
  (* the first processor and the first step of its outcome handler *)
  destruct (processScrapeJob_on_existing_job (Bull.at_router x)
              (Bull.at_time x) jobId (Bull.at_url x) app j Hj)
    as (rx & app2 & Hrunx & Hjobs2 & Hups2 & Htr2).
  set (ox := EventLoop.outcome_of rx).
  set (t1 := QueueManager.counted ox t0).
  set (app2a := snd (modifyTracker (insert jobId t1) app2)).
  (* the second processor and the first step of its outcome handler *)
  assert (Hj2 : exists j2, scrapeJobs (db app2a) !! jobId = Some j2).
  { eexists. unfold app2a. cbn [modifyTracker snd db].
    by rewrite Hjobs2, lookup_insert_eq. }
  destruct Hj2 as (j2 & Hj2).
  destruct (processScrapeJob_on_existing_job (Bull.at_router y)
              (Bull.at_time y) jobId (Bull.at_url y) app2a j2 Hj2)
    as (ry & app3 & Hruny & Hjobs3 & Hups3 & Htr3).
  set (oy := EventLoop.outcome_of ry).
  set (t2 := QueueManager.counted oy t1).
  set (app3a := snd (modifyTracker (insert jobId t2) app3)).
  assert (Hlook2 : jobCompletionTracker app2 !! jobId = Some t0)
    by (by rewrite Htr2).
  assert (Hlook3 : jobCompletionTracker app3 !! jobId = Some t1).
  { rewrite Htr3. unfold app2a. cbn [modifyTracker snd jobCompletionTracker].
    by rewrite lookup_insert_eq. }
  destruct (counted_sum ox t0) as [Htot1 Hsum1].
  destruct (counted_sum oy t1) as [Htot2 Hsum2].
  fold t1 in Htot1, Hsum1. fold t2 in Htot2, Hsum2.
  cbn [t0 Tracker.total Tracker.completed Tracker.failed] in Htot1, Hsum1.
  eexists _, _, (EventLoop.status_written ox t1),
    (EventLoop.status_written oy t2).
  split_and!.
  - eapply rtc_l; [apply EventLoop.step_start; cbn; lia|]. cbn [List.app].
    eapply rtc_l.
    { apply EventLoop.step_start.
      rewrite filter_cons_False by (cbn; discriminate).
      rewrite filter_cons_True by done. cbn. lia. }
    cbn [List.app]. rewrite Hx, Hy.
    eapply rtc_trans; [apply (handler_runs concurrency _ app _ [])|].
    cbn [List.app]. rewrite run_all_on_active.
    unfold QueueManager.on_active at 1. rewrite Ht. cbn [snd].
    eapply rtc_trans; [apply (handler_runs concurrency _ app _ [_])|].
    cbn [List.app]. rewrite run_all_on_active.
    unfold QueueManager.on_active at 1. rewrite Ht. cbn [snd].
    eapply rtc_trans; [apply (worker_runs concurrency x _ app _ [])|].
    cbn [List.app]. rewrite run_all_processScrapeJob, Hrunx. cbn [fst snd].
    rewrite Hx. fold ox.
    eapply rtc_l; [apply (EventLoop.step_handler concurrency _ _ [])|].
    cbn [List.app]. rewrite Hlook2. cbn [fst snd]. fold t1. fold app2a.
    eapply rtc_trans; [apply (worker_runs concurrency y _ app2a _ [_])|].
    cbn [List.app]. rewrite run_all_processScrapeJob, Hruny. cbn [fst snd].
    rewrite Hy. fold oy.
    eapply rtc_l; [apply (EventLoop.step_handler concurrency _ _ [_])|].
    cbn [List.app]. rewrite Hlook3. cbn [fst snd]. fold t2. fold app3a.
    rewrite (proj2 (Nat.leb_le (Tracker.total t1) _)) by lia.
    rewrite (proj2 (Nat.leb_le (Tracker.total t2) _)) by lia.
    apply rtc_refl.
  - exists t2. cbn [EventLoop.state]. unfold app3a.
    cbn [modifyTracker snd jobCompletionTracker].
    rewrite lookup_insert_eq. split; [done|lia].
  - eapply rtc_trans; [apply (handler_runs concurrency _ app3a _ [])|].
    cbn [List.app].
    eapply rtc_trans; [apply (handler_runs concurrency _ _ _ [])|].
    cbn [List.app]. apply rtc_refl.
  - apply status_written_terminal.
  - apply status_written_terminal.
  - assert (Hj3 : exists j3, scrapeJobs (db app3a) !! jobId = Some j3).
    { eexists. unfold app3a. cbn [modifyTracker snd db].
      by rewrite Hjobs3, lookup_insert_eq. }
    destruct Hj3 as (j3 & Hj3).
    destruct (outcome_handler_end jobId (EventLoop.status_written ox t1)
                (Bull.at_time x) app3a j3 Hj3) as ([j4 Hj4] & Hups4 & _).
    destruct (outcome_handler_end jobId (EventLoop.status_written oy t2)
                (Bull.at_time y) _ j4 Hj4) as (_ & Hups5 & _).
    unfold terminalWrites. rewrite Hups5, Hups4.
    unfold app3a. cbn [modifyTracker snd db]. rewrite Hups3.
    unfold app2a. cbn [modifyTracker snd db]. rewrite Hups2.
    rewrite <- !(assoc_L (++)). rewrite filter_app. f_equal.
    cbn [List.app].
    rewrite !filter_cons_False by (cbn; intros [_ ?]; done).
    rewrite !filter_cons_True
      by (split; [reflexivity|apply status_written_terminal]).
    by rewrite filter_nil.
Qed.

Lemma overlapping_outcomes_exceed_the_total_witness :
  exists app',
    EventLoop.reaches ScrapeQueue.concurrency
      [ {| Bull.at_time := 1200; Bull.at_jobId := 1;
           Bull.at_url := Scenario.pageB;
           Bull.at_router := Scenario.working |};
        Scenario.retry_of_A ]
      (Bull.run (take 1 Scenario.first_two)
         (Scenario.submitted [Scenario.pageA; Scenario.pageB]))
      app'
    /\ length (terminalWrites 1 app') = 2.
Proof.
  pose proof (overlapping_outcomes_exceed_the_total 1 2 0 1
                {| Bull.at_time := 1200; Bull.at_jobId := 1;
                   Bull.at_url := Scenario.pageB;
                   Bull.at_router := Scenario.working |}
                Scenario.retry_of_A
                (Bull.run (take 1 Scenario.first_two)
                   (Scenario.submitted [Scenario.pageA; Scenario.pageB]))
                {| ScrapeJob.id := 1; ScrapeJob.userId := None;
                   ScrapeJob.urls := [Scenario.pageA; Scenario.pageB];
                   ScrapeJob.status := processing; ScrapeJob.createdAt := 1000;
                   ScrapeJob.completedAt := None |}
                ScrapeQueue.concurrency) as H.
  specialize (H ltac:(by vm_compute)).
  specialize (H ltac:(by vm_compute)).
  specialize (H eq_refl eq_refl eq_refl).
  specialize (H ltac:(unfold ScrapeQueue.concurrency; lia)).
  destruct H as (between & app' & s1 & s2 & Hrun1 & _ & Hrun2 & _ & _ & Hw).
  exists app'. split; [exact (rtc_trans _ _ _ Hrun1 Hrun2)|].
  rewrite Hw. reflexivity.
Defined.

(** *** Long URLs and the cache key *)

Lemma string_app_assoc (s1 s2 s3 : string) :
  ((s1 ++ s2) ++ s3 = s1 ++ (s2 ++ s3))%string.
Proof.
  induction s1 as [|a s1 IH]; [reflexivity|].
  cbv [String.append]. fold String.append. by rewrite IH.
Qed.

Lemma slice0_app (s1 s2 : string) :
  Js.slice0 (String.length s1) (s1 ++ s2) = s1.
Proof.
  unfold Js.slice0. induction s1 as [|a s1 IH]; [by destruct s2|].
  cbv [String.append]. fold String.append. cbn [String.length substring].
  by rewrite IH.
Qed.

Lemma bytes_app (s1 s2 : string) :
  Base64.bytes (s1 ++ s2) = (Base64.bytes s1 ++ Base64.bytes s2)%list.
Proof.
  unfold Base64.bytes. induction s1 as [|a s1 IH]; [reflexivity|].
  cbv [String.append]. fold String.append.
  cbn [list_ascii_of_string map List.app]. by rewrite IH.
Qed.

Lemma bytes_length (s : string) :
  length (Base64.bytes s) = String.length s.
Proof.
  unfold Base64.bytes. induction s as [|a s IH]; [reflexivity|].
  cbn [list_ascii_of_string map length String.length]. by rewrite IH.
Qed.

(** Whole groups of three bytes are encoded on their own, four characters
    a group. *)
Lemma encode_with_groups alpha pad (k : nat) :
  forall pre rest,
    length pre = 3 * k ->
    Base64.encode_with alpha pad (pre ++ rest)
    = (Base64.encode_with alpha pad pre ++ Base64.encode_with alpha pad rest)%string
    /\ String.length (Base64.encode_with alpha pad pre) = 4 * k.
Proof.
  induction k as [|k IH]; intros pre rest Hlen.
  - destruct pre; [|cbn in Hlen; lia]. by split.
  - destruct pre as [|a [|b [|c pre]]]; cbn [length] in Hlen; try lia.
    destruct (IH pre rest ltac:(lia)) as [Happ Hl].
    cbn [List.app Base64.encode_with]. rewrite Happ. split.
    + by rewrite string_app_assoc.
    + unfold Base64.quad. cbn [take string_of_list_ascii].
      cbv [String.append]. fold String.append. cbn [String.length].
      change (String.length ("" ++ ?s)) with (String.length s).
      rewrite Hl. lia.
Qed.

(** The handler on a cache hit, for every router. *)
Lemma processScrapeJob_on_hit router now jobId pageUrl app j m ms :
  scrapeJobs (db app) !! jobId = Some j ->
  read_value (Cache.urlCache pageUrl) (cache app) = Some (m :: ms) ->
  ScrapeQueue.processScrapeJob router now jobId pageUrl app
  = (Ok tt,
     {| db := snd (MediaService.createMany now jobId pageUrl (m :: ms)
                     (snd (JobService.updateStatus jobId processing None
                             (db app))));
        cache := cache app;
        jobCompletionTracker := jobCompletionTracker app;
        queue := queue app |}).
Proof.
  intros Hj Hhit. unfold ScrapeQueue.processScrapeJob, try_catch.
  unfold bind at 1. unfold liftDb at 1. unfold JobService.updateStatus.
  rewrite Hj. cbn [fst snd].
  unfold bind at 1. unfold liftCache at 1.
  cbn [cache db jobCompletionTracker queue].
  rewrite get_returns, Hhit.
  unfold bind, liftDb, ret, MediaService.createMany.
  cbn [fst snd db cache jobCompletionTracker queue scrapeJobs].
  rewrite lookup_insert_eq. reflexivity.
Qed.

(** The handler on a miss, with Redis reachable and a page that has media:
    afterwards the cache answers with that media under the page's key. *)
Lemma processScrapeJob_warms_the_cache router now jobId pageUrl app j c :
  scrapeJobs (db app) !! jobId = Some j ->
  Cache.client (cache app) = Some c ->
  Cache.isConnected (cache app) = true ->
  Cache.rejecting c = false ->
  ScrapeQueue.cacheHit pageUrl app = false ->
  success (router pageUrl) = true ->
  media (router pageUrl) <> [] ->
  read_value (Cache.urlCache pageUrl)
    (cache (snd (ScrapeQueue.processScrapeJob router now jobId pageUrl app)))
  = Some (media (router pageUrl)).
Proof.
  intros Hj Hc Hconn Hrej Hmiss Hs Hm.
  rewrite (processScrapeJob_unfold _ _ _ _ _ j) by done.
  destruct (media (router pageUrl)) as [|m ms] eqn:Hmedia; [done|].
  cbn [length Nat.ltb Nat.leb].
  unfold bind, liftDb, liftCache, MediaService.createMany,
    JobService.updateStatus.
  rewrite Hj. cbn [snd scrapeJobs db]. rewrite lookup_insert_eq.
  cbn [fst snd db cache jobCompletionTracker queue].
  rewrite (online_shape _ _ Hc Hconn Hrej), set_online.
  cbn [fst snd db cache jobCompletionTracker queue].
  destruct (invalidate_online
              (<[Cache.urlCache pageUrl :=
                   (Cache.JsonOf (m :: ms), Cache.ttl_urlCache)]>
                 (Cache.data c))) as (d' & -> & Hd').
  cbn [fst snd cache]. unfold read_value.
  cbn [Cache.client Cache.isConnected Cache.rejecting Cache.data andb negb].
  rewrite Hd'.
  replace (media_key (Cache.urlCache pageUrl)) with false by reflexivity.
  by rewrite lookup_insert_eq.
Qed.

Lemma urlCache_of_prefix (p t : string) :
  String.length p = 75 ->
  Cache.urlCache (p ++ t)
  = ("url:" ++ Base64.encode_with Base64.alphabet true (Base64.bytes p))%string.
Proof.
  intros Hp. unfold Cache.urlCache, Base64.base64. rewrite bytes_app.
  destruct (encode_with_groups Base64.alphabet true 25 (Base64.bytes p)
              (Base64.bytes t)) as [-> Hl];
    [by rewrite bytes_length, Hp|].
  change 100 with (4 * 25). rewrite <- Hl. by rewrite slice0_app.
Qed.

(** X20. The cache key of a URL depends on its first 75 bytes only: two
    URLs that agree on them have the same key. *)
Theorem urlCache_reads_only_the_first_75_bytes (p t1 t2 : string) :
  String.length p = 75 ->
  Cache.urlCache (p ++ t1) = Cache.urlCache (p ++ t2).
Proof. intros Hp. by rewrite !urlCache_of_prefix. Qed.

Lemma urlCache_reads_only_the_first_75_bytes_witness :
  Cache.urlCache Scenario.product17 = Cache.urlCache Scenario.product42.
Proof.
  apply (urlCache_reads_only_the_first_75_bytes Scenario.catalogue).
  reflexivity.
Defined.

(** X21. Once a page with media has been scraped and cached, a page whose
    URL has the same first 75 bytes is never scraped: whatever the router
    would return for it, the handler stores the media of the first page as
    found on the second. *)
Theorem long_url_is_served_the_media_of_its_prefix_twin
    (router router' : string -> ScrapeResult) (now now' : Date)
    (jobId jobId' : nat) (p t1 t2 : string) (app : App)
    (j j' : ScrapeJob.t) (c : Cache.RedisClient (list ScrapedMedia)) :
  String.length p = 75 ->
  scrapeJobs (db app) !! jobId = Some j ->
  scrapeJobs (db app) !! jobId' = Some j' ->
  Cache.client (cache app) = Some c ->
  Cache.isConnected (cache app) = true ->
  Cache.rejecting c = false ->
  ScrapeQueue.cacheHit (p ++ t1) app = false ->
  success (router (p ++ t1)) = true ->
  media (router (p ++ t1)) <> [] ->
  let app1 :=
    snd (ScrapeQueue.processScrapeJob router now jobId (p ++ t1) app) in
  let out := ScrapeQueue.processScrapeJob router' now' jobId' (p ++ t2) app1 in
  fst out = Ok tt
  /\ exists added,
       mediaRows (db (snd out)) = (mediaRows (db app1) ++ added)%list
       /\ map found added
          = map (fun item => (jobId', (p ++ t2)%string, mediaUrl item, type item))
                (media (router (p ++ t1)%string)).
Proof.
  intros Hp Hj Hj' Hc Hconn Hrej Hmiss Hs Hm. cbv zeta.
  pose proof (processScrapeJob_warms_the_cache router now jobId (p ++ t1)
                app j c Hj Hc Hconn Hrej Hmiss Hs Hm) as Hwarm.
  destruct (processScrapeJob_steady router now jobId (p ++ t1) app)
    as [_ Hkeep].
  destruct (Hkeep jobId') as [j1 Hj1]; [by eexists|].
  set (app1 := snd (ScrapeQueue.processScrapeJob router now jobId (p ++ t1) app))
    in *.
  clearbody app1.
  destruct (media (router (p ++ t1))) as [|m ms] eqn:Hmedia; [done|].
  rewrite (processScrapeJob_on_hit router' now' jobId' (p ++ t2) app1 j1 m ms);
    [|exact Hj1
     |by rewrite (urlCache_of_prefix p t2), <- (urlCache_of_prefix p t1)].
  split; [reflexivity|].
  exists (MediaService.rows now' jobId' (p ++ t2) (nextMediaId (db app1))
            (m :: ms)).
  split; [|apply rows_found].
  cbn [snd db]. unfold MediaService.createMany, JobService.updateStatus.
  rewrite Hj1. cbn [snd scrapeJobs]. rewrite lookup_insert_eq. reflexivity.
Qed.

Lemma long_url_is_served_the_media_of_its_prefix_twin_witness :
  let app := Scenario.submitted_with Scenario.online
               [Scenario.product17; Scenario.product42] in
  let app1 := snd (ScrapeQueue.processScrapeJob Scenario.working 1100 1
                     Scenario.product17 app) in
  let out := ScrapeQueue.processScrapeJob Scenario.unreachable 1200 1
               Scenario.product42 app1 in
  fst out = Ok tt
  /\ map (fun r => (Media.sourceUrl r, Media.mediaUrl r))
         (mediaRows (db (snd out)))
     = [(Scenario.product17, "https://example.com/a.jpg");
        (Scenario.product42, "https://example.com/a.jpg")].
Proof.
  cbv zeta.
  pose proof (long_url_is_served_the_media_of_its_prefix_twin
              Scenario.working Scenario.unreachable 1100 1200 1 1
              Scenario.catalogue "17&colour=red" "42"
              (Scenario.submitted_with Scenario.online
                 [Scenario.product17; Scenario.product42])
              {| ScrapeJob.id := 1; ScrapeJob.userId := None;
                 ScrapeJob.urls := [Scenario.product17; Scenario.product42];
                 ScrapeJob.status := pending; ScrapeJob.createdAt := 1000;
                 ScrapeJob.completedAt := None |}
              {| ScrapeJob.id := 1; ScrapeJob.userId := None;
                 ScrapeJob.urls := [Scenario.product17; Scenario.product42];
                 ScrapeJob.status := pending; ScrapeJob.createdAt := 1000;
                 ScrapeJob.completedAt := None |}
              {| Cache.data := ∅; Cache.rejecting := false |}) as H.
  specialize (H eq_refl).
  specialize (H ltac:(by vm_compute)).
  specialize (H ltac:(by vm_compute)).
  specialize (H eq_refl eq_refl eq_refl).
  specialize (H ltac:(by vm_compute)).
  specialize (H eq_refl).
  specialize (H ltac:(by vm_compute)).
  cbv zeta in H.
  destruct H as [Hok Hrows].
  split; [exact Hok|]. by vm_compute.
Defined.

(** *** De-duplication in the two scrapers *)

Lemma removeDuplicates_from_spec (seen : gset string) (l : list ScrapedMedia) :
  NoDup (map mediaUrl (CheerioScrape.removeDuplicates_from seen l))
  /\ (forall u, u ∈ map mediaUrl (CheerioScrape.removeDuplicates_from seen l)
                <-> u ∈ map mediaUrl l /\ u ∉ seen)
  /\ CheerioScrape.removeDuplicates_from seen l `sublist_of` l.
Proof.
  revert seen. induction l as [|item rest IH]; intros seen.
  - cbn. split_and!; [constructor | | constructor].
    intros u. split; [by intros ?%elem_of_nil | by intros [?%elem_of_nil _]].
  - cbn [CheerioScrape.removeDuplicates_from]. case_bool_decide as Hseen.
    + destruct (IH seen) as (Hnd & Hin & Hsub). split_and!; [done| |].
      * intros u. rewrite Hin. cbn [map]. rewrite elem_of_cons.
        split; [tauto|]. intros [[->|?] ?]; done.
      * by apply sublist_cons.
    + destruct (IH ({[mediaUrl item]} ∪ seen)) as (Hnd & Hin & Hsub).
      split_and!.
      * cbn [map]. apply NoDup_cons. split; [|done].
        rewrite Hin, elem_of_union, elem_of_singleton. tauto.
      * intros u. cbn [map].
        rewrite !elem_of_cons, Hin, elem_of_union, elem_of_singleton.
        destruct (decide (u = mediaUrl item)) as [->|Hne]; tauto.
      * by apply sublist_skip.
Qed.

Lemma removeDuplicates_from_first (seen : gset string) (l : list ScrapedMedia)
    (item : ScrapedMedia) :
  item ∈ CheerioScrape.removeDuplicates_from seen l
  <-> ((mediaUrl item ∉ seen)
       /\ (exists l1 l2, l = (l1 ++ item :: l2)%list
                         /\ mediaUrl item ∉ map mediaUrl l1)).
Proof.
  revert seen. induction l as [|x rest IH]; intros seen.
  - cbn. split; [by intros ?%elem_of_nil|].
    intros (_ & l1 & l2 & Heq & _). by destruct l1.
  - cbn [CheerioScrape.removeDuplicates_from]. case_bool_decide as Hseen.
    + rewrite IH. split.
      * intros (Hns & l1 & l2 & -> & Hl1). split; [done|].
        exists (x :: l1), l2. split; [done|]. cbn [map].
        rewrite elem_of_cons. intros [Heq|?]; [|done]. by rewrite Heq in Hns.
      * intros (Hns & l1 & l2 & Heq & Hl1). split; [done|].
        destruct l1 as [|y l1]; cbn in Heq; injection Heq as -> ->; [done|].
        exists l1, l2. split; [done|]. cbn [map] in Hl1.
        rewrite elem_of_cons in Hl1. tauto.
    + rewrite elem_of_cons, IH. split.
      * intros [->|(Hns & l1 & l2 & -> & Hl1)].
        { split; [done|]. exists [], rest. split; [done|].
          by intros ?%elem_of_nil. }
        rewrite elem_of_union, elem_of_singleton in Hns.
        split; [tauto|]. exists (x :: l1), l2. split; [done|].
        cbn [map]. rewrite elem_of_cons. tauto.
      * intros (Hns & l1 & l2 & Heq & Hl1).
        destruct l1 as [|y l1]; cbn in Heq; injection Heq as -> ->;
          [by left|right].
        cbn [map] in Hl1. rewrite elem_of_cons in Hl1.
        split; [rewrite elem_of_union, elem_of_singleton; tauto|].
        exists l1, l2. split; [done|]. tauto.
Qed.

(** X22. [removeDuplicates] keeps, for every media URL of its input, the
    first item with that URL and nothing else, in the input's order: the
    URLs of the result are pairwise distinct, the result is a sub-list of
    the input, and an item is kept exactly when no earlier item has its
    URL. *)
Theorem removeDuplicates_keeps_the_first_item_of_each_url
    (media : list ScrapedMedia) :
  NoDup (map mediaUrl (CheerioScrape.removeDuplicates media))
  /\ CheerioScrape.removeDuplicates media `sublist_of` media
  /\ (forall u, u ∈ map mediaUrl (CheerioScrape.removeDuplicates media)
                <-> u ∈ map mediaUrl media)
  /\ (forall item,
        item ∈ CheerioScrape.removeDuplicates media
        <-> (exists l1 l2, media = (l1 ++ item :: l2)%list
                           /\ mediaUrl item ∉ map mediaUrl l1)).
Proof.
  unfold CheerioScrape.removeDuplicates.
  destruct (removeDuplicates_from_spec ∅ media) as (Hnd & Hin & Hsub).
  split_and!; [done|done| |].
  - intros u. rewrite Hin. pose proof (not_elem_of_empty (C := gset string) u).
    tauto.
  - intros item. rewrite removeDuplicates_from_first.
    pose proof (not_elem_of_empty (C := gset string) (mediaUrl item)). tauto.
Qed.

(** X23. The renderer's single pass [filterAndDeduplicate] gives what the
    extractor's two steps give: the items that pass the extractor's
    validity check, then [removeDuplicates]. *)
Theorem filterAndDeduplicate_is_filter_then_removeDuplicates
    (URL_new : string -> option string -> result CheerioScraper.URL)
    (media : list ScrapedMedia) :
  PuppeteerScraper.filterAndDeduplicate URL_new media
  = CheerioScrape.removeDuplicates
      (filter (fun item =>
                 CheerioScraper.isValidMediaUrl URL_new (mediaUrl item) = true)
              media).
Proof.
  unfold PuppeteerScraper.filterAndDeduplicate, CheerioScrape.removeDuplicates.
  generalize (∅ : gset string). induction media as [|item rest IH]; intros seen.
  - reflexivity.
  - cbn [PuppeteerScraper.filterAndDeduplicate_from].
    change (PuppeteerScraper.isValidMediaUrl URL_new (mediaUrl item))
      with (CheerioScraper.isValidMediaUrl URL_new (mediaUrl item)).
    destruct (CheerioScraper.isValidMediaUrl URL_new (mediaUrl item)) eqn:Hv;
      cbn [negb].
    + rewrite filter_cons_True by done.
      cbn [CheerioScrape.removeDuplicates_from].
      case_bool_decide; by rewrite IH.
    + rewrite filter_cons_False by (by rewrite Hv). apply IH.
Qed.

Lemma Forall_flat_map {A B} (P : B -> Prop) (f : A -> list B) (l : list A) :
  (forall x, Forall P (f x)) -> Forall P (flat_map f l).
Proof.
  intros Hf. induction l as [|x l IH]; [constructor|].
  cbn [flat_map]. apply Forall_app. by split.
Qed.

Section ScrapeFacts.
Variable URL_new : string -> option string -> result CheerioScraper.URL.
Variable axios_get : string -> result Cheerio.Document.

Lemma from_attr_valid src pageUrl ty title :
  Forall (fun item =>
            CheerioScraper.isValidMediaUrl URL_new (mediaUrl item) = true)
    (CheerioScrape.from_attr URL_new src pageUrl ty title).
Proof.
  unfold CheerioScrape.from_attr. destruct (Js.truthy src); [|constructor].
  destruct (CheerioScraper.makeAbsoluteUrl _ _ _) as [a|]; [|constructor].
  destruct (Js.truthy (Some a)); cbn [andb]; [|constructor].
  destruct (CheerioScraper.isValidMediaUrl URL_new a) eqn:Hv; by repeat constructor.
Qed.

Lemma collect_valid pageUrl document :
  Forall (fun item =>
            CheerioScraper.isValidMediaUrl URL_new (mediaUrl item) = true)
    (CheerioScrape.collect URL_new pageUrl document).
Proof.
  unfold CheerioScrape.collect. rewrite !Forall_app. split_and!.
  - apply Forall_flat_map. intros element. unfold CheerioScrape.from_img.
    apply Forall_app. split; [apply from_attr_valid|].
    destruct (Js.truthy _); [|constructor].
    apply Forall_flat_map. intros u.
    destruct (CheerioScraper.isValidMediaUrl URL_new u) eqn:Hv;
      by repeat constructor.
  - apply Forall_flat_map. intros element. unfold CheerioScrape.from_video.
    apply Forall_app. split; [apply from_attr_valid|].
    apply Forall_flat_map. intros src. apply from_attr_valid.
  - apply Forall_flat_map. intros element. unfold CheerioScrape.from_meta.
    destruct (Js.truthy _); [|constructor].
    repeat case_bool_decide; try constructor; apply from_attr_valid.
Qed.
End ScrapeFacts.

(** X24. Whatever the page holds, the media of the extractor's result pass
    its validity check and have pairwise distinct URLs; when the page
    cannot be fetched the result is a failure without media that carries
    the error's message. *)
Theorem cheerio_scrape_returns_valid_distinct_media
    (URL_new : string -> option string -> result CheerioScraper.URL)
    (axios_get : string -> result Cheerio.Document) (pageUrl : string) :
  let r := CheerioScrape.scrape URL_new axios_get pageUrl in
  Forall (fun item =>
            CheerioScraper.isValidMediaUrl URL_new (mediaUrl item) = true)
    (media r)
  /\ NoDup (map mediaUrl (media r))
  /\ scraperUsed r = cheerio
  /\ match axios_get pageUrl with
     | Ok _ => success r = true /\ error r = None
     | Throw message =>
         success r = false /\ media r = [] /\ error r = Some message
     end.
Proof.
  cbv zeta. unfold CheerioScrape.scrape.
  destruct (axios_get pageUrl) as [document|message]; cbn.
  - destruct (removeDuplicates_from_spec ∅
                (CheerioScrape.collect URL_new pageUrl document))
      as (Hnd & _ & Hsub).
    split_and!; try done.
    apply Forall_forall. intros item Hitem.
    pose proof (collect_valid URL_new pageUrl document) as Hall.
    rewrite Forall_forall in Hall. apply Hall.
    by apply (elem_of_sublist _ _ _ Hitem).
  - split_and!; try done; constructor.
Qed.

(** *** The CPU monitor *)

Lemma tick_cases (cpuLoad : Z) (s : CpuMonitor.t) :
  CpuMonitor.tick cpuLoad s
  = if CpuMonitor.decisive cpuLoad
       && negb (Bool.eqb (70 <? cpuLoad)%Z (CpuMonitor.isPausedByCpu s))
    then ([if CpuMonitor.isPausedByCpu s
           then CpuMonitor.queue_resume else CpuMonitor.queue_pause],
          {| CpuMonitor.paused := (70 <? cpuLoad)%Z;
             CpuMonitor.isPausedByCpu := (70 <? cpuLoad)%Z |})
    else ([], s).
Proof.
  unfold CpuMonitor.tick, CpuMonitor.decisive.
  destruct (Z.ltb_spec 70 cpuLoad), (Z.ltb_spec cpuLoad 40); try lia;
    by destruct (CpuMonitor.isPausedByCpu s).
Qed.

(** X25. Over any series of CPU readings the monitor's calls on the queue
    alternate between [pause] and [resume], the first being [pause] when
    the monitor had not paused the queue; and when the queue's paused flag
    and [isPausedByCpu] agree at the start, they agree at the end. *)
Theorem cpu_monitor_calls_alternate (loads : list Z) (s : CpuMonitor.t) :
  CpuMonitor.alternating (CpuMonitor.isPausedByCpu s)
    (fst (CpuMonitor.ticks loads s))
  /\ CpuMonitor.isPausedByCpu (snd (CpuMonitor.ticks loads s))
     = (if Nat.even (length (fst (CpuMonitor.ticks loads s)))
        then CpuMonitor.isPausedByCpu s
        else negb (CpuMonitor.isPausedByCpu s))
  /\ (CpuMonitor.paused s = CpuMonitor.isPausedByCpu s ->
      CpuMonitor.paused (snd (CpuMonitor.ticks loads s))
      = CpuMonitor.isPausedByCpu (snd (CpuMonitor.ticks loads s))).
Proof.
  revert s. induction loads as [|cpuLoad rest IH]; intros s; [by cbn|].
  cbn [CpuMonitor.ticks]. rewrite tick_cases.
  destruct (CpuMonitor.decisive cpuLoad
            && negb (Bool.eqb (70 <? cpuLoad)%Z (CpuMonitor.isPausedByCpu s)))
    eqn:Hact.
  - apply andb_true_iff in Hact as [_ Hflip].
    set (s1 := {| CpuMonitor.paused := (70 <? cpuLoad)%Z;
                  CpuMonitor.isPausedByCpu := (70 <? cpuLoad)%Z |}).
    assert (Hs1 : CpuMonitor.isPausedByCpu s1
                  = negb (CpuMonitor.isPausedByCpu s)).
    { cbn. by destruct (70 <? cpuLoad)%Z, (CpuMonitor.isPausedByCpu s). }
    destruct (IH s1) as (Halt & Hflag & Hsync).
    destruct (CpuMonitor.ticks rest s1) as [calls s2]. cbn [fst snd] in *.
    rewrite Hs1 in Halt, Hflag. split_and!; [by split| |by intros _; apply Hsync].
    cbn [List.app length]. rewrite Nat.even_succ, <- Nat.negb_even, Hflag.
    by destruct (Nat.even (length calls)), (CpuMonitor.isPausedByCpu s).
  - destruct (IH s) as (Halt & Hflag & Hsync).
    by destruct (CpuMonitor.ticks rest s) as [calls s2].
Qed.

(** X26. After any series of readings the queue is paused by the monitor
    exactly when the last reading outside the band from 40 to 70 was above
    70; readings inside the band change nothing. *)
Theorem cpu_monitor_follows_the_last_decisive_reading
    (loads : list Z) (s : CpuMonitor.t) :
  CpuMonitor.isPausedByCpu (snd (CpuMonitor.ticks loads s))
  = match last (filter (fun l => CpuMonitor.decisive l = true) loads) with
    | Some cpuLoad => (70 <? cpuLoad)%Z
    | None => CpuMonitor.isPausedByCpu s
    end.
Proof.
  revert s. induction loads as [|cpuLoad rest IH]; intros s; [done|].
  cbn [CpuMonitor.ticks]. rewrite tick_cases.
  destruct (CpuMonitor.decisive cpuLoad) eqn:Hd; cbn [andb].
  - rewrite filter_cons_True by done. rewrite last_cons.
    destruct (negb (Bool.eqb (70 <? cpuLoad)%Z (CpuMonitor.isPausedByCpu s)))
      eqn:Hflip.
    + specialize (IH {| CpuMonitor.paused := (70 <? cpuLoad)%Z;
                        CpuMonitor.isPausedByCpu := (70 <? cpuLoad)%Z |}).
      destruct (CpuMonitor.ticks rest _) as [calls s2]. cbn [snd] in *.
      rewrite IH. by destruct (last _).
    + apply negb_false_iff, Bool.eqb_prop in Hflip.
      specialize (IH s). destruct (CpuMonitor.ticks rest s) as [calls s2].
      cbn [snd] in *. rewrite IH. by destruct (last _).
  - rewrite filter_cons_False by (by rewrite Hd).
    specialize (IH s). by destruct (CpuMonitor.ticks rest s) as [calls s2].
Qed.

(** *** The pages of the job list *)

Lemma ceil_div_covers (total limit : nat) :
  0 < limit ->
  total <= JobList.ceil_div total limit * limit
  /\ (forall p, 0 < p <= JobList.ceil_div total limit ->
                (p - 1) * limit < total).
Proof.
  intros Hl. unfold JobList.ceil_div.
  pose proof (Nat.div_mod_eq (total + limit - 1) limit) as Hdm.
  pose proof (Nat.mod_upper_bound (total + limit - 1) limit ltac:(lia)) as Hm.
  split; [nia|]. intros p [Hp Hle]. nia.
Qed.

Lemma pages_concat {A} (l : list A) (limit k : nat) :
  concat (map (fun p => take limit (drop ((p - 1) * limit) l)) (seq 1 k))
  = take (k * limit) l.
Proof.
  induction k as [|k IH]; [by rewrite take_0|].
  rewrite seq_S, map_app, concat_app, IH. cbn [map concat].
  replace ((1 + k - 1) * limit) with (k * limit) by lia.
  rewrite app_nil_r, take_take_drop. f_equal. lia.
Qed.

(** X27. For a positive [limit], the pages 1 to [totalPages] of the job
    list, one after the other, are the whole list in its order; none of
    them is empty, none is longer than [limit], and every later page is
    empty. *)
Theorem job_pages_partition_the_list
    (ordered : Database -> list ScrapeJob.t) (limit : nat) (d : Database) :
  0 < limit ->
  let pages := JobList.totalPages (snd (JobList.findAll ordered 1 limit d)) in
  concat (map (fun p => fst (JobList.findAll ordered p limit d)) (seq 1 pages))
  = ordered d
  /\ (forall p, 0 < p ->
        length (fst (JobList.findAll ordered p limit d)) <= limit
        /\ (p <= pages <-> fst (JobList.findAll ordered p limit d) <> [])
        /\ JobList.totalPages (snd (JobList.findAll ordered p limit d)) = pages
        /\ JobList.total (snd (JobList.findAll ordered p limit d))
           = length (ordered d)).
Proof.
  intros Hl. cbv zeta. unfold JobList.findAll. cbn [fst snd JobList.totalPages
    JobList.total].
  destruct (ceil_div_covers (length (ordered d)) limit Hl) as [Hcover Hinner].
  split.
  - rewrite pages_concat. by apply take_ge.
  - intros p Hp. split_and!; [rewrite length_take; lia| |done|done].
    rewrite <- length_zero_iff_nil, length_take, length_drop. split.
    + intros Hle. specialize (Hinner p ltac:(lia)). lia.
    + intros Hne.
      destruct (Nat.le_gt_cases p (JobList.ceil_div (length (ordered d)) limit))
        as [?|Hgt]; [done|].
      exfalso. apply Hne. nia.
Qed.

Lemma job_pages_partition_the_list_witness :
  map (fun p => map ScrapeJob.id
                  (fst (JobList.findAll JobList.newest_first p 2
                          JobList.three_jobs)))
      [1; 2; 3]
  = [[3; 2]; [1]; []]
  /\ concat (map (fun p => fst (JobList.findAll JobList.newest_first p 2
                                  JobList.three_jobs))
                 (seq 1 2))
     = JobList.newest_first JobList.three_jobs.
Proof.
  pose proof (job_pages_partition_the_list JobList.newest_first 2
                JobList.three_jobs ltac:(lia)) as H.
  cbv zeta in H. destruct H as [Hall _].
  split; [by vm_compute | exact Hall].
Defined.

(** *** From the submission to the terminal status *)



